(** * The SFTP client of vico (src/sftp/sftp-client.c), embedded in Rocq

    The client is a synchronous protocol engine over two byte streams.  The
    embedding keeps the shape of the C code: every function of
    sftp-client.c is a command of a small state-and-failure monad whose
    state holds the [struct sftp_conn], the outbound stream (the messages
    written so far), the inbound stream (the messages the server will
    deliver), the [interrupted] flag and the local file the bulk transfers
    work on.  [fatal()] aborts the process and is an outcome of its own. *)

From Stdlib Require Import ZArith List String Ascii Bool Lia PeanoNat.
Import ListNotations.
Local Open Scope string_scope.
Local Open Scope list_scope.
Local Open Scope Z_scope.

Set Implicit Arguments.

(** ** Machine integers *)

(** [u_int] and [u_int32_t] are 32 bits wide, [u_int64_t] 64 bits. *)
Definition u32 (n : Z) : Z := n mod 2 ^ 32.
Definition u64 (n : Z) : Z := n mod 2 ^ 64.

(** ** Protocol constants *)

(** Modelled from the spec: sftp.h and sftp-common.h are not part of the
    sources at hand; the opcodes, status codes, open flags, attribute
    flags and the message size limit are the ones of section 6 and
    section 4.1 of the specification. *)
Definition SSH2_FILEXFER_VERSION : Z := 3.

Definition SSH2_FXP_INIT : Z := 1.
Definition SSH2_FXP_VERSION : Z := 2.
Definition SSH2_FXP_OPEN : Z := 3.
Definition SSH2_FXP_CLOSE : Z := 4.
Definition SSH2_FXP_READ : Z := 5.
Definition SSH2_FXP_WRITE : Z := 6.
Definition SSH2_FXP_LSTAT : Z := 7.
Definition SSH2_FXP_SETSTAT : Z := 9.
Definition SSH2_FXP_FSETSTAT : Z := 10.
Definition SSH2_FXP_OPENDIR : Z := 11.
Definition SSH2_FXP_READDIR : Z := 12.
Definition SSH2_FXP_REMOVE : Z := 13.
Definition SSH2_FXP_MKDIR : Z := 14.
Definition SSH2_FXP_RMDIR : Z := 15.
Definition SSH2_FXP_REALPATH : Z := 16.
Definition SSH2_FXP_STAT : Z := 17.
Definition SSH2_FXP_STAT_VERSION_0 : Z := 17.
Definition SSH2_FXP_RENAME : Z := 18.
Definition SSH2_FXP_SYMLINK : Z := 20.
Definition SSH2_FXP_STATUS : Z := 101.
Definition SSH2_FXP_HANDLE : Z := 102.
Definition SSH2_FXP_DATA : Z := 103.
Definition SSH2_FXP_NAME : Z := 104.
Definition SSH2_FXP_ATTRS : Z := 105.
Definition SSH2_FXP_EXTENDED : Z := 200.
Definition SSH2_FXP_EXTENDED_REPLY : Z := 201.

Definition SSH2_FX_OK : Z := 0.
Definition SSH2_FX_EOF : Z := 1.
Definition SSH2_FX_OP_UNSUPPORTED : Z := 8.

Definition SSH2_FXF_READ : Z := 1.
Definition SSH2_FXF_WRITE : Z := 2.
Definition SSH2_FXF_CREAT : Z := 8.
Definition SSH2_FXF_TRUNC : Z := 16.

Definition SSH2_FILEXFER_ATTR_SIZE : Z := 1.
Definition SSH2_FILEXFER_ATTR_UIDGID : Z := 2.
Definition SSH2_FILEXFER_ATTR_PERMISSIONS : Z := 4.
Definition SSH2_FILEXFER_ATTR_ACMODTIME : Z := 8.

Definition SSH2_FXE_STATVFS_ST_RDONLY : Z := 1.
Definition SSH2_FXE_STATVFS_ST_NOSUID : Z := 2.

Definition SFTP_MAX_MSG_LENGTH : Z := 256 * 1024.

(** Defined in sftp-client.c itself. *)
Definition MIN_READ_SIZE : Z := 512.
Definition SFTP_EXT_POSIX_RENAME : Z := 1.
Definition SFTP_EXT_STATVFS : Z := 2.
Definition SFTP_EXT_FSTATVFS : Z := 4.

(** POSIX [S_ISREG]: the file-type bits of a mode say "regular file". *)
Definition S_IFMT : Z := 61440.   (* 0170000 *)
Definition S_IFREG : Z := 32768.  (* 0100000 *)
Definition S_ISREG (m : Z) : bool := Z.land m S_IFMT =? S_IFREG.

(** [ST_RDONLY] and [ST_NOSUID] of <sys/statvfs.h>. *)
Definition ST_RDONLY : Z := 1.
Definition ST_NOSUID : Z := 2.

(** [x & ~mask] on 32 bits. *)
Definition clear_bits (x mask : Z) : Z := Z.land x (Z.lxor (2 ^ 32 - 1) mask).

(** ** Attributes, buffers and messages *)

Record Attrib : Type := mkAttrib {
  a_flags : Z;
  a_size : Z;
  a_uid : Z;
  a_gid : Z;
  a_perm : Z;
  a_atime : Z;
  a_mtime : Z
}.

(** Modelled from the spec: [attrib_clear] of sftp-common.c is missing; the
    download sends "empty attributes", a record with no flag set. *)
Definition attrib_clear : Attrib := mkAttrib 0 0 0 0 0 0 0.

(** A [Buffer] is the sequence of values put into it.  [buffer_put_char],
    [buffer_put_int], [buffer_put_int64], [buffer_put_string] (and
    [buffer_put_cstring]) and [encode_attrib] each append one field; the
    getters take one field from the front.  A [char *] is the string before
    its terminating NUL. *)
Inductive field : Type :=
| Fchar (c : Z)
| Fint (n : Z)
| Fint64 (n : Z)
| Fstring (s : string)
| Fattrib (a : Attrib).

Definition Buffer : Type := list field.

Definition has_flag (flags bit : Z) : bool := negb (Z.land flags bit =? 0).

(** Modelled from the spec: the size in bytes of each field on the wire
    (section 4.2, and section 3 for the attribute record); buffer.c and
    sftp-common.c are missing. *)
Definition field_len (f : field) : Z :=
  match f with
  | Fchar _ => 1
  | Fint _ => 4
  | Fint64 _ => 8
  | Fstring s => 4 + Z.of_nat (String.length s)
  | Fattrib a =>
      4 + (if has_flag (a_flags a) SSH2_FILEXFER_ATTR_SIZE then 8 else 0)
        + (if has_flag (a_flags a) SSH2_FILEXFER_ATTR_UIDGID then 8 else 0)
        + (if has_flag (a_flags a) SSH2_FILEXFER_ATTR_PERMISSIONS then 4 else 0)
        + (if has_flag (a_flags a) SSH2_FILEXFER_ATTR_ACMODTIME then 8 else 0)
  end.

Definition buffer_len (m : Buffer) : Z :=
  fold_right (fun f n => field_len f + n) 0 m.

(** Opcode and request id of a message, for reading the outbound stream. *)
Definition msg_type (m : Buffer) : option Z :=
  match m with
  | Fchar c :: _ => Some c
  | _ => None
  end.

Definition msg_reqid (m : Buffer) : option Z :=
  match m with
  | Fchar _ :: Fint id :: _ => Some id
  | _ => None
  end.

(** ** The connection and the world around it *)

Record sftp_conn : Type := mkConn {
  fd_in : Z;
  fd_out : Z;
  transfer_buflen : Z;
  num_requests : Z;
  version : Z;
  msg_id : Z;
  exts : Z
}.

Definition set_msg_id (c : sftp_conn) (n : Z) : sftp_conn :=
  mkConn (fd_in c) (fd_out c) (transfer_buflen c) (num_requests c)
         (version c) n (exts c).

(** What [error()] and [printf()] emit; [debug] and [logit] lines are not
    recorded. *)
Inductive log_entry : Type :=
| Error (text : string) (arg : string)
| Stdout (line : string).

(** One result of [read(local_fd, ...)] during an upload. *)
Inductive read_result : Type :=
| RdRetry            (* -1 with EINTR or EAGAIN *)
| RdFail             (* -1 with another errno *)
| RdData (d : string).

(** The local file descriptor handed to the bulk transfers.  [lf_stat] is
    what [fstat] yields: [None] for -1, else the mode together with the
    attributes [stat_to_attrib] (sftp-common.c, missing) derives from the
    [struct stat].  [lf_reads] are the results of successive [read] calls
    (end of file once used up); [lf_wres] the [errno] of successive
    seek-and-write attempts (0 for success, success once used up);
    [lf_written] the blocks written; [lf_chmod_ok] whether [fchmod]
    succeeds and [lf_mode] the mode it installed; [lf_closed] whether the
    code closed the descriptor. *)
Record local_file : Type := mkLocal {
  lf_stat : option (Z * Attrib);
  lf_reads : list read_result;
  lf_wres : list Z;
  lf_written : list (Z * string);
  lf_chmod_ok : bool;
  lf_mode : option Z;
  lf_closed : bool
}.

(** [w_sigint] is the moment the signal handler sets [interrupted], counted
    in reads of the flag: the read number [k] (from 0) sees the flag set
    iff [w_sigint <= k].  Nothing in this file clears the flag. *)
Record world : Type := mkWorld {
  w_conn : sftp_conn;
  w_out : list Buffer;
  w_in : list Buffer;
  w_sigint : nat;
  w_polls : nat;
  w_log : list log_entry;
  w_local : local_file
}.

Definition set_conn (c : sftp_conn) (w : world) : world :=
  mkWorld c (w_out w) (w_in w) (w_sigint w) (w_polls w) (w_log w) (w_local w).
Definition set_out (o : list Buffer) (w : world) : world :=
  mkWorld (w_conn w) o (w_in w) (w_sigint w) (w_polls w) (w_log w) (w_local w).
Definition set_in (i : list Buffer) (w : world) : world :=
  mkWorld (w_conn w) (w_out w) i (w_sigint w) (w_polls w) (w_log w) (w_local w).
Definition set_polls (p : nat) (w : world) : world :=
  mkWorld (w_conn w) (w_out w) (w_in w) (w_sigint w) p (w_log w) (w_local w).
Definition set_log (l : list log_entry) (w : world) : world :=
  mkWorld (w_conn w) (w_out w) (w_in w) (w_sigint w) (w_polls w) l (w_local w).
Definition set_local (f : local_file) (w : world) : world :=
  mkWorld (w_conn w) (w_out w) (w_in w) (w_sigint w) (w_polls w) (w_log w) f.

(** ** The monad of the client *)

Inductive outcome (A : Type) : Type :=
| Done (a : A)
| Fatal            (* fatal(): the process is gone *)
| OutOfFuel.       (* a loop of the model was cut short; never happens,
                      see the [_total] lemmas *)
Arguments Fatal {A}.
Arguments OutOfFuel {A}.

Definition M (A : Type) : Type := world -> outcome A * world.

Definition ret {A} (a : A) : M A := fun w => (Done a, w).

Definition bind {A B} (m : M A) (k : A -> M B) : M B :=
  fun w =>
    match m w with
    | (Done a, w') => k a w'
    | (Fatal, w') => (Fatal, w')
    | (OutOfFuel, w') => (OutOfFuel, w')
    end.

Definition fatal {A} : M A := fun w => (Fatal, w).

Declare Scope sftp_scope.
Delimit Scope sftp_scope with sftp.
Notation "x <- c1 ;; c2" := (bind c1 (fun x => c2))
  (at level 100, c1 at next level, right associativity) : sftp_scope.
Notation "' pat <- c1 ;; c2" := (bind c1 (fun x => let 'pat := x in c2))
  (at level 100, pat pattern, c1 at next level, right associativity) : sftp_scope.
Notation "c1 ;; c2" := (bind c1 (fun _ => c2))
  (at level 100, right associativity) : sftp_scope.
Local Open Scope sftp_scope.

Definition error (text arg : string) : M unit :=
  fun w => (Done tt, set_log (w_log w ++ [Error text arg]) w).

Definition printf (line : string) : M unit :=
  fun w => (Done tt, set_log (w_log w ++ [Stdout line]) w).

(** Reading the volatile flag [interrupted]. *)
Definition interrupted : M bool :=
  fun w => (Done (w_sigint w <=? w_polls w)%nat, set_polls (S (w_polls w)) w).

Definition get_conn : M sftp_conn := fun w => (Done (w_conn w), w).

(** [conn->msg_id++] *)
Definition next_msg_id : M Z :=
  fun w => (Done (msg_id (w_conn w)),
            set_conn (set_msg_id (w_conn w) (u32 (msg_id (w_conn w) + 1))) w).

(** ** Framing *)

(** [send_msg]: the message goes out whole, provided it is not too long.
    The write itself is taken to succeed. *)
Definition send_msg (m : Buffer) : M unit :=
  fun w =>
    if buffer_len m >? SFTP_MAX_MSG_LENGTH then (Fatal, w)
    else (Done tt, set_out (w_out w ++ [m]) w).

(** [get_msg]: [None] is the return value -1 (the stream ended between two
    messages), [Some m] the next message. *)
Definition get_msg : M (option Buffer) :=
  fun w =>
    match w_in w with
    | [] => (Done None, w)
    | m :: rest =>
        if buffer_len m >? SFTP_MAX_MSG_LENGTH then (Fatal, set_in rest w)
        else (Done (Some m), set_in rest w)
    end.

(** Several callers ignore the return value of [get_msg].  After a failed
    [get_msg] the buffer holds the four bytes reserved for the length, so
    the [buffer_get_char] that follows succeeds and the [buffer_get_int]
    after it runs out of data, which is fatal in buffer.c. *)
Definition unchecked (r : option Buffer) : M Buffer :=
  match r with
  | Some m => ret m
  | None => fatal
  end.

(** The getters; reading past the end or a field of another kind is the
    fatal error of buffer.c. *)
Definition buffer_get_char (m : Buffer) : M (Z * Buffer) :=
  match m with
  | Fchar c :: rest => ret (c mod 256, rest)
  | _ => fatal
  end.

Definition buffer_get_int (m : Buffer) : M (Z * Buffer) :=
  match m with
  | Fint n :: rest => ret (u32 n, rest)
  | _ => fatal
  end.

Definition buffer_get_int64 (m : Buffer) : M (Z * Buffer) :=
  match m with
  | Fint64 n :: rest => ret (u64 n, rest)
  | _ => fatal
  end.

Definition buffer_get_string (m : Buffer) : M (string * Buffer) :=
  match m with
  | Fstring s :: rest => ret (s, rest)
  | _ => fatal
  end.

Definition decode_attrib (m : Buffer) : M (Attrib * Buffer) :=
  match m with
  | Fattrib a :: rest => ret (a, rest)
  | _ => fatal
  end.

Definition strlen (s : string) : Z := Z.of_nat (String.length s).

(** ** C strings and C integers *)

(** [buffer_get_string(&msg, NULL)] hands back the bytes of the wire
    string followed by a NUL.  The code that takes the result as a C
    string ([strcmp], [strchr], [xstrdup], ["%s"]) sees it up to its first
    NUL byte: [cstr s] is that prefix. *)
Fixpoint cstr (s : string) : string :=
  match s with
  | EmptyString => EmptyString
  | String c rest =>
      if Ascii.eqb c Ascii.zero then EmptyString else String c (cstr rest)
  end.

(** [strcmp(a, b) == 0] *)
Definition streq (a b : string) : bool := String.eqb (cstr a) (cstr b).

(** The value of a [u_int] (given within [0, 2^32)) once returned or
    stored as an [int]: from [2^31] on it comes out negative. *)
Definition to_int (n : Z) : Z := if n <? 2 ^ 31 then n else n - 2 ^ 32.

(** ** Requests and replies shared by the single-shot operations *)

Definition send_string_request (id code : Z) (s : string) : M unit :=
  send_msg [Fchar code; Fint id; Fstring s].

Definition send_string_attrs_request (id code : Z) (s : string) (a : Attrib)
  : M unit :=
  send_msg [Fchar code; Fint id; Fstring s; Fattrib a].

(** [get_status]: 255 stands for "no status could be read". *)
Definition get_status (expected_id : Z) : M Z :=
  r <- get_msg ;;
  match r with
  | None => ret 255
  | Some msg =>
      '(type, msg) <- buffer_get_char msg ;;
      '(id, msg) <- buffer_get_int msg ;;
      if negb (id =? expected_id) then ret 255
      else if negb (type =? SSH2_FXP_STATUS) then ret 255
      else
        '(status, _) <- buffer_get_int msg ;;
        ret status
  end.

(** [get_handle]: [None] is the NULL handle. *)
Definition get_handle (expected_id : Z) : M (option string) :=
  r <- get_msg ;;
  msg <- unchecked r ;;
  '(type, msg) <- buffer_get_char msg ;;
  '(id, msg) <- buffer_get_int msg ;;
  if negb (id =? expected_id) then fatal
  else if type =? SSH2_FXP_STATUS then
    '(status, _) <- buffer_get_int msg ;;
    error "Couldn't get handle: %s" "" ;;
    ret None
  else if negb (type =? SSH2_FXP_HANDLE) then fatal
  else
    '(handle, _) <- buffer_get_string msg ;;
    ret (Some handle).

Definition get_decode_stat (expected_id : Z) (quiet : bool)
  : M (option Attrib) :=
  r <- get_msg ;;
  msg <- unchecked r ;;
  '(type, msg) <- buffer_get_char msg ;;
  '(id, msg) <- buffer_get_int msg ;;
  if negb (id =? expected_id) then fatal
  else if type =? SSH2_FXP_STATUS then
    '(status, _) <- buffer_get_int msg ;;
    (if quiet then ret tt else error "Couldn't stat remote file: %s" "") ;;
    ret None
  else if negb (type =? SSH2_FXP_ATTRS) then fatal
  else
    '(a, _) <- decode_attrib msg ;;
    ret (Some a).

Record sftp_statvfs : Type := mkStatvfs {
  f_bsize : Z;
  f_frsize : Z;
  f_blocks : Z;
  f_bfree : Z;
  f_bavail : Z;
  f_files : Z;
  f_ffree : Z;
  f_favail : Z;
  f_fsid : Z;
  f_flag : Z;
  f_namemax : Z
}.

(** The result pairs the return value with what the call stored in [*st]
    ([None]: nothing was stored). *)
Definition get_decode_statvfs (expected_id : Z) (quiet : bool)
  : M (Z * option sftp_statvfs) :=
  r <- get_msg ;;
  msg <- unchecked r ;;
  '(type, msg) <- buffer_get_char msg ;;
  '(id, msg) <- buffer_get_int msg ;;
  if negb (id =? expected_id) then fatal
  else if type =? SSH2_FXP_STATUS then
    '(status, _) <- buffer_get_int msg ;;
    (if quiet then ret tt else error "Couldn't statvfs: %s" "") ;;
    ret (-1, None)
  else if negb (type =? SSH2_FXP_EXTENDED_REPLY) then fatal
  else
    '(bsize, msg) <- buffer_get_int64 msg ;;
    '(frsize, msg) <- buffer_get_int64 msg ;;
    '(blocks, msg) <- buffer_get_int64 msg ;;
    '(bfree, msg) <- buffer_get_int64 msg ;;
    '(bavail, msg) <- buffer_get_int64 msg ;;
    '(files, msg) <- buffer_get_int64 msg ;;
    '(ffree, msg) <- buffer_get_int64 msg ;;
    '(favail, msg) <- buffer_get_int64 msg ;;
    '(fsid, msg) <- buffer_get_int64 msg ;;
    '(flag64, msg) <- buffer_get_int64 msg ;;
    '(namemax, _) <- buffer_get_int64 msg ;;
    let flag := u32 flag64 in
    let fl :=
      Z.lor (if has_flag flag SSH2_FXE_STATVFS_ST_RDONLY then ST_RDONLY else 0)
            (if has_flag flag SSH2_FXE_STATVFS_ST_NOSUID then ST_NOSUID else 0)
    in
    ret (0, Some (mkStatvfs bsize frsize blocks bfree bavail files ffree
                            favail fsid fl namemax)).

(** ** Handshake *)

(** The extension loop of [do_init], lines 327-353: name and value are
    taken off the buffer two by two until it is empty and compared as C
    strings.  The third test is an [if], not an [else if], as in the
    source.  [None]: a [buffer_get_string] failed, which is fatal. *)
Fixpoint init_extensions (msg : Buffer) (exts : Z) : option Z :=
  match msg with
  | [] => Some exts
  | Fstring name :: Fstring value :: rest =>
      let exts :=
        if streq name "posix-rename@openssh.com" && streq value "1"
        then Z.lor exts SFTP_EXT_POSIX_RENAME
        else if streq name "statvfs@openssh.com" && streq value "2"
        then Z.lor exts SFTP_EXT_STATVFS
        else exts in
      let exts :=
        if streq name "fstatvfs@openssh.com" && streq value "2"
        then Z.lor exts SFTP_EXT_FSTATVFS
        else exts in
      init_extensions rest exts
  | _ => None
  end.

(** [do_init] returns the new connection ([None] for NULL); the connection
    is also installed as the one the later calls work on. *)
Definition do_init (fd_in fd_out transfer_buflen num_requests : Z)
  : M (option sftp_conn) :=
  send_msg [Fchar SSH2_FXP_INIT; Fint SSH2_FILEXFER_VERSION] ;;
  r <- get_msg ;;
  match r with
  | None => ret None
  | Some msg =>
      '(type, msg) <- buffer_get_char msg ;;
      if negb (type =? SSH2_FXP_VERSION) then
        error "Invalid packet back from SSH2_FXP_INIT (type %u)" "" ;;
        ret None
      else
        '(version, msg) <- buffer_get_int msg ;;
        match init_extensions msg 0 with
        | None => fatal
        | Some exts =>
            let c :=
              mkConn fd_in fd_out
                     (if version =? 0 then Z.min transfer_buflen 20480
                      else transfer_buflen)
                     num_requests version 1 exts in
            (fun w => (Done (Some c), set_conn c w))
        end
  end.

Definition sftp_proto_version : M Z :=
  c <- get_conn ;; ret (version c).

(** ** Single-shot operations *)

(** The operations that hand back a status take it from [get_status] as a
    [u_int] and return it as an [int].  The paths the callers pass are C
    strings: they hold no NUL byte, and go out whole. *)

Definition do_close (handle : string) : M Z :=
  id <- next_msg_id ;;
  send_msg [Fchar SSH2_FXP_CLOSE; Fint id; Fstring handle] ;;
  status <- get_status id ;;
  (if negb (status =? SSH2_FX_OK) then error "Couldn't close file: %s" ""
   else ret tt) ;;
  ret (to_int status).

Definition do_rm (path : string) : M Z :=
  id <- next_msg_id ;;
  send_string_request id SSH2_FXP_REMOVE path ;;
  status <- get_status id ;;
  (if negb (status =? SSH2_FX_OK) then error "Couldn't delete file: %s" ""
   else ret tt) ;;
  ret (to_int status).

Definition do_mkdir (path : string) (a : Attrib) : M Z :=
  id <- next_msg_id ;;
  send_string_attrs_request id SSH2_FXP_MKDIR path a ;;
  status <- get_status id ;;
  (if negb (status =? SSH2_FX_OK)
   then error "Couldn't create directory: %s" "" else ret tt) ;;
  ret (to_int status).

Definition do_rmdir (path : string) : M Z :=
  id <- next_msg_id ;;
  send_string_request id SSH2_FXP_RMDIR path ;;
  status <- get_status id ;;
  (if negb (status =? SSH2_FX_OK)
   then error "Couldn't remove directory: %s" "" else ret tt) ;;
  ret (to_int status).

Definition do_stat (path : string) (quiet : bool) : M (option Attrib) :=
  id <- next_msg_id ;;
  c <- get_conn ;;
  send_string_request id
    (if version c =? 0 then SSH2_FXP_STAT_VERSION_0 else SSH2_FXP_STAT)
    path ;;
  get_decode_stat id quiet.

Definition do_lstat (path : string) (quiet : bool) : M (option Attrib) :=
  c <- get_conn ;;
  if version c =? 0 then do_stat path quiet
  else
    id <- next_msg_id ;;
    send_string_request id SSH2_FXP_LSTAT path ;;
    get_decode_stat id quiet.

Definition do_setstat (path : string) (a : Attrib) : M Z :=
  id <- next_msg_id ;;
  send_string_attrs_request id SSH2_FXP_SETSTAT path a ;;
  status <- get_status id ;;
  (if negb (status =? SSH2_FX_OK)
   then error "Couldn't setstat on \%s\: %s" path else ret tt) ;;
  ret (to_int status).

Definition do_fsetstat (handle : string) (a : Attrib) : M Z :=
  id <- next_msg_id ;;
  send_string_attrs_request id SSH2_FXP_FSETSTAT handle a ;;
  status <- get_status id ;;
  (if negb (status =? SSH2_FX_OK) then error "Couldn't fsetstat: %s" ""
   else ret tt) ;;
  ret (to_int status).

(** [do_realpath]: [None] is NULL.  The paths that return NULL on a reply
    under another id, of another type or with another count write a
    [logit] line, which the log of the model does not record; the name
    handed back is a C string. *)
Definition do_realpath (path : string) : M (option string) :=
  id <- next_msg_id ;;
  let expected_id := id in
  send_string_request id SSH2_FXP_REALPATH path ;;
  r <- get_msg ;;
  match r with
  | None => ret None
  | Some msg =>
      '(type, msg) <- buffer_get_char msg ;;
      '(id, msg) <- buffer_get_int msg ;;
      if negb (id =? expected_id) then ret None
      else if type =? SSH2_FXP_STATUS then
        '(status, _) <- buffer_get_int msg ;;
        error "Couldn't canonicalise: %s" "" ;;
        ret None
      else if negb (type =? SSH2_FXP_NAME) then ret None
      else
        '(count, msg) <- buffer_get_int msg ;;
        if negb (count =? 1) then ret None
        else
          '(filename, msg) <- buffer_get_string msg ;;
          '(longname, msg) <- buffer_get_string msg ;;
          '(_, _) <- decode_attrib msg ;;
          ret (Some (cstr filename))
  end.

Definition do_rename (oldpath newpath : string) : M Z :=
  id <- next_msg_id ;;
  c <- get_conn ;;
  send_msg
    (if has_flag (exts c) SFTP_EXT_POSIX_RENAME
     then [Fchar SSH2_FXP_EXTENDED; Fint id;
           Fstring "posix-rename@openssh.com";
           Fstring oldpath; Fstring newpath]
     else [Fchar SSH2_FXP_RENAME; Fint id;
           Fstring oldpath; Fstring newpath]) ;;
  status <- get_status id ;;
  (if negb (status =? SSH2_FX_OK)
   then error "Couldn't rename file \%s\ to \%s\: %s" oldpath
   else ret tt) ;;
  ret (to_int status).

Definition do_symlink (oldpath newpath : string) : M Z :=
  c <- get_conn ;;
  if version c <? 3 then
    error "This server does not support the symlink operation" "" ;;
    ret SSH2_FX_OP_UNSUPPORTED
  else
    id <- next_msg_id ;;
    send_msg [Fchar SSH2_FXP_SYMLINK; Fint id;
              Fstring oldpath; Fstring newpath] ;;
    status <- get_status id ;;
    (if negb (status =? SSH2_FX_OK)
     then error "Couldn't symlink file \%s\ to \%s\: %s" oldpath
     else ret tt) ;;
    ret (to_int status).

Definition do_statvfs (path : string) (quiet : bool)
  : M (Z * option sftp_statvfs) :=
  c <- get_conn ;;
  if Z.land (exts c) SFTP_EXT_STATVFS =? 0 then
    error "Server does not support statvfs@openssh.com extension" "" ;;
    ret (-1, None)
  else
    id <- next_msg_id ;;
    send_msg [Fchar SSH2_FXP_EXTENDED; Fint id;
              Fstring "statvfs@openssh.com"; Fstring path] ;;
    get_decode_statvfs id quiet.

Definition sftp_has_posix_rename : M bool :=
  c <- get_conn ;;
  ret (Z.land (exts c) SFTP_EXT_POSIX_RENAME =? SFTP_EXT_POSIX_RENAME).

(** ** Loops *)

(** The loops that wait for the server are written with a body that either
    goes round again or leaves.  Every round that goes on has consumed a
    message (or a local read), so the fuel the callers supply, the number
    of messages and reads still to come, is never used up. *)
Inductive step (S R : Type) : Type :=
| Continue (s : S)
| Break (r : R).
Arguments Continue {S R}.
Arguments Break {S R}.

Definition out_of_fuel {A} : M A := fun w => (OutOfFuel, w).

Fixpoint loop {S R} (fuel : nat) (body : S -> M (step S R)) (s : S) : M R :=
  x <- body s ;;
  match x with
  | Break r => ret r
  | Continue s' =>
      match fuel with
      | O => out_of_fuel
      | Datatypes.S f => loop f body s'
      end
  end.

Definition inbound_left : M nat := fun w => (Done (List.length (w_in w)), w).

(** ** Directory listing *)

Record SFTP_DIRENT : Type := mkDirent {
  filename : string;
  longname : string;
  a : Attrib
}.

(** [strchr(s, c) != NULL], [s] being the bytes of a wire string, which a
    NUL follows: the scan ends at the first NUL, which is itself found
    when [c] is NUL. *)
Fixpoint strchr (s : string) (c : ascii) : bool :=
  match s with
  | EmptyString => Ascii.eqb c Ascii.zero
  | String x rest =>
      if Ascii.eqb x c then true
      else if Ascii.eqb x Ascii.zero then false
      else strchr rest c
  end.

(** The [for (i = 0; i < count; i++)] loop of [do_lsreaddir], lines
    477-510.  [dir] is the array [*dir] ([None] when the caller passed
    NULL).  The names are tested, printed and copied as C strings. *)
Fixpoint readdir_names (path : string) (printflag : bool) (i count : Z)
    (msg : Buffer) (dir : option (list SFTP_DIRENT)) {struct msg}
  : M (option (list SFTP_DIRENT)) :=
  if i <? count then
    match msg with
    | Fstring filename :: Fstring longname :: Fattrib a :: rest =>
        (if printflag then printf (cstr longname) else ret tt) ;;
        if strchr filename "/" then
          error "Server sent suspect path \%s\ during readdir of \%s\"
                (cstr filename) ;;
          readdir_names path printflag (i + 1) count rest dir
        else
          readdir_names path printflag (i + 1) count rest
            (match dir with
             | Some ents =>
                 Some (ents
                       ++ [mkDirent (cstr filename) (cstr longname) a])
             | None => None
             end)
    | _ => fatal
    end
  else ret dir.

(** How the READDIR loop is left: by [break] (or its condition), or by the
    [return(status)] on a status other than EOF. *)
Inductive ls_exit : Type :=
| LsBreak (dir : option (list SFTP_DIRENT))
| LsReturn (status : Z) (dir : option (list SFTP_DIRENT)).

(** One round of [for (; !interrupted;)], lines 432-511. *)
Definition readdir_body (path : string) (printflag : bool) (handle : string)
    (dir : option (list SFTP_DIRENT))
  : M (step (option (list SFTP_DIRENT)) ls_exit) :=
  intr <- interrupted ;;
  if intr then ret (Break (LsBreak dir))
  else
    id <- next_msg_id ;;
    let expected_id := id in
    send_msg [Fchar SSH2_FXP_READDIR; Fint id; Fstring handle] ;;
    r <- get_msg ;;
    msg <- unchecked r ;;
    '(type, msg) <- buffer_get_char msg ;;
    '(id, msg) <- buffer_get_int msg ;;
    if negb (id =? expected_id) then fatal
    else if type =? SSH2_FXP_STATUS then
      '(status, _) <- buffer_get_int msg ;;
      if status =? SSH2_FX_EOF then ret (Break (LsBreak dir))
      else
        error "Couldn't read directory: %s" "" ;;
        do_close handle ;;
        ret (Break (LsReturn (to_int status) dir))
    else if negb (type =? SSH2_FXP_NAME) then fatal
    else
      '(count, msg) <- buffer_get_int msg ;;
      if count =? 0 then ret (Break (LsBreak dir))
      else
        dir' <- readdir_names path printflag 0 count msg dir ;;
        ret (Continue dir').

(** [want_dir] says whether [dir] is non-NULL.  The result pairs the return
    value with [*dir] as the call leaves it ([None]: not assigned). *)
Definition do_lsreaddir (path : string) (printflag want_dir : bool)
  : M (Z * option (list SFTP_DIRENT)) :=
  id <- next_msg_id ;;
  send_msg [Fchar SSH2_FXP_OPENDIR; Fint id; Fstring path] ;;
  h <- get_handle id ;;
  match h with
  | None => ret (-1, None)
  | Some handle =>
      let dir := if want_dir then Some [] else None in
      fuel <- inbound_left ;;
      x <- loop fuel (readdir_body path printflag handle) dir ;;
      match x with
      | LsReturn status dir => ret (status, dir)
      | LsBreak dir =>
          do_close handle ;;
          intr <- interrupted ;;
          ret (0, match dir with
                  | Some ents => if intr then Some [] else Some ents
                  | None => None
                  end)
      end
  end.

Definition do_readdir (path : string) (want_dir : bool)
  : M (Z * option (list SFTP_DIRENT)) :=
  do_lsreaddir path false want_dir.

(** ** Download *)

Definition send_read_request (id offset len : Z) (handle : string) : M unit :=
  send_msg [Fchar SSH2_FXP_READ; Fint id; Fstring handle;
            Fint64 offset; Fint len].

Record request : Type := mkReq {
  rq_id : Z;
  rq_len : Z;
  rq_offset : Z
}.

(** The locals of [do_download] that change in its loop; [d_requests] is
    the TAILQ, head first. *)
Record download : Type := mkDl {
  d_status : Z;
  d_write_error : bool;
  d_read_error : bool;
  d_write_errno : Z;
  d_offset : Z;
  d_buflen : Z;
  d_num_req : Z;
  d_max_req : Z;
  d_requests : list request
}.

Definition dl_set_max_req (n : Z) (s : download) : download :=
  mkDl (d_status s) (d_write_error s) (d_read_error s) (d_write_errno s)
       (d_offset s) (d_buflen s) (d_num_req s) n (d_requests s).

(** The scan "Find the request in our queue". *)
Definition find_request (id : Z) (q : list request) : option request :=
  find (fun r => rq_id r =? id) q.

(** [TAILQ_REMOVE] of the request the scan found. *)
Fixpoint remove_request (id : Z) (q : list request) : list request :=
  match q with
  | [] => []
  | r :: rest => if rq_id r =? id then rest else r :: remove_request id rest
  end.

(** Assignment to the fields of the request the scan found. *)
Fixpoint update_request (id : Z) (r' : request) (q : list request)
  : list request :=
  match q with
  | [] => []
  | r :: rest =>
      if rq_id r =? id then r' :: rest else r :: update_request id r' rest
  end.

(** [lseek] to [offset] followed by the write of [data]; the result is the
    [errno] of a failure, 0 when both succeeded. *)
Definition local_write (offset : Z) (data : string) : M Z :=
  fun w =>
    let f := w_local w in
    match lf_wres f with
    | e :: rest =>
        if e =? 0 then
          (Done 0, set_local (mkLocal (lf_stat f) (lf_reads f) rest
                     (lf_written f ++ [(offset, data)])
                     (lf_chmod_ok f) (lf_mode f) (lf_closed f)) w)
        else
          (Done e, set_local (mkLocal (lf_stat f) (lf_reads f) rest
                     (lf_written f) (lf_chmod_ok f) (lf_mode f)
                     (lf_closed f)) w)
    | [] =>
        (Done 0, set_local (mkLocal (lf_stat f) (lf_reads f) []
                   (lf_written f ++ [(offset, data)])
                   (lf_chmod_ok f) (lf_mode f) (lf_closed f)) w)
    end.

(** [fchmod(local_fd, mode)]; [true] when it succeeds. *)
Definition fchmod (mode : Z) : M bool :=
  fun w =>
    let f := w_local w in
    if lf_chmod_ok f then
      (Done true, set_local (mkLocal (lf_stat f) (lf_reads f) (lf_wres f)
                    (lf_written f) true (Some mode) (lf_closed f)) w)
    else (Done false, w).

(** "Send some more requests", lines 1012-1026. *)
Fixpoint send_requests (fuel : nat) (handle : string) (s : download)
  : M download :=
  if d_num_req s <? d_max_req s then
    match fuel with
    | O => out_of_fuel
    | S f =>
        id <- next_msg_id ;;
        let req := mkReq id (d_buflen s) (d_offset s) in
        let s' :=
          mkDl (d_status s) (d_write_error s) (d_read_error s)
               (d_write_errno s) (u64 (d_offset s + d_buflen s))
               (d_buflen s) (u32 (d_num_req s + 1)) (d_max_req s)
               (d_requests s ++ [req]) in
        send_read_request (rq_id req) (rq_offset req) (rq_len req) handle ;;
        send_requests f handle s'
    end
  else ret s.

(** [case SSH2_FXP_STATUS], lines 1043-1051. *)
Definition download_status (req : request) (msg : Buffer) (s : download)
  : M download :=
  '(status, _) <- buffer_get_int msg ;;
  ret (mkDl status (d_write_error s)
            (if negb (status =? SSH2_FX_EOF) then true else d_read_error s)
            (d_write_errno s) (d_offset s) (d_buflen s)
            (u32 (d_num_req s - 1)) 0
            (remove_request (rq_id req) (d_requests s))).

(** The end of [case SSH2_FXP_DATA], lines 1089-1100: the window. *)
Definition download_window (num_requests size : Z) (s : download)
  : download :=
  if d_max_req s >? 0 then
    if (size >? 0) && (d_offset s >? size) then dl_set_max_req 1 s
    else if d_max_req s <=? num_requests
         then dl_set_max_req (u32 (d_max_req s + 1)) s
         else s
  else s.

(** [case SSH2_FXP_DATA], lines 1052-1101. *)
Definition download_data (size : Z) (handle : string) (req : request)
    (msg : Buffer) (s : download) : M download :=
  '(data, _) <- buffer_get_string msg ;;
  let len := strlen data in
  if len >? rq_len req then fatal
  else
    e <- local_write (rq_offset req) data ;;
    let s :=
      if negb (e =? 0) && negb (d_write_error s)
      then mkDl (d_status s) true (d_read_error s) e (d_offset s)
                (d_buflen s) (d_num_req s) 0 (d_requests s)
      else s in
    s <- (if len =? rq_len req then
            ret (mkDl (d_status s) (d_write_error s) (d_read_error s)
                      (d_write_errno s) (d_offset s) (d_buflen s)
                      (u32 (d_num_req s - 1)) (d_max_req s)
                      (remove_request (rq_id req) (d_requests s)))
          else
            id <- next_msg_id ;;
            let req' :=
              mkReq id (u32 (rq_len req - len)) (u64 (rq_offset req + len)) in
            send_read_request (rq_id req') (rq_offset req') (rq_len req')
                              handle ;;
            ret (mkDl (d_status s) (d_write_error s) (d_read_error s)
                      (d_write_errno s) (d_offset s)
                      (if len <? d_buflen s then Z.max MIN_READ_SIZE len
                       else d_buflen s)
                      (d_num_req s) (d_max_req s)
                      (update_request (rq_id req) req' (d_requests s)))) ;;
    c <- get_conn ;;
    ret (download_window (num_requests c) size s).

(** One round of [while (num_req > 0 || max_req > 0)], lines 997-1106. *)
Definition download_body (size : Z) (handle : string) (s : download)
  : M (step download download) :=
  if (d_num_req s >? 0) || (d_max_req s >? 0) then
    intr <- interrupted ;;
    if intr && (d_num_req s =? 0) then ret (Break s)
    else
      let s := if intr then dl_set_max_req 0 s else s in
      s <- send_requests (Z.to_nat (d_max_req s - d_num_req s)) handle s ;;
      r <- get_msg ;;
      msg <- unchecked r ;;
      '(type, msg) <- buffer_get_char msg ;;
      '(id, msg) <- buffer_get_int msg ;;
      match find_request id (d_requests s) with
      | None => fatal
      | Some req =>
          if type =? SSH2_FXP_STATUS then
            s <- download_status req msg s ;;
            ret (Continue s)
          else if type =? SSH2_FXP_DATA then
            s <- download_data size handle req msg s ;;
            ret (Continue s)
          else fatal
      end
  else ret (Break s).

(** The local mode, lines 943-947: 0777 is 511 and 0666 is 438. *)
Definition download_mode (a : Attrib) : Z :=
  if has_flag (a_flags a) SSH2_FILEXFER_ATTR_PERMISSIONS
  then Z.land (a_perm a) 511
  else 438.

Definition do_download (remote_path : string) (pflag : bool) : M Z :=
  a <- do_stat remote_path false ;;
  match a with
  | None => ret (-1)
  | Some a =>
      let mode := download_mode a in
      if has_flag (a_flags a) SSH2_FILEXFER_ATTR_PERMISSIONS
         && negb (S_ISREG (a_perm a))
      then
        error "Cannot download non-regular file: %s" remote_path ;;
        ret (-1)
      else
        let size :=
          if has_flag (a_flags a) SSH2_FILEXFER_ATTR_SIZE then a_size a
          else 0 in
        c <- get_conn ;;
        let buflen := transfer_buflen c in
        id <- next_msg_id ;;
        send_msg [Fchar SSH2_FXP_OPEN; Fint id; Fstring remote_path;
                  Fint SSH2_FXF_READ; Fattrib attrib_clear] ;;
        h <- get_handle id ;;
        match h with
        | None => ret (-1)
        | Some handle =>
            fuel <- inbound_left ;;
            s <- loop fuel (download_body size handle)
                      (mkDl 0 false false 0 0 buflen 0 1 []) ;;
            match d_requests s with
            | _ :: _ => fatal
            | [] =>
                if d_read_error s then
                  error "Couldn't read from remote file \%s\ : %s"
                        remote_path ;;
                  do_close handle ;;
                  ret (to_int (d_status s))
                else if d_write_error s then
                  error "Couldn't write to local file: %s" "" ;;
                  do_close handle ;;
                  ret (-1)
                else
                  status <- do_close handle ;;
                  (if pflag then
                     ok <- fchmod mode ;;
                     if ok then ret tt
                     else error "Couldn't set mode on local file: %s" ""
                   else ret tt) ;;
                  ret status
            end
        end
  end.

(** ** Upload *)

Record outstanding_ack : Type := mkAck {
  ack_id : Z;
  ack_len : Z;
  ack_offset : Z
}.

(** The locals of [do_upload] that change in its loop.  [u_ack_null] says
    whether the pointer [ack] is still NULL; [u_acks] is the TAILQ. *)
Record upload : Type := mkUl {
  u_status : Z;
  u_id : Z;
  u_ackid : Z;
  u_offset : Z;
  u_ack_null : bool;
  u_acks : list outstanding_ack
}.

Definition fstat : M (option (Z * Attrib)) :=
  fun w => (Done (lf_stat (w_local w)), w).

(** [close(local_fd)] *)
Definition close_local : M unit :=
  fun w =>
    let f := w_local w in
    (Done tt, set_local (mkLocal (lf_stat f) (lf_reads f) (lf_wres f)
                (lf_written f) (lf_chmod_ok f) (lf_mode f) true) w).

(** [do len = read(...); while (len == -1 && (errno == EINTR || errno ==
    EAGAIN))]: [None] is a final -1, [Some d] the block read (empty at end
    of file).  One read returns at most [transfer_buflen] bytes; the blocks
    of [lf_reads] are taken to respect that. *)
Fixpoint read_retry (reads : list read_result)
  : option string * list read_result :=
  match reads with
  | [] => (Some "", [])
  | RdRetry :: rest => read_retry rest
  | RdFail :: rest => (None, rest)
  | RdData d :: rest => (Some d, rest)
  end.

Definition local_read : M (option string) :=
  fun w =>
    let f := w_local w in
    let '(r, rest) := read_retry (lf_reads f) in
    (Done r, set_local (mkLocal (lf_stat f) rest (lf_wres f) (lf_written f)
                          (lf_chmod_ok f) (lf_mode f) (lf_closed f)) w).

Definition find_ack (id : Z) (q : list outstanding_ack)
  : option outstanding_ack :=
  find (fun k => ack_id k =? id) q.

Fixpoint remove_ack (id : Z) (q : list outstanding_ack)
  : list outstanding_ack :=
  match q with
  | [] => []
  | k :: rest => if ack_id k =? id then rest else k :: remove_ack id rest
  end.

(** The attribute normalisation of lines 1194-1198. *)
Definition upload_attribs (a : Attrib) (pflag : bool) : Attrib :=
  let flags := clear_bits (a_flags a) SSH2_FILEXFER_ATTR_SIZE in
  let flags := clear_bits flags SSH2_FILEXFER_ATTR_UIDGID in
  let perm := Z.land (a_perm a) 511 in
  let flags :=
    if negb pflag then clear_bits flags SSH2_FILEXFER_ATTR_ACMODTIME
    else flags in
  mkAttrib flags (a_size a) (a_uid a) (a_gid a) perm (a_atime a) (a_mtime a).

(** Lines 1267-1295: wait for one acknowledgement. *)
Definition upload_ack (s : upload) : M upload :=
  r <- get_msg ;;
  msg <- unchecked r ;;
  '(type, msg) <- buffer_get_char msg ;;
  '(r_id, msg) <- buffer_get_int msg ;;
  if negb (type =? SSH2_FXP_STATUS) then fatal
  else
    '(status, _) <- buffer_get_int msg ;;
    match find_ack r_id (u_acks s) with
    | None => fatal
    | Some k =>
        ret (mkUl status (u_id s) (u32 (u_ackid s + 1)) (u_offset s)
                  false (remove_ack (ack_id k) (u_acks s)))
    end.

(** One round of the [for (;;)] of [do_upload], lines 1226-1299. *)
Definition upload_body (handle : string) (startid : Z) (s : upload)
  : M (step upload upload) :=
  intr <- interrupted ;;
  rd <- (if intr || negb (u_status s =? SSH2_FX_OK) then ret (Some "")
         else local_read) ;;
  match rd with
  | None => fatal
  | Some data =>
      let len := strlen data in
      x <- (if negb (len =? 0) then
              let id := u32 (u_id s + 1) in
              let k := mkAck id len (u_offset s) in
              send_msg [Fchar SSH2_FXP_WRITE; Fint (ack_id k);
                        Fstring handle; Fint64 (u_offset s);
                        Fstring data] ;;
              ret (Continue
                     (mkUl (u_status s) id (u_ackid s) (u_offset s) false
                           (u_acks s ++ [k])))
            else
              match u_acks s with
              | [] => ret (Break s)
              | _ :: _ => ret (Continue s)
              end) ;;
      match x with
      | Break s => ret (Break s)
      | Continue s =>
          if u_ack_null s then fatal
          else
            c <- get_conn ;;
            s <- (if (u_id s =? startid) || (len =? 0)
                     || (u32 (u_id s - u_ackid s) >=? num_requests c)
                  then upload_ack s else ret s) ;;
            let offset := u_offset s + len in
            if offset >=? 2 ^ 63 then fatal
            else
              ret (Continue (mkUl (u_status s) (u_id s) (u_ackid s) offset
                                  (u_ack_null s) (u_acks s)))
      end
  end.

Definition upload_fuel : M nat :=
  fun w =>
    (Done (List.length (lf_reads (w_local w)) + List.length (w_in w))%nat, w).

(** [remote_attribs] is the record the caller passed ([None] for NULL).
    The result pairs the return value with that record as the call leaves
    it. *)
Definition do_upload (local_path remote_path : string)
    (remote_attribs : option Attrib) (pflag : bool)
  : M (Z * option Attrib) :=
  sb <- fstat ;;
  match sb with
  | None =>
      error "Couldn't fstat local file \%s\: %s" local_path ;;
      close_local ;;
      ret (-1, remote_attribs)
  | Some (st_mode, from_stat) =>
      if negb (S_ISREG st_mode) then
        error "%s is not a regular file" local_path ;;
        close_local ;;
        ret (-1, remote_attribs)
      else
        let attribs :=
          upload_attribs (match remote_attribs with
                          | Some a => a
                          | None => from_stat
                          end) pflag in
        let caller :=
          match remote_attribs with
          | Some _ => Some attribs
          | None => None
          end in
        id <- next_msg_id ;;
        send_msg [Fchar SSH2_FXP_OPEN; Fint id; Fstring remote_path;
                  Fint (Z.lor (Z.lor SSH2_FXF_WRITE SSH2_FXF_CREAT)
                              SSH2_FXF_TRUNC);
                  Fattrib attribs] ;;
        h <- get_handle id ;;
        match h with
        | None => ret (-1, caller)
        | Some handle =>
            let startid := u32 (id + 1) in
            fuel <- upload_fuel ;;
            s <- loop fuel (upload_body handle startid)
                      (mkUl SSH2_FX_OK id startid 0 true []) ;;
            status <- (if negb (u_status s =? SSH2_FX_OK) then
                         error "Couldn't write to remote file \%s\: %s"
                               remote_path ;;
                         ret (-1)
                       else ret (u_status s)) ;;
            (if pflag then do_fsetstat handle attribs ;; ret tt
             else ret tt) ;;
            st <- do_close handle ;;
            ret (if negb (st =? SSH2_FX_OK) then -1 else status, caller)
        end
  end.

(** * Specification vocabulary *)

(** [wp m Q F w]: running [m] from [w] ends in a state satisfying [Q] when
    it completes and [F] when it is cut short. *)
Definition wp {A} (m : M A) (Q : A -> world -> Prop) (F : world -> Prop)
    (w : world) : Prop :=
  match m w with
  | (Done a, w') => Q a w'
  | (_, w') => F w'
  end.

(** A relation [R b w w'] between the states before and after a command,
    [b] telling whether the command completed. *)
Definition obeys (R : bool -> world -> world -> Prop) {A} (m : M A) : Prop :=
  forall w, wp m (fun _ w' => R true w w') (fun w' => R false w w') w.

(** A reflexive and transitive relation between the states before and
    after, whatever the outcome. *)
Definition frame (P : world -> world -> Prop) (b : bool) (w w' : world)
  : Prop := P w w'.

(** ** Server messages and sample states used in the statements *)

(** The extension pairs of a VERSION reply, as the server puts them. *)
Fixpoint put_pairs (pairs : list (string * string)) : Buffer :=
  match pairs with
  | [] => []
  | (name, value) :: rest => Fstring name :: Fstring value :: put_pairs rest
  end.

Definition version_reply (version : Z) (pairs : list (string * string))
  : Buffer :=
  Fchar SSH2_FXP_VERSION :: Fint version :: put_pairs pairs.

(** Whether the server advertised a pair that reads, as C strings, as
    [name] with the value [value]. *)
Definition advertised (name value : string) (pairs : list (string * string))
  : bool :=
  existsb (fun p => streq (fst p) name && streq (snd p) value) pairs.

(** The pair reads, as C strings, as [name] with the value [value]. *)
Definition reads_as (name value : string) (p : string * string) : Prop :=
  cstr (fst p) = name /\ cstr (snd p) = value.

(** The string holds no NUL byte. *)
Definition nul_free (s : string) : Prop := cstr s = s.

(** A local file nothing is known about, and a state in which nothing has
    been sent yet and no signal arrives. *)
Definition no_local : local_file := mkLocal None [] [] [] true None false.

Definition quiet_world (c : sftp_conn) (inb : list Buffer) (f : local_file)
  : world :=
  mkWorld c [] inb 1000 0 [] f.

Definition no_conn : sftp_conn := mkConn 0 0 0 0 0 0 0.

(** Frames used in the statements. *)
Definition same_out (w w' : world) : Prop := w_out w' = w_out w.

Definition more_out (w w' : world) : Prop :=
  exists new, w_out w' = w_out w ++ new.

Definition same_mode (w w' : world) : Prop :=
  lf_mode (w_local w') = lf_mode (w_local w).

Definition same_signal (w w' : world) : Prop :=
  w_sigint w' = w_sigint w /\ w_polls w' = w_polls w.

(** The log has only been added to, and [fchmod] succeeds as before; and:
    the log has been added to. *)
Definition log_grows (w w' : world) : Prop :=
  (exists new, w_log w' = w_log w ++ new) /\
  lf_chmod_ok (w_local w') = lf_chmod_ok (w_local w).

Definition error_logged (w w' : world) : Prop :=
  exists e new, w_log w' = w_log w ++ e :: new.

(** A regular local file holding [blocks], and the replies of a server
    that opens a handle and then acknowledges with OK the ids listed. *)
Definition regular_file (blocks : list string) : local_file :=
  mkLocal (Some (33188, mkAttrib 15 0 0 0 33188 0 0))
          (map RdData blocks) [] [] true None false.

Definition handle_reply (id : Z) (handle : string) : Buffer :=
  [Fchar SSH2_FXP_HANDLE; Fint id; Fstring handle].

Definition status_reply (id status : Z) : Buffer :=
  [Fchar SSH2_FXP_STATUS; Fint id; Fint status].

(** The entries of a NAME reply as the server puts them, the test the
    client applies to a file name, the entry it stores, and what the loop
    over the entries writes to the log. *)
Fixpoint put_names (entries : list SFTP_DIRENT) : Buffer :=
  match entries with
  | [] => []
  | e :: rest =>
      Fstring (filename e) :: Fstring (longname e) :: Fattrib (a e)
      :: put_names rest
  end.

Definition clean (e : SFTP_DIRENT) : bool := negb (strchr (filename e) "/").

Definition stored (e : SFTP_DIRENT) : SFTP_DIRENT :=
  mkDirent (cstr (filename e)) (cstr (longname e)) (a e).

(** The file name has no slash at all. *)
Definition slash_free (e : SFTP_DIRENT) : Prop :=
  ~ In "/"%char (list_ascii_of_string (filename e)).

Definition names_log (printflag : bool) (entries : list SFTP_DIRENT)
  : list log_entry :=
  flat_map
    (fun e =>
       (if printflag then [Stdout (cstr (longname e))] else [])
       ++ (if strchr (filename e) "/"
           then [Error "Server sent suspect path \%s\ during readdir of \%s\"
                       (cstr (filename e))]
           else []))
    entries.

Definition dir_clean (dir : option (list SFTP_DIRENT)) : Prop :=
  match dir with
  | Some ents => Forall slash_free ents
  | None => True
  end.

Definition name_reply (id : Z) (entries : list SFTP_DIRENT) : Buffer :=
  Fchar SSH2_FXP_NAME :: Fint id :: Fint (Z.of_nat (List.length entries))
  :: put_names entries.

(** The states of the download loop: one round leads from the state at the
    head of the loop to the state at its next head. *)
Inductive download_reach (size : Z) (handle : string)
    (c0 : download * world) : download * world -> Prop :=
| reach_start : download_reach size handle c0 c0
| reach_round s w s' w' :
    download_reach size handle c0 (s, w) ->
    download_body size handle s w = (Done (Continue s'), w') ->
    download_reach size handle c0 (s', w').

(** How one round changes [buflen]: not at all, or, after a DATA reply of
    [len] bytes with [len < buflen], to [MAX(MIN_READ_SIZE, len)]. *)
Definition buflen_step (s s' : download) : Prop :=
  d_buflen s' = d_buflen s \/
  exists len, len < d_buflen s /\ d_buflen s' = Z.max MIN_READ_SIZE len.

(** A block of [n] bytes, and a DATA reply. *)
Definition block (n : nat) : string :=
  string_of_list_ascii (repeat "x"%char n).

Definition data_reply (id : Z) (data : string) : Buffer :=
  [Fchar SSH2_FXP_DATA; Fint id; Fstring data].

(** The state in which [do_download] enters its loop. *)
Definition download_start (buflen : Z) : download :=
  mkDl 0 false false 0 0 buflen 0 1 [].

(** ** Numbering of the requests *)

(** The ids [conn->msg_id++] hands out from [start] on, and the counter
    after [n] of them. *)
Fixpoint id_seq (start : Z) (n : nat) : list Z :=
  match n with
  | O => []
  | S k => start :: id_seq (u32 (start + 1)) k
  end.

Fixpoint id_after (start : Z) (n : nat) : Z :=
  match n with
  | O => start
  | S k => id_after (u32 (start + 1)) k
  end.

(** The messages written between [w] and [w'] carry the ids handed out
    from the [msg_id] of [w] on, one each and in order; when the command
    completed, [msg_id] has advanced by their number. *)
Definition numbered (b : bool) (w w' : world) : Prop :=
  exists new,
    w_out w' = w_out w ++ new /\
    map msg_reqid new
    = map Some (id_seq (msg_id (w_conn w)) (List.length new)) /\
    (b = true ->
     msg_id (w_conn w') = id_after (msg_id (w_conn w)) (List.length new)).

(** The calls a user of the client can make, the upload apart; a download
    names the local file it writes to. *)
Inductive operation : Type :=
| OpClose (handle : string)
| OpRm (path : string)
| OpMkdir (path : string) (a : Attrib)
| OpRmdir (path : string)
| OpStat (path : string) (quiet : bool)
| OpLstat (path : string) (quiet : bool)
| OpSetstat (path : string) (a : Attrib)
| OpFsetstat (handle : string) (a : Attrib)
| OpRealpath (path : string)
| OpRename (oldpath newpath : string)
| OpSymlink (oldpath newpath : string)
| OpStatvfs (path : string) (quiet : bool)
| OpReaddir (path : string) (want_dir : bool)
| OpDownload (remote_path : string) (pflag : bool) (local : local_file).

Definition use_local (f : local_file) : M unit :=
  fun w => (Done tt, set_local f w).

Definition run_operation (o : operation) : M unit :=
  match o with
  | OpClose handle => do_close handle ;; ret tt
  | OpRm path => do_rm path ;; ret tt
  | OpMkdir path a => do_mkdir path a ;; ret tt
  | OpRmdir path => do_rmdir path ;; ret tt
  | OpStat path quiet => do_stat path quiet ;; ret tt
  | OpLstat path quiet => do_lstat path quiet ;; ret tt
  | OpSetstat path a => do_setstat path a ;; ret tt
  | OpFsetstat handle a => do_fsetstat handle a ;; ret tt
  | OpRealpath path => do_realpath path ;; ret tt
  | OpRename oldpath newpath => do_rename oldpath newpath ;; ret tt
  | OpSymlink oldpath newpath => do_symlink oldpath newpath ;; ret tt
  | OpStatvfs path quiet => do_statvfs path quiet ;; ret tt
  | OpReaddir path want_dir => do_readdir path want_dir ;; ret tt
  | OpDownload remote_path pflag local =>
      use_local local ;; do_download remote_path pflag ;; ret tt
  end.

Fixpoint run_operations (ops : list operation) : M unit :=
  match ops with
  | [] => ret tt
  | o :: rest => run_operation o ;; run_operations rest
  end.

(** A session: the handshake, then the operations if it succeeded. *)
Definition session (fd_in fd_out transfer_buflen num_requests : Z)
    (ops : list operation) : M unit :=
  c <- do_init fd_in fd_out transfer_buflen num_requests ;;
  match c with
  | Some _ => run_operations ops
  | None => ret tt
  end.

Definition attrs_reply (id : Z) (a : Attrib) : Buffer :=
  [Fchar SSH2_FXP_ATTRS; Fint id; Fattrib a].

(** ** The parameters of the connection *)

(** The connection is the same but for its message counter. *)
Definition same_settings (w w' : world) : Prop :=
  fd_in (w_conn w') = fd_in (w_conn w) /\
  fd_out (w_conn w') = fd_out (w_conn w) /\
  transfer_buflen (w_conn w') = transfer_buflen (w_conn w) /\
  num_requests (w_conn w') = num_requests (w_conn w) /\
  version (w_conn w') = version (w_conn w) /\
  exts (w_conn w') = exts (w_conn w).

(** ** The window of the download *)

(** What the download keeps true of its counters, [N] being
    [conn->num_requests]: [num_req] counts the queue, and neither it nor
    [max_req] exceeds [N + 1] (or 1, the initial window). *)
Definition window_ok (N : Z) (s : download) : Prop :=
  d_num_req s = Z.of_nat (List.length (d_requests s)) /\
  0 <= d_max_req s < 2 ^ 32 /\
  d_max_req s <= Z.max 1 (N + 1) /\
  d_num_req s <= Z.max 1 (N + 1).

(** ** Termination *)

(** The command never runs out of fuel: it ends, with a result or in
    [fatal]. *)
Definition total {A} (m : M A) : Prop :=
  forall w, fst (m w) <> OutOfFuel.

(** What bounds the rounds of a loop: the replies still to be read and,
    for the upload, the reads of the local file still to be made. *)
Definition inbound (w : world) : nat := List.length (w_in w).

Definition upload_left (w : world) : nat :=
  (List.length (lf_reads (w_local w)) + List.length (w_in w))%nat.

Definition shrink (mu : world -> nat) (w w' : world) : Prop :=
  (mu w' <= mu w)%nat.

(** ** The window of the upload *)

(** The state in which [do_upload] enters its loop, [id] being the id of
    the OPEN request. *)
Definition upload_start (id : Z) : upload :=
  mkUl SSH2_FX_OK id (u32 (id + 1)) 0 true [].

(** The states at the head of the upload loop. *)
Inductive upload_reach (handle : string) (startid : Z)
    (c0 : upload * world) : upload * world -> Prop :=
| up_start : upload_reach handle startid c0 c0
| up_round s w s' w' :
    upload_reach handle startid c0 (s, w) ->
    upload_body handle startid s w = (Done (Continue s'), w') ->
    upload_reach handle startid c0 (s', w').

(** What the upload keeps true at the head of its loop, [N] being
    [conn->num_requests]: the writes not yet acknowledged are those
    numbered from [ackid] to [id], and they are at most [N]. *)
Definition upload_ok (N : Z) (s : upload) : Prop :=
  Z.of_nat (List.length (u_acks s)) = u32 (u_id s - u_ackid s + 1) /\
  Z.of_nat (List.length (u_acks s)) <= N.

(** ** The length limit of the messages *)

Definition small (m : Buffer) : Prop := buffer_len m <= SFTP_MAX_MSG_LENGTH.

(** What was written is within the limit; so is what was read, if the
    command completed. *)
Definition within_limit (b : bool) (w w' : world) : Prop :=
  (exists new, w_out w' = w_out w ++ new /\ Forall small new) /\
  (exists used,
     w_in w = used ++ w_in w' /\ (b = true -> Forall small used)).

(** ** The ranges an upload writes *)

(** The range of a WRITE request on [handle]: where it starts and the
    length of its data. *)
Definition write_range (handle : string) (m : Buffer) : option (Z * Z) :=
  match m with
  | [Fchar t; Fint _; Fstring h; Fint64 off; Fstring data] =>
      if (t =? SSH2_FXP_WRITE) && String.eqb h handle
      then Some (off, strlen data) else None
  | _ => None
  end.

(** [msgs] are WRITE requests for consecutive ranges, the first starting
    at [from]; the result is where the last one ends. *)
Fixpoint writes_from (handle : string) (from : Z) (msgs : list Buffer)
  : option Z :=
  match msgs with
  | [] => Some from
  | m :: rest =>
      match write_range handle m with
      | Some (off, len) =>
          if off =? from then writes_from handle (from + len) rest
          else None
      | None => None
      end
  end.

(** ** What a stat reports *)

Definition same_log (w w' : world) : Prop := w_log w' = w_log w.

(** The log is as it was, or has the one line of a failed stat that was
    not asked to be quiet. *)
Definition stat_log (quiet : bool) (w w' : world) : Prop :=
  w_log w' = w_log w \/
  quiet = false /\
  w_log w' = w_log w ++ [Error "Couldn't stat remote file: %s" ""].

(** ** The operations answered by a status *)

Inductive status_operation : Type :=
| SoClose (handle : string)
| SoRm (path : string)
| SoMkdir (path : string) (a : Attrib)
| SoRmdir (path : string)
| SoSetstat (path : string) (a : Attrib)
| SoFsetstat (handle : string) (a : Attrib).

Definition run_status (o : status_operation) : M Z :=
  match o with
  | SoClose handle => do_close handle
  | SoRm path => do_rm path
  | SoMkdir path a => do_mkdir path a
  | SoRmdir path => do_rmdir path
  | SoSetstat path a => do_setstat path a
  | SoFsetstat handle a => do_fsetstat handle a
  end.

(** The request each of them writes, and the line it logs on a status
    other than OK. *)
Definition status_request (o : status_operation) (id : Z) : Buffer :=
  match o with
  | SoClose handle => [Fchar SSH2_FXP_CLOSE; Fint id; Fstring handle]
  | SoRm path => [Fchar SSH2_FXP_REMOVE; Fint id; Fstring path]
  | SoMkdir path a => [Fchar SSH2_FXP_MKDIR; Fint id; Fstring path; Fattrib a]
  | SoRmdir path => [Fchar SSH2_FXP_RMDIR; Fint id; Fstring path]
  | SoSetstat path a =>
      [Fchar SSH2_FXP_SETSTAT; Fint id; Fstring path; Fattrib a]
  | SoFsetstat handle a =>
      [Fchar SSH2_FXP_FSETSTAT; Fint id; Fstring handle; Fattrib a]
  end.

Definition status_error (o : status_operation) : log_entry :=
  match o with
  | SoClose _ => Error "Couldn't close file: %s" ""
  | SoRm _ => Error "Couldn't delete file: %s" ""
  | SoMkdir _ _ => Error "Couldn't create directory: %s" ""
  | SoRmdir _ => Error "Couldn't remove directory: %s" ""
  | SoSetstat path _ => Error "Couldn't setstat on \%s\: %s" path
  | SoFsetstat _ _ => Error "Couldn't fsetstat: %s" ""
  end.

(** * Reasoning about commands *)


Lemma wp_ret {A} (a : A) Q F w : Q a w -> wp (ret a) Q F w.
Proof. exact (fun H => H). Qed.

Lemma wp_bind {A B} (m : M A) (k : A -> M B) Q F w :
  wp m (fun a w' => wp (k a) Q F w') F w -> wp (bind m k) Q F w.
Proof.
  unfold wp, bind. destruct (m w) as [[x | |] w1]; auto.
Qed.

Lemma wp_mono {A} (m : M A) (Q Q' : A -> world -> Prop) (F F' : world -> Prop) w :
  (forall a w', Q a w' -> Q' a w') -> (forall w', F w' -> F' w') ->
  wp m Q F w -> wp m Q' F' w.
Proof.
  unfold wp. intros HQ HF. destruct (m w) as [[x | |] w1]; auto.
Qed.

Lemma wp_loop {S R} (I : S -> world -> Prop) (Q : R -> world -> Prop)
    (F : world -> Prop) (body : S -> M (step S R)) :
  (forall s w, I s w -> F w) ->
  (forall s w, I s w ->
     wp (body s)
        (fun x w' => match x with
                     | Continue s' => I s' w'
                     | Break r => Q r w'
                     end) F w) ->
  forall fuel s w, I s w -> wp (loop fuel body s) Q F w.
Proof.
  intros HF Hbody. induction fuel as [| f IH]; intros s w HI; simpl;
    apply wp_bind; (eapply wp_mono; [ | | apply Hbody, HI ]); auto;
    intros [s' | r] w' H; try exact H.
  - exact (HF _ _ H).
  - exact (IH _ _ H).
Qed.

(** ** Relational rules

    A relation [R b w w'] between the state before and after a command,
    [b] telling whether the command completed.  The rules of this section
    lift such a relation from the primitives to every function of the
    client. *)
Section Rules.

Variable R : bool -> world -> world -> Prop.
Local Abbreviation obeys := (@obeys R _).
Hypothesis R_refl : forall w, R true w w.
Hypothesis R_cut : forall w w', R true w w' -> R false w w'.
Hypothesis R_trans :
  forall b w1 w2 w3, R true w1 w2 -> R b w2 w3 -> R b w1 w3.

Lemma obeys_ret {A} (a : A) : obeys (ret a).
Proof. intro w. apply R_refl. Qed.

Lemma obeys_fatal {A} : obeys (@fatal A).
Proof. intro w. apply R_cut, R_refl. Qed.

Lemma obeys_out_of_fuel {A} : obeys (@out_of_fuel A).
Proof. intro w. apply R_cut, R_refl. Qed.

Lemma obeys_bind {A B} (m : M A) (k : A -> M B) :
  obeys m -> (forall a, obeys (k a)) -> obeys (bind m k).
Proof.
  intros Hm Hk w. specialize (Hm w). unfold wp, bind in *.
  destruct (m w) as [[x | |] w1]; auto.
  specialize (Hk x w1). unfold wp in Hk.
  destruct (k x w1) as [[y | |] w2]; eapply R_trans; eauto.
Qed.

Lemma obeys_loop {S T} (body : S -> M (step S T)) :
  (forall s, obeys (body s)) -> forall fuel s, obeys (loop fuel body s).
Proof.
  intros Hb. induction fuel as [| f IH]; intro s; simpl;
    (apply obeys_bind; [ apply Hb | ]);
    intros [s' | r]; auto using @obeys_ret, @obeys_out_of_fuel.
Qed.

Lemma obeys_unchecked r : obeys (unchecked r).
Proof. destruct r; [ apply obeys_ret | apply obeys_fatal ]. Qed.

Lemma obeys_buffer_get_char m : obeys (buffer_get_char m).
Proof.
  destruct m as [| [ | | | | ] ?]; simpl;
    auto using @obeys_ret, @obeys_fatal.
Qed.

Lemma obeys_buffer_get_int m : obeys (buffer_get_int m).
Proof.
  destruct m as [| [ | | | | ] ?]; simpl;
    auto using @obeys_ret, @obeys_fatal.
Qed.

Lemma obeys_buffer_get_int64 m : obeys (buffer_get_int64 m).
Proof.
  destruct m as [| [ | | | | ] ?]; simpl;
    auto using @obeys_ret, @obeys_fatal.
Qed.

Lemma obeys_buffer_get_string m : obeys (buffer_get_string m).
Proof.
  destruct m as [| [ | | | | ] ?]; simpl;
    auto using @obeys_ret, @obeys_fatal.
Qed.

Lemma obeys_decode_attrib m : obeys (decode_attrib m).
Proof.
  destruct m as [| [ | | | | ] ?]; simpl;
    auto using @obeys_ret, @obeys_fatal.
Qed.

(** Reading the state changes nothing. *)
Lemma obeys_get_conn : obeys get_conn.
Proof. intro w. apply R_refl. Qed.

Lemma obeys_inbound_left : obeys inbound_left.
Proof. intro w. apply R_refl. Qed.

Lemma obeys_fstat : obeys fstat.
Proof. intro w. apply R_refl. Qed.

Lemma obeys_upload_fuel : obeys upload_fuel.
Proof. intro w. apply R_refl. Qed.

(** The primitives that touch the state. *)
Hypothesis H_request :
  forall A (f : Z -> Buffer) (k : Z -> M A),
    (forall id, msg_reqid (f id) = Some id) ->
    (forall id, obeys (k id)) ->
    obeys (id <- next_msg_id ;; send_msg (f id) ;; k id).
Hypothesis H_get_msg : obeys get_msg.
Hypothesis H_error : forall t x, obeys (error t x).
Hypothesis H_printf : forall l, obeys (printf l).
Hypothesis H_interrupted : obeys interrupted.
Hypothesis H_local_write : forall o d, obeys (local_write o d).

(** A request whose opcode depends on the connection; reading the
    connection between [msg_id++] and the send changes nothing. *)
Lemma request_conn {A} (f : Z -> sftp_conn -> Buffer) (k : Z -> M A) :
  (forall id c, msg_reqid (f id c) = Some id) ->
  (forall id, obeys (k id)) ->
  obeys (id <- next_msg_id ;; c <- get_conn ;; send_msg (f id c) ;; k id).
Proof.
  intros Hf Hk w.
  pose (c := set_msg_id (w_conn w) (u32 (msg_id (w_conn w) + 1))).
  generalize (H_request (fun id => f id c) k (fun id => Hf id c) Hk w).
  unfold wp, bind, next_msg_id, get_conn. simpl. fold c. auto.
Qed.

Create HintDb sftp_rules.

Ltac obeys_step :=
  lazymatch goal with
  | |- obeys (ret _) => apply obeys_ret
  | |- obeys fatal => apply obeys_fatal
  | |- obeys (bind next_msg_id (fun id => bind get_conn _)) =>
      apply request_conn; [ intros | intro ]
  | |- obeys (bind next_msg_id _) => apply H_request; [ intros | intro ]
  | |- obeys (bind _ _) => apply obeys_bind; [ | intro ]
  | |- obeys (if ?b then _ else _) => destruct b
  | |- obeys (match ?x with _ => _ end) => destruct x
  | |- msg_reqid (if ?b then _ else _) = _ => destruct b
  | |- msg_reqid _ = _ => reflexivity
  end.

Ltac obeys_auto :=
  repeat first
    [ apply obeys_ret | apply obeys_fatal
    | apply obeys_get_conn | apply obeys_inbound_left
    | apply obeys_fstat | apply obeys_upload_fuel
    | assumption
    | apply obeys_buffer_get_char | apply obeys_buffer_get_int
    | apply obeys_buffer_get_int64 | apply obeys_buffer_get_string
    | apply obeys_decode_attrib | apply obeys_unchecked
    | apply H_error | apply H_printf | apply H_local_write
    | solve [ auto with sftp_rules nocore ]
    | obeys_step ].

Lemma obeys_get_status id : obeys (get_status id).
Proof. unfold get_status. obeys_auto. Qed.

Local Hint Resolve obeys_get_status : sftp_rules.

Lemma obeys_get_handle id : obeys (get_handle id).
Proof. unfold get_handle. obeys_auto. Qed.

Lemma obeys_get_decode_stat id quiet : obeys (get_decode_stat id quiet).
Proof. unfold get_decode_stat. obeys_auto. Qed.

Lemma obeys_get_decode_statvfs id quiet :
  obeys (get_decode_statvfs id quiet).
Proof. unfold get_decode_statvfs. obeys_auto. Qed.

Lemma obeys_do_close handle : obeys (do_close handle).
Proof. unfold do_close. obeys_auto. Qed.

Local Hint Resolve obeys_get_handle obeys_get_decode_stat
  obeys_get_decode_statvfs obeys_do_close : sftp_rules.

Lemma obeys_do_rm path : obeys (do_rm path).
Proof. unfold do_rm, send_string_request. obeys_auto. Qed.

Lemma obeys_do_mkdir path a : obeys (do_mkdir path a).
Proof. unfold do_mkdir, send_string_attrs_request. obeys_auto. Qed.

Lemma obeys_do_rmdir path : obeys (do_rmdir path).
Proof. unfold do_rmdir, send_string_request. obeys_auto. Qed.

Lemma obeys_do_stat path quiet : obeys (do_stat path quiet).
Proof. unfold do_stat, send_string_request. obeys_auto. Qed.

Local Hint Resolve obeys_do_stat : sftp_rules.

Lemma obeys_do_lstat path quiet : obeys (do_lstat path quiet).
Proof. unfold do_lstat, send_string_request. obeys_auto. Qed.

Lemma obeys_do_setstat path a : obeys (do_setstat path a).
Proof. unfold do_setstat, send_string_attrs_request. obeys_auto. Qed.

Lemma obeys_do_fsetstat handle a : obeys (do_fsetstat handle a).
Proof. unfold do_fsetstat, send_string_attrs_request. obeys_auto. Qed.

Lemma obeys_do_realpath path : obeys (do_realpath path).
Proof. unfold do_realpath, send_string_request. obeys_auto. Qed.

Lemma obeys_do_rename oldpath newpath : obeys (do_rename oldpath newpath).
Proof. unfold do_rename. obeys_auto. Qed.

Lemma obeys_do_symlink oldpath newpath :
  obeys (do_symlink oldpath newpath).
Proof. unfold do_symlink. obeys_auto. Qed.

Lemma obeys_do_statvfs path quiet : obeys (do_statvfs path quiet).
Proof. unfold do_statvfs. obeys_auto. Qed.

Lemma obeys_readdir_names path printflag count msg :
  forall i dir, obeys (readdir_names path printflag i count msg dir).
Proof.
  induction msg as [msg IH] using (well_founded_induction
    (Wf_nat.well_founded_ltof _ (@List.length field))).
  intros i dir. destruct msg as [| f1 [| f2 [| f3 rest]]]; simpl;
    try solve [ obeys_auto ].
  assert (Hrest : forall i dir,
             obeys (readdir_names path printflag i count rest dir)).
  { apply IH. unfold Wf_nat.ltof. simpl. lia. }
  destruct (i <? count); [ | obeys_auto ].
  destruct f1; try apply obeys_fatal.
  destruct f2; try apply obeys_fatal.
  destruct f3; try apply obeys_fatal.
  obeys_auto.
Qed.

Local Hint Resolve obeys_readdir_names : sftp_rules.

Lemma obeys_readdir_body path printflag handle dir :
  obeys (readdir_body path printflag handle dir).
Proof. unfold readdir_body. obeys_auto. Qed.

Lemma obeys_do_lsreaddir path printflag want_dir :
  obeys (do_lsreaddir path printflag want_dir).
Proof.
  unfold do_lsreaddir.
  obeys_auto;
    try (apply obeys_loop; intro; apply obeys_readdir_body); obeys_auto.
Qed.

Lemma obeys_do_readdir path want_dir : obeys (do_readdir path want_dir).
Proof. apply obeys_do_lsreaddir. Qed.

Lemma obeys_send_requests handle :
  forall fuel s, obeys (send_requests fuel handle s).
Proof.
  induction fuel as [| f IH]; intro s; simpl; unfold send_read_request.
  - destruct (d_num_req s <? d_max_req s);
      [ apply obeys_out_of_fuel | apply obeys_ret ].
  - obeys_auto.
Qed.

Lemma obeys_download_status req msg s : obeys (download_status req msg s).
Proof. unfold download_status. obeys_auto. Qed.

Lemma obeys_download_data size handle req msg s :
  obeys (download_data size handle req msg s).
Proof. unfold download_data, send_read_request. obeys_auto. Qed.

Local Hint Resolve obeys_send_requests obeys_download_status
  obeys_download_data : sftp_rules.

Lemma obeys_download_body size handle s :
  obeys (download_body size handle s).
Proof. unfold download_body, find_request. obeys_auto. Qed.

Lemma obeys_download_loop size handle fuel s :
  obeys (loop fuel (download_body size handle) s).
Proof. apply obeys_loop. intro. apply obeys_download_body. Qed.

Local Hint Resolve obeys_download_loop : sftp_rules.

Hypothesis H_fchmod : forall mode, obeys (fchmod mode).

Lemma obeys_do_download remote_path pflag :
  obeys (do_download remote_path pflag).
Proof. unfold do_download. obeys_auto. Qed.

(** The upload sends its WRITE requests without going through
    [conn->msg_id]; its rules need the bare [send_msg]. *)
Hypothesis H_send_msg : forall m, obeys (send_msg m).
Hypothesis H_local_read : obeys local_read.
Hypothesis H_close_local : obeys close_local.

Lemma obeys_upload_ack s : obeys (upload_ack s).
Proof. unfold upload_ack, find_ack. obeys_auto. Qed.

Local Hint Resolve obeys_upload_ack obeys_do_fsetstat : sftp_rules.

Lemma obeys_upload_body handle startid s :
  obeys (upload_body handle startid s).
Proof.
  unfold upload_body.
  repeat first [ apply H_send_msg | apply H_local_read | obeys_auto ].
Qed.

Lemma obeys_upload_loop handle startid fuel s :
  obeys (loop fuel (upload_body handle startid) s).
Proof. apply obeys_loop. intro. apply obeys_upload_body. Qed.

Local Hint Resolve obeys_upload_loop : sftp_rules.

Lemma obeys_do_upload local_path remote_path remote_attribs pflag :
  obeys (do_upload local_path remote_path remote_attribs pflag).
Proof.
  unfold do_upload.
  repeat first [ apply H_close_local | obeys_auto ].
Qed.

End Rules.

(** ** Frames: what a command leaves alone *)


Section Frames.

Variable P : world -> world -> Prop.
Hypothesis P_refl : forall w, P w w.
Hypothesis P_trans : forall w1 w2 w3, P w1 w2 -> P w2 w3 -> P w1 w3.

Lemma frame_refl : forall w, frame P true w w.
Proof. exact P_refl. Qed.

Lemma frame_cut : forall w w', frame P true w w' -> frame P false w w'.
Proof. exact (fun _ _ H => H). Qed.

Lemma frame_trans :
  forall b w1 w2 w3,
    frame P true w1 w2 -> frame P b w2 w3 -> frame P b w1 w3.
Proof. intros b. exact P_trans. Qed.

Lemma frame_request :
  obeys (frame P) next_msg_id ->
  (forall m, obeys (frame P) (send_msg m)) ->
  forall A (f : Z -> Buffer) (k : Z -> M A),
    (forall id, msg_reqid (f id) = Some id) ->
    (forall id, obeys (frame P) (k id)) ->
    obeys (frame P) (id <- next_msg_id ;; send_msg (f id) ;; k id).
Proof.
  intros Hn Hs A f k _ Hk.
  apply (obeys_bind frame_trans); [ exact Hn | intro id ].
  apply (obeys_bind frame_trans); [ apply Hs | intros _ ].
  apply Hk.
Qed.

End Frames.

(** A primitive obeys a frame when the frame holds of each of its
    results; the primitives are unfolded and their tests split. *)
Ltac prim_frame :=
  intros;
  match goal with
  | |- obeys _ _ => intro
  end;
  unfold wp, frame, next_msg_id, send_msg, get_msg, error, printf,
    interrupted, local_write, fchmod, local_read, close_local,
    same_out, same_mode, same_signal, same_settings, shrink, inbound,
    upload_left;
  repeat match goal with
         | |- context [match ?x with _ => _ end] =>
             lazymatch x with
             | context [match _ with _ => _ end] => fail
             | _ => destruct x
             end
         end;
  simpl; auto.

(** Running a command on a concrete state: the equation between the run
    and its value, by evaluation. *)
Ltac run_as E lhs :=
  let v := eval vm_compute in lhs in
  assert (E : lhs = v) by (vm_compute; reflexivity).

(** * The handshake *)

Lemma testbit_ext_bit (k n : Z) :
  0 <= k -> Z.testbit (2 ^ k) n = (k =? n).
Proof. intro Hk. apply Z.pow2_bits_eqb. exact Hk. Qed.

Lemma testbit_1 n : Z.testbit 1 n = (0 =? n).
Proof. apply (@testbit_ext_bit 0 n). lia. Qed.

Lemma testbit_2 n : Z.testbit 2 n = (1 =? n).
Proof. apply (@testbit_ext_bit 1 n). lia. Qed.

Lemma testbit_4 n : Z.testbit 4 n = (2 =? n).
Proof. apply (@testbit_ext_bit 2 n). lia. Qed.

(** Bit [n] of the result of the extension loop: the bit was set before, or
    it is the bit of an extension the server advertised. *)
Lemma init_extensions_bits (pairs : list (string * string)) :
  forall e,
  exists r,
    init_extensions (put_pairs pairs) e = Some r /\
    forall n,
      Z.testbit r n =
      Z.testbit e n
      || ((0 =? n) && advertised "posix-rename@openssh.com" "1" pairs)
      || ((1 =? n) && advertised "statvfs@openssh.com" "2" pairs)
      || ((2 =? n) && advertised "fstatvfs@openssh.com" "2" pairs).
Proof.
  induction pairs as [| [name value] rest IH]; intro e.
  - exists e. split; [ reflexivity | ]. intro n. simpl.
    rewrite !andb_false_r, !orb_false_r. reflexivity.
  - cbn [put_pairs init_extensions].
    match goal with
    | |- exists r, init_extensions _ ?e' = _ /\ _ =>
        destruct (IH e') as [r [Hr Hbits]]
    end.
    exists r. split; [ exact Hr | ]. intro n. rewrite Hbits. clear Hbits Hr.
    unfold advertised. cbn [existsb fst snd]. unfold streq.
    change (cstr "posix-rename@openssh.com") with "posix-rename@openssh.com".
    change (cstr "statvfs@openssh.com") with "statvfs@openssh.com".
    change (cstr "fstatvfs@openssh.com") with "fstatvfs@openssh.com".
    change (cstr "1") with "1"%string. change (cstr "2") with "2"%string.
    generalize (cstr name) (cstr value). clear name value.
    intros name value.
    unfold SFTP_EXT_POSIX_RENAME, SFTP_EXT_STATVFS, SFTP_EXT_FSTATVFS.
    destruct (String.eqb name "posix-rename@openssh.com") eqn:E1;
      destruct (String.eqb name "statvfs@openssh.com") eqn:E2;
      destruct (String.eqb name "fstatvfs@openssh.com") eqn:E3;
      try (apply String.eqb_eq in E1); try (apply String.eqb_eq in E2);
      try (apply String.eqb_eq in E3); try congruence;
      destruct (String.eqb value "1") eqn:V1;
      destruct (String.eqb value "2") eqn:V2;
      try (apply String.eqb_eq in V1); try (apply String.eqb_eq in V2);
      try congruence;
      cbn [andb orb];
      rewrite ?Z.lor_spec, ?testbit_1, ?testbit_2, ?testbit_4;
      destruct (0 =? n); destruct (1 =? n); destruct (2 =? n);
      destruct (Z.testbit e n); destruct (existsb _ rest);
      try destruct (existsb _ rest); try destruct (existsb _ rest);
      reflexivity.
Qed.

Lemma land_ext_bit (x k : Z) :
  0 <= k -> Z.land x (2 ^ k) = if Z.testbit x k then 2 ^ k else 0.
Proof.
  intro Hk. apply Z.bits_inj'. intros n Hn.
  rewrite Z.land_spec, testbit_ext_bit by exact Hk.
  destruct (Z.eqb_spec k n) as [-> | Hne].
  - destruct (Z.testbit x n); simpl.
    + rewrite testbit_ext_bit by exact Hn. symmetry. apply Z.eqb_refl.
    + symmetry. apply Z.bits_0.
  - rewrite andb_false_r. destruct (Z.testbit x k).
    + rewrite testbit_ext_bit by exact Hk. symmetry. now apply Z.eqb_neq.
    + symmetry. apply Z.bits_0.
Qed.

Lemma land_ext_bit_set (x k : Z) :
  0 <= k -> (Z.land x (2 ^ k) <> 0 <-> Z.testbit x k = true).
Proof.
  intro Hk. rewrite land_ext_bit by exact Hk.
  destruct (Z.testbit x k); split; intro H; try congruence.
  assert (0 < 2 ^ k) by (apply Z.pow_pos_nonneg; lia). lia.
Qed.

Lemma advertised_reads name value pairs :
  nul_free name -> nul_free value ->
  (advertised name value pairs = true <->
   Exists (reads_as name value) pairs).
Proof.
  unfold nul_free. intros Hn Hv.
  unfold advertised. rewrite existsb_exists, Exists_exists.
  split; intros [p [Hin H]]; exists p; (split; [ exact Hin | ]).
  - apply andb_true_iff in H. destruct H as [H1 H2].
    apply String.eqb_eq in H1. apply String.eqb_eq in H2.
    split; congruence.
  - destruct H as [H1 H2]. unfold streq.
    rewrite H1, H2, Hn, Hv, !String.eqb_refl. reflexivity.
Qed.

(** A pair without NUL bytes reads as what it is. *)
Lemma reads_as_In name value pairs :
  Forall (fun p => nul_free (fst p) /\ nul_free (snd p)) pairs ->
  (Exists (reads_as name value) pairs <-> In (name, value) pairs).
Proof.
  intro Hall. rewrite Exists_exists. rewrite Forall_forall in Hall.
  split.
  - intros [[n v] [Hin [H1 H2]]].
    destruct (Hall _ Hin) as [Hn Hv]. unfold nul_free in *.
    cbn [fst snd] in *. congruence.
  - intro Hin. exists (name, value). split; [ exact Hin | ].
    destruct (Hall _ Hin) as [Hn Hv]. split; assumption.
Qed.

(** C3 (as amended): for every VERSION reply, the handshake sets the
    POSIX_RENAME bit iff its body has a pair that reads, as C strings (up
    to the first NUL byte of name and of value), as
    ("posix-rename@openssh.com", "1"), the STATVFS bit iff one reads as
    ("statvfs@openssh.com", "2") and the FSTATVFS bit iff one reads as
    ("fstatvfs@openssh.com", "2"); no other pair sets a bit: the extension
    word has no bit besides these three.  When no name or value of the
    reply holds a NUL byte, reading as a pair is being that pair. *)
Theorem init_recognises_extensions
    (fdi fdo buflen nreq v : Z) (pairs : list (string * string))
    (rest : list Buffer) (w : world) :
  w_in w = version_reply v pairs :: rest ->
  buffer_len (version_reply v pairs) <= SFTP_MAX_MSG_LENGTH ->
  exists c w',
    do_init fdi fdo buflen nreq w = (Done (Some c), w') /\
    (Z.land (exts c) SFTP_EXT_POSIX_RENAME <> 0 <->
     Exists (reads_as "posix-rename@openssh.com" "1") pairs) /\
    (Z.land (exts c) SFTP_EXT_STATVFS <> 0 <->
     Exists (reads_as "statvfs@openssh.com" "2") pairs) /\
    (Z.land (exts c) SFTP_EXT_FSTATVFS <> 0 <->
     Exists (reads_as "fstatvfs@openssh.com" "2") pairs) /\
    (forall n, Z.testbit (exts c) n = true -> n = 0 \/ n = 1 \/ n = 2) /\
    (Forall (fun p => nul_free (fst p) /\ nul_free (snd p)) pairs ->
     (Z.land (exts c) SFTP_EXT_POSIX_RENAME <> 0 <->
      In ("posix-rename@openssh.com", "1") pairs) /\
     (Z.land (exts c) SFTP_EXT_STATVFS <> 0 <->
      In ("statvfs@openssh.com", "2") pairs) /\
     (Z.land (exts c) SFTP_EXT_FSTATVFS <> 0 <->
      In ("fstatvfs@openssh.com", "2") pairs)).
Proof.
  intros Hin Hlen.
  destruct (init_extensions_bits pairs 0) as [r [Hr Hbits]].
  unfold do_init, bind, send_msg, get_msg. simpl. rewrite Hin.
  destruct (buffer_len (version_reply v pairs) >? SFTP_MAX_MSG_LENGTH)
    eqn:Hgt; [ apply Z.gtb_lt in Hgt; lia | ].
  unfold version_reply. simpl. rewrite Hr.
  eexists. eexists. split; [ reflexivity | ]. simpl.
  assert (H0 : Z.land r SFTP_EXT_POSIX_RENAME <> 0 <-> Z.testbit r 0 = true)
    by (apply (@land_ext_bit_set r 0); lia).
  assert (H1 : Z.land r SFTP_EXT_STATVFS <> 0 <-> Z.testbit r 1 = true)
    by (apply (@land_ext_bit_set r 1); lia).
  assert (H2 : Z.land r SFTP_EXT_FSTATVFS <> 0 <-> Z.testbit r 2 = true)
    by (apply (@land_ext_bit_set r 2); lia).
  assert (A0 : Z.land r SFTP_EXT_POSIX_RENAME <> 0 <->
               Exists (reads_as "posix-rename@openssh.com" "1") pairs).
  { rewrite H0, Hbits, Z.bits_0.
    rewrite <- advertised_reads by reflexivity. cbn [Z.eqb andb orb].
    rewrite !orb_false_r. reflexivity. }
  assert (A1 : Z.land r SFTP_EXT_STATVFS <> 0 <->
               Exists (reads_as "statvfs@openssh.com" "2") pairs).
  { rewrite H1, Hbits, Z.bits_0.
    rewrite <- advertised_reads by reflexivity. cbn [Z.eqb andb orb].
    rewrite !orb_false_r. reflexivity. }
  assert (A2 : Z.land r SFTP_EXT_FSTATVFS <> 0 <->
               Exists (reads_as "fstatvfs@openssh.com" "2") pairs).
  { rewrite H2, Hbits, Z.bits_0.
    rewrite <- advertised_reads by reflexivity. cbn [Z.eqb andb orb].
    reflexivity. }
  split; [ exact A0 | ]. split; [ exact A1 | ]. split; [ exact A2 | ].
  split.
  - intros n Hn. rewrite Hbits, Z.bits_0 in Hn.
    destruct (Z.eqb_spec 0 n); [ lia | ].
    destruct (Z.eqb_spec 1 n); [ lia | ].
    destruct (Z.eqb_spec 2 n); [ lia | ].
    discriminate Hn.
  - intro Hall.
    rewrite A0, A1, A2, !(reads_as_In _ _ Hall).
    repeat split; intro H; exact H.
Qed.

Lemma init_recognises_extensions_witness :
  let pairs := [("posix-rename@openssh.com", "1");
                ("statvfs@openssh.com", "1");
                ("hardlink@openssh.com", "2")]%string in
  exists c w',
    do_init 0 1 32768 64
      (quiet_world no_conn [version_reply 3 pairs] no_local)
    = (Done (Some c), w') /\
    (Z.land (exts c) SFTP_EXT_POSIX_RENAME <> 0 <->
     Exists (reads_as "posix-rename@openssh.com" "1") pairs) /\
    (Z.land (exts c) SFTP_EXT_STATVFS <> 0 <->
     Exists (reads_as "statvfs@openssh.com" "2") pairs) /\
    (Z.land (exts c) SFTP_EXT_FSTATVFS <> 0 <->
     Exists (reads_as "fstatvfs@openssh.com" "2") pairs) /\
    (forall n, Z.testbit (exts c) n = true -> n = 0 \/ n = 1 \/ n = 2) /\
    exts c = SFTP_EXT_POSIX_RENAME.
Proof.
  intro pairs.
  destruct (@init_recognises_extensions 0 1 32768 64 3 pairs []
              (quiet_world no_conn [version_reply 3 pairs] no_local)
              eq_refl ltac:(vm_compute; discriminate))
    as [c [w' [E [H0 [H1 [H2 [H3 _]]]]]]].
  exists c, w'. repeat split; try assumption; try tauto.
  run_as E' (do_init 0 1 32768 64
               (quiet_world no_conn [version_reply 3 pairs] no_local)).
  rewrite E' in E. injection E as <- _. reflexivity.
Defined.

(** The claim as first stated fails on a name with a NUL byte: the pair
    ("posix-rename@openssh.com\0x", "1") is not the pair
    ("posix-rename@openssh.com", "1"), and it sets the POSIX_RENAME bit,
    [strcmp] reading the name up to the NUL. *)
Lemma init_reads_names_up_to_nul :
  let pairs :=
    [(("posix-rename@openssh.com" ++ String Ascii.zero "x")%string,
      "1"%string)] in
  exists c w',
    do_init 0 1 32768 64
      (quiet_world no_conn [version_reply 3 pairs] no_local)
    = (Done (Some c), w') /\
    Z.land (exts c) SFTP_EXT_POSIX_RENAME <> 0 /\
    ~ In ("posix-rename@openssh.com"%string, "1"%string) pairs.
Proof.
  intro pairs.
  run_as E (do_init 0 1 32768 64
              (quiet_world no_conn [version_reply 3 pairs] no_local)).
  match type of E with _ = (Done (Some ?c), ?w1) => exists c, w1 end.
  split; [ exact E | ]. split.
  - vm_compute. discriminate.
  - intros [H | []]. discriminate H.
Qed.

(** * Frames of the reply readers *)

Create HintDb frames.

(** Instantiating a rule of section [Rules] at a frame: the three laws of
    the relation first, the primitives from the hints. *)
Ltac frame_rule L refl trans :=
  intros; apply L;
  [ apply frame_refl; exact refl
  | apply frame_cut
  | apply frame_trans; exact trans
  | .. ];
  eauto with frames nocore.

Lemma frame_result P {A} (m : M A) :
  obeys (frame P) m -> forall w, P w (snd (m w)).
Proof.
  intros H w. specialize (H w). unfold wp, frame in H.
  destruct (m w) as [[x | |] w']; exact H.
Qed.

Lemma same_out_refl w : same_out w w.
Proof. reflexivity. Qed.

Lemma same_out_trans w1 w2 w3 :
  same_out w1 w2 -> same_out w2 w3 -> same_out w1 w3.
Proof. unfold same_out. congruence. Qed.

Lemma same_out_get_msg : obeys (frame same_out) get_msg.
Proof. prim_frame; try reflexivity. Qed.

Lemma same_out_error t x : obeys (frame same_out) (error t x).
Proof. prim_frame; try reflexivity. Qed.

#[local] Hint Resolve same_out_get_msg same_out_error : frames.

Lemma same_out_get_decode_stat id quiet :
  obeys (frame same_out) (get_decode_stat id quiet).
Proof.
  frame_rule (@obeys_get_decode_stat (frame same_out)) same_out_refl same_out_trans.
Qed.

Lemma same_out_get_status id : obeys (frame same_out) (get_status id).
Proof.
  frame_rule (@obeys_get_status (frame same_out)) same_out_refl same_out_trans.
Qed.

Lemma same_out_get_handle id : obeys (frame same_out) (get_handle id).
Proof.
  frame_rule (@obeys_get_handle (frame same_out)) same_out_refl same_out_trans.
Qed.

(** * Single-shot operations *)

(** What [do_stat] writes: its request, unless the request is too long to
    be sent. *)
Lemma do_stat_out path quiet w :
  let req :=
    [Fchar (if version (w_conn w) =? 0 then SSH2_FXP_STAT_VERSION_0
            else SSH2_FXP_STAT);
     Fint (msg_id (w_conn w)); Fstring path] in
  w_out (snd (do_stat path quiet w))
  = w_out w ++ (if buffer_len req >? SFTP_MAX_MSG_LENGTH then [] else [req]).
Proof.
  intro req. unfold do_stat, send_string_request.
  unfold bind at 1. unfold next_msg_id. unfold bind at 1.
  unfold get_conn. unfold bind at 1. unfold send_msg at 1.
  cbn [w_conn set_conn version set_msg_id]. fold req.
  destruct (buffer_len req >? SFTP_MAX_MSG_LENGTH).
  - simpl. now rewrite app_nil_r.
  - match goal with
    | |- w_out (snd (get_decode_stat ?i ?q ?w1)) = _ =>
        rewrite (frame_result (same_out_get_decode_stat i q) w1)
    end.
    reflexivity.
Qed.



(** C9: on a connection whose extension word lacks the STATVFS bit,
    [do_statvfs] returns -1 and stores no result; nothing is written to the
    outbound stream, the connection (its [msg_id] included) is unchanged
    and no reply is read.  The only effect is the error line. *)
Theorem statvfs_needs_extension (path : string) (quiet : bool) (w : world) :
  Z.land (exts (w_conn w)) SFTP_EXT_STATVFS = 0 ->
  do_statvfs path quiet w
  = (Done (-1, None),
     set_log (w_log w ++
              [Error "Server does not support statvfs@openssh.com extension"
                     ""]) w) /\
  w_out (snd (do_statvfs path quiet w)) = w_out w /\
  msg_id (w_conn (snd (do_statvfs path quiet w))) = msg_id (w_conn w) /\
  w_conn (snd (do_statvfs path quiet w)) = w_conn w /\
  w_in (snd (do_statvfs path quiet w)) = w_in w.
Proof.
  intro H.
  assert (E : do_statvfs path quiet w
              = (Done (-1, None),
                 set_log (w_log w ++
                   [Error
                      "Server does not support statvfs@openssh.com extension"
                      ""]) w)).
  { unfold do_statvfs, bind at 1, get_conn. rewrite H. reflexivity. }
  rewrite E. repeat split; reflexivity.
Qed.

Lemma statvfs_needs_extension_witness :
  do_statvfs "/home" false
    (quiet_world (mkConn 0 1 32768 64 3 7 SFTP_EXT_POSIX_RENAME)
                 [[Fchar SSH2_FXP_STATUS; Fint 7; Fint 0]] no_local)
  = (Done (-1, None),
     set_log [Error "Server does not support statvfs@openssh.com extension"
                    ""]
       (quiet_world (mkConn 0 1 32768 64 3 7 SFTP_EXT_POSIX_RENAME)
                    [[Fchar SSH2_FXP_STATUS; Fint 7; Fint 0]] no_local)).
Proof.
  exact (proj1 (@statvfs_needs_extension "/home" false
                  (quiet_world (mkConn 0 1 32768 64 3 7 SFTP_EXT_POSIX_RENAME)
                     [[Fchar SSH2_FXP_STATUS; Fint 7; Fint 0]] no_local)
                  eq_refl)).
Defined.

(** * Download: the preconditions *)

Lemma wp_bind_frame P {A B} (m : M A) (k : A -> M B) Q F w :
  obeys (frame P) m ->
  (forall a w', P w w' -> wp (k a) Q F w') ->
  (forall w', P w w' -> F w') ->
  wp (bind m k) Q F w.
Proof.
  intros Hm Hk HF. apply wp_bind. specialize (Hm w). unfold wp, frame in *.
  destruct (m w) as [[x | |] w1]; auto. apply Hk. exact Hm.
Qed.

Lemma same_mode_refl w : same_mode w w.
Proof. reflexivity. Qed.

Lemma same_mode_trans w1 w2 w3 :
  same_mode w1 w2 -> same_mode w2 w3 -> same_mode w1 w3.
Proof. unfold same_mode. congruence. Qed.

Lemma same_mode_next_msg_id : obeys (frame same_mode) next_msg_id.
Proof. prim_frame; try reflexivity. Qed.

Lemma same_mode_send_msg m : obeys (frame same_mode) (send_msg m).
Proof. prim_frame; try reflexivity. Qed.

Lemma same_mode_get_msg : obeys (frame same_mode) get_msg.
Proof. prim_frame; try reflexivity. Qed.

Lemma same_mode_error t x : obeys (frame same_mode) (error t x).
Proof. prim_frame; try reflexivity. Qed.

Lemma same_mode_interrupted : obeys (frame same_mode) interrupted.
Proof. prim_frame; try reflexivity. Qed.

Lemma same_mode_local_write o d : obeys (frame same_mode) (local_write o d).
Proof. prim_frame; try reflexivity. Qed.

Lemma same_mode_request :
  forall A (f : Z -> Buffer) (k : Z -> M A),
    (forall id, msg_reqid (f id) = Some id) ->
    (forall id, obeys (frame same_mode) (k id)) ->
    obeys (frame same_mode) (id <- next_msg_id ;; send_msg (f id) ;; k id).
Proof.
  apply (frame_request same_mode_trans same_mode_next_msg_id
                       same_mode_send_msg).
Qed.

#[local] Hint Resolve same_mode_get_msg same_mode_error same_mode_interrupted
  same_mode_local_write same_mode_request : frames.

Lemma same_mode_do_stat path quiet :
  obeys (frame same_mode) (do_stat path quiet).
Proof.
  frame_rule (@obeys_do_stat (frame same_mode)) same_mode_refl same_mode_trans.
Qed.

Lemma same_mode_get_handle id : obeys (frame same_mode) (get_handle id).
Proof.
  frame_rule (@obeys_get_handle (frame same_mode)) same_mode_refl
             same_mode_trans.
Qed.

Lemma same_mode_do_close handle : obeys (frame same_mode) (do_close handle).
Proof.
  frame_rule (@obeys_do_close (frame same_mode)) same_mode_refl
             same_mode_trans.
Qed.

Lemma same_mode_download_loop size handle fuel s :
  obeys (frame same_mode) (loop fuel (download_body size handle) s).
Proof.
  frame_rule (@obeys_download_loop (frame same_mode)) same_mode_refl
             same_mode_trans.
Qed.

Lemma wp_run {A} (m : M A) Q F w r w' :
  wp m Q F w -> m w = (r, w') ->
  match r with
  | Done x => Q x w'
  | _ => F w'
  end.
Proof. unfold wp. intros H E. rewrite E in H. destruct r; exact H. Qed.

(** One step of a command under a frame that has held since [w0]. *)
Lemma wp_frame_step P {A B} (m : M A) (k : A -> M B) Q F w0 w :
  (forall w1 w2 w3, P w1 w2 -> P w2 w3 -> P w1 w3) ->
  obeys (frame P) m ->
  P w0 w ->
  (forall x w', P w0 w' -> wp (k x) Q F w') ->
  (forall w', P w0 w' -> F w') ->
  wp (bind m k) Q F w.
Proof.
  intros Ht Hm H0 Hk HF. apply wp_bind. specialize (Hm w).
  unfold wp, frame in *.
  destruct (m w) as [[x | |] w1]; [ apply Hk | apply HF | apply HF ];
    eapply Ht; eassumption.
Qed.

Lemma same_mode_get_conn : obeys (frame same_mode) get_conn.
Proof. apply obeys_get_conn. exact same_mode_refl. Qed.

Lemma same_mode_inbound_left : obeys (frame same_mode) inbound_left.
Proof. apply obeys_inbound_left. exact same_mode_refl. Qed.

Ltac mode_step :=
  eapply (@wp_frame_step same_mode);
  [ exact same_mode_trans
  | first [ apply same_mode_error | apply same_mode_get_conn
          | apply same_mode_next_msg_id | apply same_mode_send_msg
          | apply same_mode_get_handle | apply same_mode_inbound_left
          | apply same_mode_download_loop | apply same_mode_do_close ]
  | eassumption
  | intros ? ? ?
  | intros ? ? ].

(** Whatever the download does after a successful [do_stat], the mode of
    the local file is left alone or set to the mode computed from the
    attributes. *)
Lemma download_mode_used path pflag a w ws r w' :
  do_stat path false w = (Done (Some a), ws) ->
  do_download path pflag w = (r, w') ->
  lf_mode (w_local w') = lf_mode (w_local w) \/
  lf_mode (w_local w') = Some (download_mode a).
Proof.
  intros Hs Hd.
  assert (H0 : same_mode w ws).
  { generalize (frame_result (same_mode_do_stat path false) w).
    now rewrite Hs. }
  unfold do_download in Hd. unfold bind at 1 in Hd. rewrite Hs in Hd.
  set (G := fun w' : world =>
              lf_mode (w_local w') = lf_mode (w_local w) \/
              lf_mode (w_local w') = Some (download_mode a)).
  assert (HG : forall w1, same_mode w w1 -> G w1) by (intros w1 H; left; exact H).
  enough (H : match r with Done _ => G w' | _ => G w' end)
    by (destruct r; exact H).
  refine (@wp_run _ _ (fun _ => G) G _ _ _ _ Hd). clear Hd.
  destruct (has_flag (a_flags a) SSH2_FILEXFER_ATTR_PERMISSIONS
            && negb (S_ISREG (a_perm a))).
  all: repeat first
         [ mode_step; auto
         | apply wp_ret; solve [ auto ]
         | match goal with
           | |- wp (match ?x with _ => _ end) _ _ _ => destruct x
           | |- wp fatal _ _ _ => unfold wp, fatal; solve [ auto ]
           end ].
  match goal with H : same_mode w ?w1 |- wp _ _ _ ?w1 => rename H into Hw end.
  destruct pflag; [ | apply wp_bind; apply wp_ret; apply wp_ret; auto ].
  apply wp_bind. apply wp_bind. unfold wp at 1, fchmod.
  match goal with |- context [lf_chmod_ok ?f] => destruct (lf_chmod_ok f) end.
  - apply wp_ret. apply wp_ret. right. reflexivity.
  - left. exact Hw.
Qed.

(** The log along a download: it only grows, and every way out that
    reports a failure has added a line to it. *)
Lemma log_grows_refl w : log_grows w w.
Proof. split; [ exists []; now rewrite app_nil_r | reflexivity ]. Qed.

Lemma log_grows_trans w1 w2 w3 :
  log_grows w1 w2 -> log_grows w2 w3 -> log_grows w1 w3.
Proof.
  intros [[n1 H1] C1] [[n2 H2] C2]. split; [ | congruence ].
  exists (n1 ++ n2). rewrite H2, H1, app_assoc. reflexivity.
Qed.

Lemma log_grows_silent {A} (m : M A) :
  (forall w, w_log (snd (m w)) = w_log w /\
             lf_chmod_ok (w_local (snd (m w))) = lf_chmod_ok (w_local w)) ->
  obeys (frame log_grows) m.
Proof.
  intros H w. specialize (H w). unfold wp, frame.
  destruct (m w) as [[x | |] w1]; cbn [snd] in H; destruct H as [Hl Hc];
    (split; [ exists []; rewrite app_nil_r; exact Hl | exact Hc ]).
Qed.

Lemma log_grows_next_msg_id : obeys (frame log_grows) next_msg_id.
Proof. apply log_grows_silent. intro w. split; reflexivity. Qed.

Lemma log_grows_send_msg m : obeys (frame log_grows) (send_msg m).
Proof.
  apply log_grows_silent. intro w. unfold send_msg.
  destruct (buffer_len m >? SFTP_MAX_MSG_LENGTH); split; reflexivity.
Qed.

Lemma log_grows_get_msg : obeys (frame log_grows) get_msg.
Proof.
  apply log_grows_silent. intro w. unfold get_msg.
  destruct (w_in w) as [| m rest]; [ split; reflexivity | ].
  destruct (buffer_len m >? SFTP_MAX_MSG_LENGTH); split; reflexivity.
Qed.

Lemma log_grows_error t x : obeys (frame log_grows) (error t x).
Proof. intro w. split; [ eexists; reflexivity | reflexivity ]. Qed.

Lemma log_grows_printf l : obeys (frame log_grows) (printf l).
Proof. intro w. split; [ eexists; reflexivity | reflexivity ]. Qed.

Lemma log_grows_interrupted : obeys (frame log_grows) interrupted.
Proof. apply log_grows_silent. intro w. split; reflexivity. Qed.

Lemma log_grows_local_write o d : obeys (frame log_grows) (local_write o d).
Proof.
  apply log_grows_silent. intro w. unfold local_write.
  destruct (lf_wres (w_local w)) as [| e rest];
    [ | destruct (e =? 0) ]; split; reflexivity.
Qed.

Lemma log_grows_request :
  forall A (f : Z -> Buffer) (k : Z -> M A),
    (forall id, msg_reqid (f id) = Some id) ->
    (forall id, obeys (frame log_grows) (k id)) ->
    obeys (frame log_grows) (id <- next_msg_id ;; send_msg (f id) ;; k id).
Proof.
  apply (frame_request log_grows_trans log_grows_next_msg_id
                       log_grows_send_msg).
Qed.

#[local] Hint Resolve log_grows_get_msg log_grows_error log_grows_printf
  log_grows_interrupted log_grows_local_write log_grows_request : frames.

Lemma log_grows_do_stat path quiet :
  obeys (frame log_grows) (do_stat path quiet).
Proof.
  frame_rule (@obeys_do_stat (frame log_grows)) log_grows_refl
             log_grows_trans.
Qed.

Lemma log_grows_do_close handle : obeys (frame log_grows) (do_close handle).
Proof.
  frame_rule (@obeys_do_close (frame log_grows)) log_grows_refl
             log_grows_trans.
Qed.

Lemma log_grows_download_loop size handle fuel s :
  obeys (frame log_grows) (loop fuel (download_body size handle) s).
Proof.
  frame_rule (@obeys_download_loop (frame log_grows)) log_grows_refl
             log_grows_trans.
Qed.

Lemma error_logged_more w w1 w2 :
  error_logged w w1 -> log_grows w1 w2 -> error_logged w w2.
Proof.
  intros [e [new H1]] [[n2 H2] _]. exists e, (new ++ n2).
  rewrite H2, H1, <- app_assoc. reflexivity.
Qed.

Lemma error_logged_after w w1 t x :
  log_grows w w1 ->
  error_logged w (set_log (w_log w1 ++ [Error t x]) w1).
Proof.
  intros [[new H] _]. cbn [set_log w_log]. rewrite H, <- app_assoc.
  destruct new as [| e new]; eexists; eexists; reflexivity.
Qed.

Lemma error_logged_changes w w' :
  error_logged w w' -> w_log w' <> w_log w.
Proof.
  intros [e [new H]] E. rewrite E in H.
  apply (f_equal (@List.length log_entry)) in H.
  rewrite length_app in H. cbn [List.length] in H. lia.
Qed.

(** One step of a command that only adds to the log, under a property of
    the state that adding to the log keeps. *)
Lemma wp_grow_step (S : world -> Prop) {A B} (m : M A) (k : A -> M B) Q w :
  (forall w1 w2, S w1 -> log_grows w1 w2 -> S w2) ->
  obeys (frame log_grows) m ->
  S w ->
  (forall x w', S w' -> wp (k x) Q (fun _ => True) w') ->
  wp (bind m k) Q (fun _ => True) w.
Proof.
  intros HS Hm Hw Hk. apply wp_bind. specialize (Hm w).
  unfold wp, frame in *.
  destruct (m w) as [[x | |] w1]; [ | exact I | exact I ].
  apply Hk. exact (HS _ _ Hw Hm).
Qed.

Lemma tracked_closed w0 (b : bool) w1 w2 :
  (log_grows w0 w1 /\ (b = true -> error_logged w0 w1)) ->
  log_grows w1 w2 ->
  log_grows w0 w2 /\ (b = true -> error_logged w0 w2).
Proof.
  intros [H1 He] H2. split; [ exact (log_grows_trans H1 H2) | ].
  intro Hb. exact (error_logged_more (He Hb) H2).
Qed.

Ltac grow_step_as x w1 H :=
  eapply (@wp_grow_step _ _ _ _ _ _ _ (@tracked_closed _ _));
  [ first [ apply log_grows_next_msg_id | apply log_grows_send_msg
          | apply log_grows_get_msg | apply log_grows_do_close
          | apply log_grows_download_loop
          | apply obeys_get_conn; exact log_grows_refl
          | apply obeys_inbound_left; exact log_grows_refl
          | apply obeys_unchecked;
            first [ apply frame_refl; exact log_grows_refl
                  | apply frame_cut ]
          | apply obeys_buffer_get_char;
            first [ apply frame_refl; exact log_grows_refl
                  | apply frame_cut ]
          | apply obeys_buffer_get_int;
            first [ apply frame_refl; exact log_grows_refl
                  | apply frame_cut ]
          | apply obeys_buffer_get_string;
            first [ apply frame_refl; exact log_grows_refl
                  | apply frame_cut ] ]
  | eassumption
  | intros x w1 H ].

(** A call of [error] sets the mark that an error line has been added. *)
Lemma wp_error_step {B} t x (k : unit -> M B) Q w0 (b : bool) w :
  (log_grows w0 w /\ (b = true -> error_logged w0 w)) ->
  (forall w',
     (log_grows w0 w' /\ (true = true -> error_logged w0 w')) ->
     wp (k tt) Q (fun _ => True) w') ->
  wp (bind (error t x) k) Q (fun _ => True) w.
Proof.
  intros [Hg _] Hk. apply wp_bind. unfold wp at 1, error. apply Hk.
  split.
  - apply (log_grows_trans Hg). apply log_grows_error.
  - intros _. apply error_logged_after. exact Hg.
Qed.

(** [get_handle] hands back NULL only after an error line. *)
Lemma get_handle_logs id w0 (b : bool) w :
  (log_grows w0 w /\ (b = true -> error_logged w0 w)) ->
  wp (get_handle id)
     (fun h w' =>
        match h with
        | Some _ => log_grows w0 w' /\ (b = true -> error_logged w0 w')
        | None => log_grows w0 w' /\ (true = true -> error_logged w0 w')
        end)
     (fun _ => True) w.
Proof.
  intro Hw. unfold get_handle.
  grow_step_as r w1 H1.
  grow_step_as msg w2 H2.
  grow_step_as tm w3 H3. destruct tm as [type msg1].
  grow_step_as im w4 H4. destruct im as [rid msg2].
  destruct (negb (rid =? id)); [ exact I | ].
  destruct (type =? SSH2_FXP_STATUS).
  - grow_step_as sm w5 H5. destruct sm as [status msg3].
    eapply wp_error_step; [ exact H5 | intros w6 H6 ].
    apply wp_ret. exact H6.
  - destruct (negb (type =? SSH2_FXP_HANDLE)); [ exact I | ].
    grow_step_as hm w5 H5. destruct hm as [handle msg3].
    apply wp_ret. exact H5.
Qed.

(** A download that is asked to preserve the mode, whose [fchmod] can
    succeed, and that returns without having added a line to the log,
    has set the mode of the local file to the mode computed from the
    attributes. *)
Lemma download_applies_mode path a w ws r w' :
  do_stat path false w = (Done (Some a), ws) ->
  lf_chmod_ok (w_local w) = true ->
  do_download path true w = (Done r, w') ->
  w_log w' = w_log w ->
  lf_mode (w_local w') = Some (download_mode a).
Proof.
  intros Hs Hok Hd Hlog.
  assert (H0 : log_grows w ws /\ (false = true -> error_logged w ws)).
  { split; [ | discriminate ].
    generalize (frame_result (log_grows_do_stat path false) w).
    now rewrite Hs. }
  set (Q := fun (_ : Z) (w1 : world) =>
              w_log w1 = w_log w ->
              lf_mode (w_local w1) = Some (download_mode a)).
  assert (Hend : forall (b : bool) w1 x,
            (log_grows w w1 /\ (true = true -> error_logged w w1)) ->
            wp (ret x) Q (fun _ => True) w1).
  { intros b w1 x [_ He]. apply wp_ret. intro E.
    destruct (error_logged_changes (He eq_refl) E). }
  enough (H : wp (do_download path true) Q (fun _ => True) w)
    by exact (@wp_run _ _ _ _ _ _ _ H Hd Hlog).
  clear Hd Hlog.
  unfold do_download. apply wp_bind. unfold wp at 1. rewrite Hs.
  destruct (has_flag (a_flags a) SSH2_FILEXFER_ATTR_PERMISSIONS
            && negb (S_ISREG (a_perm a))).
  - eapply wp_error_step; [ exact H0 | intros w1 H1 ].
    exact (Hend true _ _ H1).
  - grow_step_as c w1 H1.
    grow_step_as nid w2 H2.
    grow_step_as u1 w3 H3.
    apply wp_bind.
    eapply wp_mono; [ | | apply (@get_handle_logs nid w false w3 H3) ];
      [ | trivial ].
    intros h w4 H4. cbv beta.
    destruct h as [handle |]; [ | exact (Hend true _ _ H4) ].
    grow_step_as fuel w5 H5.
    grow_step_as s w6 H6.
    destruct (d_requests s); [ | exact I ].
    destruct (d_read_error s).
    { eapply wp_error_step; [ exact H6 | intros w7 H7 ].
      grow_step_as st w8 H8. exact (Hend true _ _ H8). }
    destruct (d_write_error s).
    { eapply wp_error_step; [ exact H6 | intros w7 H7 ].
      grow_step_as st w8 H8. exact (Hend true _ _ H8). }
    grow_step_as st w7 H7.
    apply wp_bind. apply wp_bind. unfold wp at 1, fchmod.
    destruct H7 as [[_ Hc] _].
    rewrite Hc, Hok.
    apply wp_ret. apply wp_ret. intros _. reflexivity.
Qed.

(** C8: the download starts with a [do_stat] and sends nothing but that
    STAT request until the reply has been checked.  If the stat fails, or
    if its reply reports permissions that are not those of a regular file,
    [do_download] returns -1 in the state the stat left (plus the error
    line), so no OPEN request is sent.  The mode used for the local file is
    [a.perm & 0777] when the reply carries permissions and 0666 otherwise:
    however the download ends, the mode of the local file is that mode or
    has been left alone; and it is that mode whenever the download was
    asked to preserve modes, [fchmod] can succeed, and the call returns
    without having logged an error. *)
Theorem download_requires_regular_file
    (path : string) (pflag : bool) (w ws : world)
    (r : outcome (option Attrib)) :
  do_stat path false w = (r, ws) ->
  (forall m, In m (w_out ws) ->
     In m (w_out w) \/ msg_type m = Some SSH2_FXP_STAT) /\
  (r = Done None -> do_download path pflag w = (Done (-1), ws)) /\
  (forall a,
     r = Done (Some a) ->
     has_flag (a_flags a) SSH2_FILEXFER_ATTR_PERMISSIONS = true ->
     S_ISREG (a_perm a) = false ->
     do_download path pflag w
     = (Done (-1),
        set_log (w_log ws
                 ++ [Error "Cannot download non-regular file: %s" path])
                ws)) /\
  (forall a r' w',
     r = Done (Some a) ->
     do_download path pflag w = (r', w') ->
     lf_mode (w_local w') = lf_mode (w_local w) \/
     lf_mode (w_local w')
     = Some (if has_flag (a_flags a) SSH2_FILEXFER_ATTR_PERMISSIONS
             then Z.land (a_perm a) 511 else 438)) /\
  (forall a status w',
     r = Done (Some a) ->
     pflag = true ->
     lf_chmod_ok (w_local w) = true ->
     do_download path pflag w = (Done status, w') ->
     w_log w' = w_log w ->
     lf_mode (w_local w')
     = Some (if has_flag (a_flags a) SSH2_FILEXFER_ATTR_PERMISSIONS
             then Z.land (a_perm a) 511 else 438)).
Proof.
  intro Hs. repeat split.
  - intros m Hm.
    assert (E : ws = snd (do_stat path false w)) by now rewrite Hs.
    rewrite E, do_stat_out in Hm. apply in_app_or in Hm.
    destruct Hm as [Hm | Hm]; [ left; exact Hm | right ].
    destruct (buffer_len _ >? SFTP_MAX_MSG_LENGTH); [ destruct Hm | ].
    destruct Hm as [<- | []]. simpl.
    destruct (version (w_conn w) =? 0); reflexivity.
  - intros ->. unfold do_download, bind at 1. now rewrite Hs.
  - intros a -> Hp Hreg. unfold do_download, bind at 1. rewrite Hs, Hp, Hreg.
    reflexivity.
  - intros a r' w' -> Hd. exact (@download_mode_used _ _ _ _ _ _ _ Hs Hd).
  - intros a status w' -> -> Hok Hd Hlog.
    exact (@download_applies_mode _ _ _ _ _ _ Hs Hok Hd Hlog).
Qed.

Lemma download_requires_regular_file_witness :
  (fst (do_download "/nothing" true
          (quiet_world (mkConn 0 1 32768 64 3 1 0)
                       [[Fchar SSH2_FXP_STATUS; Fint 1; Fint 2]] no_local))
   = Done (-1) /\
   w_out (snd (do_download "/tmp" true
          (quiet_world (mkConn 0 1 32768 64 3 1 0)
             [[Fchar SSH2_FXP_ATTRS; Fint 1;
               Fattrib (mkAttrib 4 0 0 0 16877 0 0)]] no_local)))
   = [[Fchar SSH2_FXP_STAT; Fint 1; Fstring "/tmp"]]) /\
  let w :=
    quiet_world (mkConn 0 1 4 1 3 1 0)
      [attrs_reply 1 (mkAttrib 4 0 0 0 35309 0 0); handle_reply 2 "h";
       data_reply 3 (block 4); status_reply 4 SSH2_FX_EOF;
       status_reply 5 SSH2_FX_EOF; status_reply 6 SSH2_FX_OK] no_local in
  fst (do_download "/bin/su" true w) = Done 0 /\
  lf_written (w_local (snd (do_download "/bin/su" true w)))
  = [(0, block 4)] /\
  lf_mode (w_local (snd (do_download "/bin/su" true w))) = Some 493.
Proof.
  split; [ split | ].
  - destruct (@download_requires_regular_file "/nothing" true
                (quiet_world (mkConn 0 1 32768 64 3 1 0)
                             [[Fchar SSH2_FXP_STATUS; Fint 1; Fint 2]]
                             no_local) _ _ eq_refl) as [_ [H _]].
    rewrite (H eq_refl). reflexivity.
  - destruct (@download_requires_regular_file "/tmp" true
                (quiet_world (mkConn 0 1 32768 64 3 1 0)
                   [[Fchar SSH2_FXP_ATTRS; Fint 1;
                     Fattrib (mkAttrib 4 0 0 0 16877 0 0)]] no_local)
                _ _ eq_refl) as [_ [_ [H _]]].
    rewrite (H _ eq_refl eq_refl eq_refl). reflexivity.
  - intro w.
    run_as Es (do_stat "/bin/su" false w).
    run_as Ed (do_download "/bin/su" true w).
    destruct (@download_requires_regular_file "/bin/su" true w _ _ Es)
      as [_ [_ [_ [_ H]]]].
    rewrite Ed. cbn [fst snd].
    split; [ reflexivity | ]. split; [ reflexivity | ].
    assert (Hd : do_download "/bin/su" true w
                 = (Done 0, snd (do_download "/bin/su" true w)))
      by (rewrite Ed; reflexivity).
    rewrite Ed in Hd. cbn [snd] in Hd.
    exact (H _ _ _ eq_refl eq_refl eq_refl Hd eq_refl).
Defined.

(** * Upload: the attributes *)

Lemma more_out_refl w : more_out w w.
Proof. exists []. now rewrite app_nil_r. Qed.

Lemma more_out_trans w1 w2 w3 :
  more_out w1 w2 -> more_out w2 w3 -> more_out w1 w3.
Proof.
  intros [n1 H1] [n2 H2]. exists (n1 ++ n2).
  now rewrite H2, H1, app_assoc.
Qed.

Lemma more_out_same w w' : same_out w w' -> more_out w w'.
Proof. intro H. exists []. rewrite app_nil_r. exact H. Qed.

Lemma more_out_next_msg_id : obeys (frame more_out) next_msg_id.
Proof. intro w. apply more_out_same. reflexivity. Qed.

Lemma more_out_send_msg m : obeys (frame more_out) (send_msg m).
Proof.
  intro w. unfold wp, frame, send_msg.
  destruct (buffer_len m >? SFTP_MAX_MSG_LENGTH).
  - apply more_out_refl.
  - exists [m]. reflexivity.
Qed.

Lemma more_out_get_msg : obeys (frame more_out) get_msg.
Proof.
  intro w. generalize (same_out_get_msg w). unfold wp, frame.
  destruct (get_msg w) as [[x | |] w']; apply more_out_same.
Qed.

Lemma more_out_error t x : obeys (frame more_out) (error t x).
Proof. intro w. apply more_out_same. reflexivity. Qed.

Lemma more_out_interrupted : obeys (frame more_out) interrupted.
Proof. intro w. apply more_out_same. reflexivity. Qed.

Lemma more_out_local_read : obeys (frame more_out) local_read.
Proof.
  intro w. unfold wp, frame, local_read.
  destruct (read_retry (lf_reads (w_local w))). apply more_out_same.
  reflexivity.
Qed.

Lemma more_out_close_local : obeys (frame more_out) close_local.
Proof. intro w. apply more_out_same. reflexivity. Qed.

Lemma more_out_request :
  forall A (f : Z -> Buffer) (k : Z -> M A),
    (forall id, msg_reqid (f id) = Some id) ->
    (forall id, obeys (frame more_out) (k id)) ->
    obeys (frame more_out) (id <- next_msg_id ;; send_msg (f id) ;; k id).
Proof.
  apply (frame_request more_out_trans more_out_next_msg_id
                       more_out_send_msg).
Qed.

#[local] Hint Resolve more_out_get_msg more_out_error more_out_interrupted
  more_out_local_read more_out_close_local more_out_request
  more_out_send_msg : frames.

Lemma more_out_get_handle id : obeys (frame more_out) (get_handle id).
Proof.
  frame_rule (@obeys_get_handle (frame more_out)) more_out_refl
             more_out_trans.
Qed.

Lemma more_out_do_close handle : obeys (frame more_out) (do_close handle).
Proof.
  frame_rule (@obeys_do_close (frame more_out)) more_out_refl more_out_trans.
Qed.

Lemma more_out_do_fsetstat handle a :
  obeys (frame more_out) (do_fsetstat handle a).
Proof.
  frame_rule (@obeys_do_fsetstat (frame more_out)) more_out_refl
             more_out_trans.
Qed.

Lemma more_out_upload_loop handle startid fuel s :
  obeys (frame more_out) (loop fuel (upload_body handle startid) s).
Proof.
  frame_rule (@obeys_upload_loop (frame more_out)) more_out_refl
             more_out_trans.
Qed.

Lemma more_out_upload_fuel : obeys (frame more_out) upload_fuel.
Proof. apply obeys_upload_fuel. exact more_out_refl. Qed.

(** The bits of a normalised attribute record. *)
Ltac fold_masks :=
  unfold upload_attribs, has_flag, clear_bits, SSH2_FILEXFER_ATTR_SIZE,
    SSH2_FILEXFER_ATTR_UIDGID, SSH2_FILEXFER_ATTR_ACMODTIME;
  cbn [a_flags a_perm negb];
  rewrite <- ?Z.land_assoc;
  repeat match goal with
         | |- context [Z.land (Z.lxor ?x ?y) ?z] =>
             let v := eval vm_compute in (Z.land (Z.lxor x y) z) in
             progress change (Z.land (Z.lxor x y) z) with v
         end;
  rewrite ?Z.land_0_r.

Lemma upload_attribs_flags (a : Attrib) (pflag : bool) :
  has_flag (a_flags (upload_attribs a pflag)) SSH2_FILEXFER_ATTR_SIZE = false /\
  has_flag (a_flags (upload_attribs a pflag)) SSH2_FILEXFER_ATTR_UIDGID = false /\
  a_perm (upload_attribs a pflag) = Z.land (a_perm a) 511 /\
  has_flag (a_flags (upload_attribs a pflag)) SSH2_FILEXFER_ATTR_ACMODTIME
  = pflag && has_flag (a_flags a) SSH2_FILEXFER_ATTR_ACMODTIME.
Proof.
  repeat split; destruct pflag; fold_masks; reflexivity.
Qed.

Ltac out_step :=
  eapply (@wp_frame_step more_out);
  [ exact more_out_trans
  | first [ apply more_out_error | apply more_out_get_handle
          | apply more_out_upload_fuel | apply more_out_upload_loop
          | apply more_out_do_fsetstat | apply more_out_do_close ]
  | eassumption
  | intros ? ? ?
  | intros ? ? ].

(** Past its two guards, [do_upload] sends the OPEN request with the
    normalised attributes and hands the normalised record back. *)
Lemma upload_after_guards local_path remote_path a pflag w st_mode from_stat
    r w' :
  lf_stat (w_local w) = Some (st_mode, from_stat) ->
  S_ISREG st_mode = true ->
  do_upload local_path remote_path (Some a) pflag w = (r, w') ->
  let open :=
    [Fchar SSH2_FXP_OPEN; Fint (msg_id (w_conn w)); Fstring remote_path;
     Fint 26; Fattrib (upload_attribs a pflag)] in
  (forall x, r = Done x -> snd x = Some (upload_attribs a pflag)) /\
  (buffer_len open <= SFTP_MAX_MSG_LENGTH ->
   exists rest, w_out w' = w_out w ++ open :: rest) /\
  (SFTP_MAX_MSG_LENGTH < buffer_len open -> r = Fatal /\ w_out w' = w_out w).
Proof.
  intros Hst Hreg Hu open.
  unfold do_upload, bind at 1, fstat in Hu. rewrite Hst, Hreg in Hu.
  cbn [negb] in Hu.
  unfold bind at 1, next_msg_id in Hu. unfold bind at 1, send_msg at 1 in Hu.
  cbn [w_conn set_conn] in Hu.
  change (Z.lor (Z.lor SSH2_FXF_WRITE SSH2_FXF_CREAT) SSH2_FXF_TRUNC)
    with 26 in Hu.
  fold open in Hu.
  destruct (buffer_len open >? SFTP_MAX_MSG_LENGTH) eqn:Hlen.
  - apply Z.gtb_lt in Hlen. injection Hu as <- <-.
    repeat split; try discriminate; try reflexivity; lia.
  - assert (Hle : buffer_len open <= SFTP_MAX_MSG_LENGTH).
    { destruct (Z.gtb_spec (buffer_len open) SFTP_MAX_MSG_LENGTH);
        [ discriminate | lia ]. }
    clear Hlen.
    set (w2 := set_out _ _) in Hu.
    set (Q := fun (x : Z * option Attrib) (w1 : world) =>
                snd x = Some (upload_attribs a pflag) /\ more_out w2 w1).
    enough (H : match r with Done x => Q x w' | _ => more_out w2 w' end).
    { assert (Hout : more_out w2 w') by (destruct r; [ apply H | | ]; exact H).
      split; [ | split; [ | lia ] ].
      - intros x ->. apply H.
      - intros _. destruct Hout as [rest Hrest]. exists rest.
        rewrite Hrest. unfold w2. cbn [w_out set_out set_conn].
        now rewrite <- app_assoc. }
    refine (@wp_run _ _ Q (more_out w2) _ _ _ _ Hu). clear Hu.
    assert (H2 : more_out w2 w2) by apply more_out_refl.
    repeat first
      [ out_step; auto
      | match goal with
        | |- wp (ret _) _ _ _ => apply wp_ret; cbv beta
        | |- wp (match ?x with _ => _ end) _ _ _ => destruct x
        | |- wp (bind (if _ then _ else _) _) _ _ _ => apply wp_bind
        | |- wp (bind (ret _) _) _ _ _ => apply wp_bind
        | |- Q _ _ => split; [ reflexivity | assumption ]
        end ].
Qed.

(** C10 (as amended): for every call of [do_upload] with a caller-supplied
    attribute record that gets past the two guards on the local file
    ([fstat] succeeds and reports a regular file), the record is
    normalised before the OPEN request is sent: SIZE and UIDGID are
    cleared, the permissions are masked to their low 9 bits, ACMODTIME is
    cleared unless the preserve flag is set.  The OPEN request carries the
    normalised record (it is the first message the call writes, unless it
    is too long to be sent, which is fatal), and the caller's record is the
    normalised one when the call returns. *)
Theorem upload_normalises_attribs
    (local_path remote_path : string) (a : Attrib) (pflag : bool)
    (w : world) (st_mode : Z) (from_stat : Attrib)
    (r : outcome (Z * option Attrib)) (w' : world) :
  lf_stat (w_local w) = Some (st_mode, from_stat) ->
  S_ISREG st_mode = true ->
  do_upload local_path remote_path (Some a) pflag w = (r, w') ->
  let a' := upload_attribs a pflag in
  let open :=
    [Fchar SSH2_FXP_OPEN; Fint (msg_id (w_conn w)); Fstring remote_path;
     Fint 26; Fattrib a'] in
  has_flag (a_flags a') SSH2_FILEXFER_ATTR_SIZE = false /\
  has_flag (a_flags a') SSH2_FILEXFER_ATTR_UIDGID = false /\
  a_perm a' = Z.land (a_perm a) 511 /\
  has_flag (a_flags a') SSH2_FILEXFER_ATTR_ACMODTIME
  = pflag && has_flag (a_flags a) SSH2_FILEXFER_ATTR_ACMODTIME /\
  (forall x, r = Done x -> snd x = Some a') /\
  ((r = Fatal /\ w_out w' = w_out w) \/
   exists rest, w_out w' = w_out w ++ open :: rest).
Proof.
  intros Hst Hreg Hu a' open.
  destruct (upload_attribs_flags a pflag) as [H1 [H2 [H3 H4]]].
  destruct (upload_after_guards _ _ _ _ _ Hst Hreg Hu) as [H5 [H6 H7]].
  repeat (split; [ assumption | ]).
  destruct (Z_le_gt_dec (buffer_len open) SFTP_MAX_MSG_LENGTH) as [Hle | Hgt].
  - right. apply H6. exact Hle.
  - left. apply H7. apply Z.gt_lt. exact Hgt.
Qed.

Lemma upload_normalises_attribs_witness :
  has_flag (a_flags (upload_attribs (mkAttrib 15 5 501 20 33261 7 9) false))
           SSH2_FILEXFER_ATTR_SIZE = false /\
  a_perm (upload_attribs (mkAttrib 15 5 501 20 33261 7 9) false)
  = Z.land 33261 511 /\
  snd (0, Some (upload_attribs (mkAttrib 15 5 501 20 33261 7 9) false))
  = Some (upload_attribs (mkAttrib 15 5 501 20 33261 7 9) false).
Proof.
  run_as E (do_upload "notes.txt" "/home/me/notes.txt"
              (Some (mkAttrib 15 5 501 20 33261 7 9)) false
              (quiet_world (mkConn 0 1 32768 2 3 1 0)
                 [handle_reply 1 "h"; status_reply 2 0; status_reply 2 0]
                 (regular_file ["hello"]))).
  destruct (@upload_normalises_attribs "notes.txt" "/home/me/notes.txt"
              (mkAttrib 15 5 501 20 33261 7 9) false
              (quiet_world (mkConn 0 1 32768 2 3 1 0)
                 [handle_reply 1 "h"; status_reply 2 0; status_reply 2 0]
                 (regular_file ["hello"]))
              33188 (mkAttrib 15 0 0 0 33188 0 0) _ _
              eq_refl eq_refl E) as [H1 [_ [H3 [_ [H5 _]]]]].
  split; [ exact H1 | ]. split; [ exact H3 | ].
  exact (H5 _ eq_refl).
Defined.

(** The claim as first stated fails at a call that stops at a guard: the
    local file is a directory, the call returns -1 and the caller's record
    still has its SIZE and UIDGID flags and all its mode bits. *)
Lemma upload_guard_keeps_attribs :
  let a := mkAttrib 15 5 501 20 33261 7 9 in
  let w := quiet_world (mkConn 0 1 32768 2 3 1 0) []
             (mkLocal (Some (16877, a)) [] [] [] true None false) in
  fst (do_upload "dir" "/home/me/dir" (Some a) false w) = Done (-1, Some a) /\
  w_out (snd (do_upload "dir" "/home/me/dir" (Some a) false w)) = [] /\
  has_flag (a_flags a) SSH2_FILEXFER_ATTR_SIZE = true /\
  has_flag (a_flags a) SSH2_FILEXFER_ATTR_UIDGID = true /\
  a_perm a <> Z.land (a_perm a) 511.
Proof. vm_compute. repeat split; discriminate. Qed.

(** * Directory listing *)

Lemma wp_any {A B} (m : M A) (k : A -> M B) Q F w :
  (forall x w', wp (k x) Q F w') -> (forall w', F w') ->
  wp (bind m k) Q F w.
Proof.
  intros Hk HF. apply wp_bind. unfold wp at 1.
  destruct (m w) as [[x | |] w1]; auto.
Qed.

Lemma set_log_same w : set_log (w_log w) w = w.
Proof. destruct w; reflexivity. Qed.

(** What [strchr] does not find before the first NUL is not in the C
    string. *)
Lemma strchr_cstr s :
  strchr s "/" = false -> ~ In "/"%char (list_ascii_of_string (cstr s)).
Proof.
  induction s as [| x rest IH]; cbn [strchr cstr]; intro H.
  - intros [].
  - destruct (Ascii.eqb_spec x "/") as [-> | Hx]; [ discriminate H | ].
    destruct (Ascii.eqb x Ascii.zero); [ intros [] | ].
    cbn [list_ascii_of_string]. intros [Hh | Ht]; [ congruence | ].
    exact (IH H Ht).
Qed.

(** On a string without a NUL byte, [strchr] finds the slash iff there is
    one. *)
Lemma strchr_nul_free s :
  nul_free s ->
  (strchr s "/" = false <-> ~ In "/"%char (list_ascii_of_string s)).
Proof.
  unfold nul_free. intro Hs. split.
  - intro H. rewrite <- Hs. apply strchr_cstr. exact H.
  - revert Hs. induction s as [| x rest IH]; cbn [strchr cstr]; intros Hs H.
    + reflexivity.
    + cbn [list_ascii_of_string] in H.
      destruct (Ascii.eqb_spec x "/") as [-> | Hx];
        [ exfalso; apply H; left; reflexivity | ].
      destruct (Ascii.eqb x Ascii.zero); [ discriminate Hs | ].
      injection Hs as Hs. apply IH; [ exact Hs | ].
      intro Hin. apply H. right. exact Hin.
Qed.

(** The loop over the entries of one NAME reply: the first [count - i]
    entries are read; those in whose name [strchr] finds a slash are
    dropped with an error line, the others are appended in order, as C
    strings. *)
Lemma readdir_names_spec path printflag count :
  forall entries i dir w,
    count - i <= Z.of_nat (List.length entries) ->
    readdir_names path printflag i count (put_names entries) dir w
    = (Done (match dir with
             | Some ents =>
                 Some (ents
                       ++ map stored
                            (filter clean
                               (firstn (Z.to_nat (count - i)) entries)))
             | None => None
             end),
       set_log (w_log w
                ++ names_log printflag
                     (firstn (Z.to_nat (count - i)) entries)) w).
Proof.
  induction entries as [| e rest IH]; intros i dir w Hlen.
  - simpl in Hlen. simpl.
    destruct (Z.ltb_spec i count); [ lia | ].
    rewrite firstn_nil. destruct dir; simpl;
      rewrite ?app_nil_r, set_log_same; reflexivity.
  - destruct e as [fn ln at0]. cbn [put_names readdir_names].
    cbn [filename longname a].
    destruct (Z.ltb_spec i count) as [Hlt | Hge].
    + replace (Z.to_nat (count - i)) with (S (Z.to_nat (count - (i + 1))))
        by lia.
      cbn [firstn filter names_log flat_map].
      assert (Hrest : count - (i + 1) <= Z.of_nat (List.length rest)).
      { simpl List.length in Hlen. lia. }
      unfold clean at 1.
      cbn [filename longname].
      destruct printflag; destruct (strchr fn "/") eqn:Hs;
        unfold bind, printf, error, ret; cbn [negb map];
        unfold stored at 1; cbn [filename longname a];
        rewrite IH by exact Hrest; cbn [w_log set_log];
        rewrite <- ?app_assoc; cbn [app].
      all: destruct dir; destruct w as [wc wo wi ws wp wl wf];
        cbn [set_log w_log w_conn w_out w_in w_sigint w_polls w_local];
        unfold names_log; rewrite <- ?app_assoc; reflexivity.
    + replace (Z.to_nat (count - i)) with O by lia.
      destruct dir; simpl; rewrite ?app_nil_r, set_log_same; reflexivity.
Qed.

Lemma readdir_names_clean path printflag count :
  forall msg i dir w,
    dir_clean dir ->
    wp (readdir_names path printflag i count msg dir)
       (fun d _ => dir_clean d) (fun _ => True) w.
Proof.
  induction msg as [msg IH] using (well_founded_induction
    (Wf_nat.well_founded_ltof _ (@List.length field))).
  intros i dir w Hdir.
  destruct msg as [| f1 [| f2 [| f3 rest]]]; simpl;
    try (destruct (i <? count); [ exact I | exact Hdir ]);
    try (destruct (i <? count);
         [ destruct f1; try exact I; destruct f2; exact I | exact Hdir ]).
  assert (Hrest : forall i dir w,
             dir_clean dir ->
             wp (readdir_names path printflag i count rest dir)
                (fun d _ => dir_clean d) (fun _ => True) w).
  { apply IH. unfold Wf_nat.ltof. simpl. lia. }
  destruct (i <? count); [ | exact Hdir ].
  destruct f1; try exact I. destruct f2; try exact I.
  destruct f3; try exact I.
  apply wp_any; [ intros _ w1 | auto ].
  destruct (strchr s "/") eqn:Hs.
  - apply wp_any; [ intros _ w2 | auto ]. apply Hrest. exact Hdir.
  - apply Hrest. destruct dir as [ents |]; [ | exact I ]. simpl.
    apply Forall_app. split; [ exact Hdir | ].
    constructor; [ exact (strchr_cstr _ Hs) | constructor ].
Qed.

(** Walking through a command whose intermediate states do not matter. *)
Ltac wp_walk :=
  repeat match goal with
         | |- wp (ret _) _ _ _ => apply wp_ret; cbv beta
         | |- wp fatal _ _ _ => exact I
         | |- wp (match ?x with _ => _ end) _ _ _ => destruct x
         | |- wp (bind (readdir_names _ _ _ _ _ _) _) _ _ _ =>
             apply wp_bind;
             eapply wp_mono;
             [ | | apply readdir_names_clean; assumption ];
             [ intros ? ? ?; cbv beta | trivial ]
         | |- wp (bind _ _) _ _ _ =>
             apply wp_any; [ intros ? ? | intros; exact I ]
         end.

Lemma readdir_body_clean path printflag handle dir w :
  dir_clean dir ->
  wp (readdir_body path printflag handle dir)
     (fun x _ =>
        match x with
        | Continue d => dir_clean d
        | Break (LsBreak d) => dir_clean d
        | Break (LsReturn _ d) => dir_clean d
        end)
     (fun _ => True) w.
Proof. intro Hdir. unfold readdir_body. wp_walk; assumption. Qed.

Lemma do_lsreaddir_clean path printflag want_dir w :
  wp (do_lsreaddir path printflag want_dir)
     (fun r _ => dir_clean (snd r)) (fun _ => True) w.
Proof.
  unfold do_lsreaddir.
  apply wp_any; [ intros id w1 | auto ].
  apply wp_any; [ intros _ w2 | auto ].
  apply wp_any; [ intros h w3 | auto ].
  destruct h as [handle |]; [ | exact I ].
  apply wp_any; [ intros fuel w4 | auto ].
  apply wp_bind.
  eapply wp_mono;
    [ | | apply (@wp_loop _ _ (fun d _ => dir_clean d)
                   (fun x _ => match x with
                               | LsBreak d => dir_clean d
                               | LsReturn _ d => dir_clean d
                               end)
                   (fun _ => True)) ].
  - intros [d | st d] w5 Hd; wp_walk; simpl; try exact Hd.
    destruct d as [ents |]; [ | exact I ].
    match goal with |- context [if ?b then _ else _] => destruct b end;
      [ constructor | exact Hd ].
  - trivial.
  - trivial.
  - intros d w5 Hd. eapply wp_mono; [ | | apply readdir_body_clean, Hd ];
      [ intros [d' | [d' | st d']] w6 H; exact H | trivial ].
  - destruct want_dir; simpl; [ constructor | exact I ].
Qed.

(** C5 (as amended): whatever the server sends, no entry that [do_readdir]
    hands back has a file name containing a slash.  The names of a NAME
    reply are read as C strings, up to their first NUL byte: within one
    reply the loop over its [count] entries drops exactly the entries in
    whose name so read there is a slash, writing an error line for each,
    and appends the others, under the names so read, in the order of the
    reply.  For a name without a NUL byte that is the name the server
    sent, and the test is whether it has a slash. *)
Theorem readdir_drops_slash_names :
  (forall path want_dir w code ents w',
     do_readdir path want_dir w = (Done (code, Some ents), w') ->
     Forall slash_free ents) /\
  (forall path printflag count entries dir w,
     0 <= count <= Z.of_nat (List.length entries) ->
     readdir_names path printflag 0 count (put_names entries) (Some dir) w
     = (Done (Some (dir ++ map stored
                             (filter clean
                                (firstn (Z.to_nat count) entries)))),
        set_log (w_log w
                 ++ names_log printflag (firstn (Z.to_nat count) entries))
                w)) /\
  (forall e,
     nul_free (filename e) ->
     (clean e = true <-> slash_free e) /\
     (nul_free (longname e) -> stored e = e)).
Proof.
  split; [ | split ].
  - intros path want_dir w code ents w' H.
    exact (@wp_run _ _ _ _ _ _ _
             (do_lsreaddir_clean path false want_dir w) H).
  - intros path printflag count entries dir w Hc.
    rewrite readdir_names_spec by lia. now rewrite Z.sub_0_r.
  - intros [fn ln at0] Hf. cbn [filename longname] in *. split.
    + unfold clean, slash_free. cbn [filename].
      rewrite <- (strchr_nul_free Hf).
      destruct (strchr fn "/"); cbn [negb]; split; congruence.
    + intro Hl. unfold stored, nul_free in *. cbn [filename longname a].
      rewrite Hf, Hl. reflexivity.
Qed.

Lemma readdir_drops_slash_names_witness :
  let e1 := mkDirent "a.txt" "-rw-r--r-- a.txt" attrib_clear in
  let e2 := mkDirent "../../etc/passwd" "-rw-r--r-- passwd" attrib_clear in
  let e3 := mkDirent "b.txt" "-rw-r--r-- b.txt" attrib_clear in
  fst (do_readdir "/" true
         (quiet_world (mkConn 0 1 32768 64 3 1 0)
            [handle_reply 1 "d"; name_reply 2 [e1; e2; e3];
             status_reply 3 SSH2_FX_EOF; status_reply 4 SSH2_FX_OK]
            no_local))
  = Done (0, Some [e1; e3]) /\
  Forall slash_free [e1; e3] /\
  fst (readdir_names "/" false 0 3 (put_names [e1; e2; e3]) (Some [])
         (quiet_world (mkConn 0 1 32768 64 3 1 0) [] no_local))
  = Done (Some [e1; e3]) /\
  (clean e2 = true <-> slash_free e2).
Proof.
  intros e1 e2 e3. destruct readdir_drops_slash_names as [H1 [H2 H3]].
  run_as E (do_readdir "/" true
              (quiet_world (mkConn 0 1 32768 64 3 1 0)
                 [handle_reply 1 "d"; name_reply 2 [e1; e2; e3];
                  status_reply 3 SSH2_FX_EOF; status_reply 4 SSH2_FX_OK]
                 no_local)).
  split; [ rewrite E; reflexivity | ]. split; [ | split ].
  - exact (H1 _ _ _ _ _ _ E).
  - rewrite (H2 "/" false 3 [e1; e2; e3] []
               (quiet_world (mkConn 0 1 32768 64 3 1 0) [] no_local)).
    + vm_compute. reflexivity.
    + vm_compute. split; discriminate.
  - exact (proj1 (H3 e2 eq_refl)).
Defined.

(** The claim as first stated fails on a name with a NUL byte: the server
    sends the name "a\0/b", which has a slash; [strchr] stops at the NUL
    and finds none, so the entry is not dropped and no error line is
    written: it is handed back under the name "a". *)
Lemma readdir_keeps_name_cut_at_nul :
  let e := mkDirent ("a" ++ String Ascii.zero "/b") "l" attrib_clear in
  let w := quiet_world (mkConn 0 1 32768 64 3 1 0)
             [handle_reply 1 "d"; name_reply 2 [e];
              status_reply 3 SSH2_FX_EOF; status_reply 4 SSH2_FX_OK]
             no_local in
  In "/"%char (list_ascii_of_string (filename e)) /\
  fst (do_readdir "/" true w)
  = Done (0, Some [mkDirent "a" "l" attrib_clear]) /\
  w_log (snd (do_readdir "/" true w)) = [].
Proof.
  intros e w. split; [ | split ].
  - cbn. tauto.
  - vm_compute. reflexivity.
  - vm_compute. reflexivity.
Qed.

(** * Directory listing and the interrupt flag *)

Lemma frame_pure P {A} (m : M A) :
  (forall w, P w w) -> (forall w, snd (m w) = w) -> obeys (frame P) m.
Proof.
  intros Hr Hm w. specialize (Hm w). unfold wp, frame.
  destruct (m w) as [[x | |] w']; simpl in Hm; subst; apply Hr.
Qed.

Lemma unchecked_pure r w : snd (unchecked r w) = w.
Proof. destruct r; reflexivity. Qed.

Lemma buffer_get_char_pure m w : snd (buffer_get_char m w) = w.
Proof. destruct m as [| [ | | | | ] ?]; reflexivity. Qed.

Lemma buffer_get_int_pure m w : snd (buffer_get_int m w) = w.
Proof. destruct m as [| [ | | | | ] ?]; reflexivity. Qed.

Lemma buffer_get_string_pure m w : snd (buffer_get_string m w) = w.
Proof. destruct m as [| [ | | | | ] ?]; reflexivity. Qed.

Lemma same_signal_refl w : same_signal w w.
Proof. split; reflexivity. Qed.

Lemma same_signal_trans w1 w2 w3 :
  same_signal w1 w2 -> same_signal w2 w3 -> same_signal w1 w3.
Proof. unfold same_signal. intros [? ?] [? ?]. split; congruence. Qed.

Lemma same_signal_next_msg_id : obeys (frame same_signal) next_msg_id.
Proof. intro w. split; reflexivity. Qed.

Lemma same_signal_send_msg m : obeys (frame same_signal) (send_msg m).
Proof. prim_frame; try (split; reflexivity). Qed.

Lemma same_signal_get_msg : obeys (frame same_signal) get_msg.
Proof. prim_frame; try (split; reflexivity). Qed.

Lemma same_signal_error t x : obeys (frame same_signal) (error t x).
Proof. intro w. split; reflexivity. Qed.

Lemma same_signal_printf l : obeys (frame same_signal) (printf l).
Proof. intro w. split; reflexivity. Qed.

Lemma same_signal_request :
  forall A (f : Z -> Buffer) (k : Z -> M A),
    (forall id, msg_reqid (f id) = Some id) ->
    (forall id, obeys (frame same_signal) (k id)) ->
    obeys (frame same_signal) (id <- next_msg_id ;; send_msg (f id) ;; k id).
Proof.
  apply (frame_request same_signal_trans same_signal_next_msg_id
                       same_signal_send_msg).
Qed.

#[local] Hint Resolve same_signal_get_msg same_signal_error
  same_signal_printf same_signal_request : frames.

Lemma same_signal_get_handle id : obeys (frame same_signal) (get_handle id).
Proof.
  frame_rule (@obeys_get_handle (frame same_signal)) same_signal_refl
             same_signal_trans.
Qed.

Lemma same_signal_do_close handle :
  obeys (frame same_signal) (do_close handle).
Proof.
  frame_rule (@obeys_do_close (frame same_signal)) same_signal_refl
             same_signal_trans.
Qed.

Lemma same_signal_readdir_names path printflag count msg i dir :
  obeys (frame same_signal) (readdir_names path printflag i count msg dir).
Proof.
  frame_rule (@obeys_readdir_names (frame same_signal)) same_signal_refl
             same_signal_trans.
Qed.

Ltac signal_step_as x w1 H :=
  eapply (@wp_frame_step same_signal);
  [ exact same_signal_trans
  | first [ apply same_signal_next_msg_id | apply same_signal_send_msg
          | apply same_signal_get_msg | apply same_signal_error
          | apply same_signal_get_handle | apply same_signal_do_close
          | apply same_signal_readdir_names
          | apply frame_pure;
            [ exact same_signal_refl
            | first [ apply unchecked_pure | apply buffer_get_char_pure
                    | apply buffer_get_int_pure
                    | apply buffer_get_string_pure
                    | intro; reflexivity ] ] ]
  | eassumption
  | intros x w1 H
  | intros ? ? ].

Ltac signal_step :=
  let x := fresh "x" in
  let w1 := fresh "w" in
  let H := fresh "Hsig" in
  signal_step_as x w1 H.

(** One round of the READDIR loop: if it ends in the early [return], the
    flag was read unset and has not been read again. *)
Lemma readdir_body_signal path printflag handle dir w :
  wp (readdir_body path printflag handle dir)
     (fun x w' =>
        w_sigint w' = w_sigint w /\
        match x with
        | Break (LsReturn _ _) => (w_polls w' <= w_sigint w')%nat
        | _ => True
        end)
     (fun _ => True) w.
Proof.
  unfold readdir_body. apply wp_bind. unfold wp at 1, interrupted.
  destruct (w_sigint w <=? w_polls w)%nat eqn:Hi.
  - apply wp_ret. split; [ reflexivity | exact I ].
  - apply Nat.leb_gt in Hi.
    set (w1 := set_polls (S (w_polls w)) w).
    assert (H1 : same_signal w1 w1) by apply same_signal_refl.
    assert (HQ : forall w', same_signal w1 w' ->
                   w_sigint w' = w_sigint w /\
                   (w_polls w' <= w_sigint w')%nat).
    { intros w' [Hs Hp]. rewrite Hs, Hp. simpl. split; [ reflexivity | lia ]. }
    repeat first
      [ signal_step; auto
      | match goal with
        | |- wp (ret _) _ _ _ => apply wp_ret; cbv beta
        | |- wp fatal _ _ _ => exact I
        | |- wp (match ?x with _ => _ end) _ _ _ => destruct x
        | |- _ /\ _ => split; [ apply HQ; assumption | try exact I ]
        end ].
    all: try (apply HQ; assumption).
Qed.

Lemma do_lsreaddir_interrupt path printflag want_dir w :
  wp (do_lsreaddir path printflag want_dir)
     (fun r w' =>
        forall ents,
          snd r = Some ents -> (w_sigint w < w_polls w')%nat -> ents = [])
     (fun _ => True) w.
Proof.
  unfold do_lsreaddir.
  assert (H0 : same_signal w w) by apply same_signal_refl.
  signal_step_as rid w1 H1; auto.
  signal_step_as u w2 H2; auto.
  signal_step_as h w3 H3; auto.
  destruct h as [handle |];
    [ | apply wp_ret; intros ents He; discriminate He ].
  signal_step_as fuel w4 H4; auto.
  destruct H4 as [Hs4 _]. clear H0 H1 H2 H3.
  apply wp_bind.
  eapply wp_mono;
    [ | | apply (@wp_loop _ _
                   (fun (_ : option (list SFTP_DIRENT)) w5 =>
                      w_sigint w5 = w_sigint w)
                   (fun x w5 =>
                      w_sigint w5 = w_sigint w /\
                      match x with
                      | LsReturn _ _ => (w_polls w5 <= w_sigint w5)%nat
                      | LsBreak _ => True
                      end)
                   (fun _ => True)) ].
  - intros [d | st d] w5 [Hs5 Hp5].
    + assert (H5 : same_signal w5 w5) by apply same_signal_refl.
      signal_step_as st6 w6 H6; auto. destruct H6 as [Hs6 _].
      apply wp_bind. unfold wp at 1, interrupted. apply wp_ret.
      intros ents Hents Hlt. cbn [snd w_polls set_polls] in Hents, Hlt.
      destruct d as [ents0 |]; [ | discriminate Hents ].
      rewrite Hs6, Hs5 in Hents.
      destruct (Nat.leb_spec (w_sigint w) (w_polls w6)) as [Hle | Hgt];
        [ congruence | lia ].

    + apply wp_ret. intros ents _ Hlt. rewrite Hs5 in Hp5.
      cbn [snd] in Hlt. lia.
  - intros; exact I.
  - intros; exact I.
  - intros d w5 Hs5.
    eapply wp_mono; [ | | apply readdir_body_signal ];
      [ intros [d' | [d' | st d']] w6 [Hs6 H6];
        [ congruence
        | split; [ congruence | exact I ]
        | split; [ congruence | exact H6 ] ]
      | intros; exact I ].
  - exact Hs4.
Qed.




(** * Download: short reads *)

Lemma update_request_in_place id req req' q :
  find_request id q = Some req ->
  exists q1 q2,
    q = q1 ++ req :: q2 /\
    update_request id req' q = q1 ++ req' :: q2 /\
    Forall (fun r => rq_id r <> id) q1.
Proof.
  unfold find_request. induction q as [| r q IH]; simpl; [ discriminate | ].
  destruct (Z.eqb_spec (rq_id r) id) as [He | Hne]; intro H.
  - injection H as Hr. subst r. exists [], q. repeat split. constructor.
  - destruct (IH H) as [q1 [q2 [E1 [E2 Hf]]]].
    exists (r :: q1), q2. simpl.
    split; [ f_equal; exact E1 | ].
    split; [ f_equal; exact E2 | constructor; assumption ].
Qed.

Lemma send_requests_buflen handle :
  forall fuel s w,
    wp (send_requests fuel handle s) (fun s' _ => d_buflen s' = d_buflen s)
       (fun _ => True) w.
Proof.
  induction fuel as [| f IH]; intros s w; simpl.
  - destruct (d_num_req s <? d_max_req s); [ exact I | reflexivity ].
  - destruct (d_num_req s <? d_max_req s); [ | reflexivity ].
    apply wp_any; [ intros id w1 | auto ].
    apply wp_any; [ intros _ w2 | auto ].
    eapply wp_mono; [ | | apply IH ]; [ intros s' w3 H; exact H | trivial ].
Qed.

Lemma download_window_buflen n size s :
  d_buflen (download_window n size s) = d_buflen s.
Proof.
  unfold download_window.
  destruct (d_max_req s >? 0); [ | reflexivity ].
  destruct ((size >? 0) && (d_offset s >? size)); [ reflexivity | ].
  destruct (d_max_req s <=? n); reflexivity.
Qed.

Lemma download_data_buflen size handle req msg s w :
  wp (download_data size handle req msg s) (fun s' _ => buflen_step s s')
     (fun _ => True) w.
Proof.
  unfold download_data.
  apply wp_bind. destruct msg as [| [ | | | data | ] rest]; try exact I.
  apply wp_ret. cbv beta iota.
  destruct (strlen data >? rq_len req); [ exact I | ].
  apply wp_any; [ intros e w1 | auto ].
  set (s1 := if negb (e =? 0) && negb (d_write_error s) then _ else s).
  assert (Hs1 : d_buflen s1 = d_buflen s).
  { unfold s1. destruct (negb (e =? 0) && negb (d_write_error s));
      reflexivity. }
  apply wp_bind.
  destruct (strlen data =? rq_len req).
  - apply wp_ret. apply wp_any; [ intros c w2 | auto ]. apply wp_ret.
    unfold buflen_step. rewrite download_window_buflen. left. exact Hs1.
  - apply wp_any; [ intros id w2 | auto ].
    apply wp_any; [ intros _ w3 | auto ].
    apply wp_ret. apply wp_any; [ intros c w4 | auto ]. apply wp_ret.
    unfold buflen_step.
    rewrite download_window_buflen. cbn [d_buflen]. rewrite Hs1.
    destruct (Z.ltb_spec (strlen data) (d_buflen s)) as [Hlt | Hge].
    + right. exists (strlen data). split; [ exact Hlt | reflexivity ].
    + left. reflexivity.
Qed.

Lemma download_body_buflen size handle s w :
  wp (download_body size handle s)
     (fun x _ =>
        match x with
        | Continue s' => buflen_step s s'
        | Break s' => d_buflen s' = d_buflen s
        end)
     (fun _ => True) w.
Proof.
  unfold download_body.
  destruct ((d_num_req s >? 0) || (d_max_req s >? 0)); [ | reflexivity ].
  apply wp_any; [ intros intr w1 | auto ].
  destruct (intr && (d_num_req s =? 0)); [ reflexivity | ].
  apply wp_bind.
  eapply wp_mono; [ | | apply send_requests_buflen ]; [ | trivial ].
  intros s1 w2 Hs1. cbv beta.
  assert (Hb : d_buflen s1 = d_buflen s).
  { rewrite Hs1. destruct intr; reflexivity. }
  clear Hs1.
  apply wp_any; [ intros r w3 | auto ].
  apply wp_any; [ intros msg w4 | auto ].
  apply wp_any; [ intros [type msg1] w5 | auto ].
  apply wp_any; [ intros [id msg2] w6 | auto ].
  destruct (find_request id (d_requests s1)) as [req |]; [ | exact I ].
  destruct (type =? SSH2_FXP_STATUS).
  - apply wp_bind. unfold download_status. apply wp_any; [ | auto ].
    intros [status ?] w7. apply wp_ret. apply wp_ret. left. exact Hb.
  - destruct (type =? SSH2_FXP_DATA); [ | exact I ].
    apply wp_bind.
    eapply wp_mono; [ | | apply download_data_buflen ]; [ | trivial ].
    intros s2 w7 H. apply wp_ret. unfold buflen_step in *.
    rewrite <- Hb. exact H.
Qed.

Lemma local_write_frame o d w :
  exists e w1,
    local_write o d w = (Done e, w1) /\
    w_conn w1 = w_conn w /\ w_out w1 = w_out w.
Proof.
  unfold local_write. destruct (lf_wres (w_local w)) as [| e rest].
  - eexists. eexists. split; [ reflexivity | split; reflexivity ].
  - destruct (e =? 0); eexists; eexists;
      (split; [ reflexivity | split; reflexivity ]).
Qed.

Lemma download_window_fields n size s :
  d_requests (download_window n size s) = d_requests s /\
  d_num_req (download_window n size s) = d_num_req s.
Proof.
  unfold download_window.
  destruct (d_max_req s >? 0); [ | split; reflexivity ].
  destruct ((size >? 0) && (d_offset s >? size)); [ split; reflexivity | ].
  destruct (d_max_req s <=? n); split; reflexivity.
Qed.

(** A DATA reply shorter than the request: the rest of the range is asked
    for again under the next message id and the queue entry is
    overwritten. *)
Lemma download_data_short size handle req data s w :
  strlen data < rq_len req ->
  let req' :=
    mkReq (msg_id (w_conn w)) (u32 (rq_len req - strlen data))
          (u64 (rq_offset req + strlen data)) in
  let msg :=
    [Fchar SSH2_FXP_READ; Fint (rq_id req'); Fstring handle;
     Fint64 (rq_offset req'); Fint (rq_len req')] in
  buffer_len msg <= SFTP_MAX_MSG_LENGTH ->
  exists s' w',
    download_data size handle req [Fstring data] s w = (Done s', w') /\
    w_out w' = w_out w ++ [msg] /\
    msg_id (w_conn w') = u32 (msg_id (w_conn w) + 1) /\
    d_requests s' = update_request (rq_id req) req' (d_requests s) /\
    d_num_req s' = d_num_req s /\
    d_buflen s'
    = (if strlen data <? d_buflen s then Z.max MIN_READ_SIZE (strlen data)
       else d_buflen s).
Proof.
  intros Hshort req' msg Hlen.
  unfold download_data. unfold bind at 1. cbn [buffer_get_string ret].
  destruct (Z.gtb_spec (strlen data) (rq_len req)) as [Hgt | _]; [ lia | ].
  destruct (local_write_frame (rq_offset req) data w)
    as [e [w1 [Hw [Hc Ho]]]].
  unfold bind at 1. rewrite Hw.
  destruct (Z.eqb_spec (strlen data) (rq_len req)) as [Heq | _]; [ lia | ].
  unfold bind at 1. unfold bind at 1. unfold next_msg_id.
  unfold bind at 1. unfold send_read_request, send_msg.
  cbn [w_conn set_conn rq_id rq_len rq_offset]. rewrite Hc. fold req'.
  change [Fchar SSH2_FXP_READ; Fint (msg_id (w_conn w)); Fstring handle;
          Fint64 (u64 (rq_offset req + strlen data));
          Fint (u32 (rq_len req - strlen data))] with msg.
  destruct (Z.gtb_spec (buffer_len msg) SFTP_MAX_MSG_LENGTH) as [Hgt | _];
    [ lia | ].
  unfold ret, bind, get_conn. cbn [w_conn set_conn set_out w_out].
  eexists. eexists. split; [ reflexivity | ].
  rewrite Ho, download_window_buflen.
  match goal with
  | |- context [download_window ?n ?sz ?st] =>
      destruct (download_window_fields n sz st) as [Hr Hn]; rewrite Hr, Hn
  end.
  cbn [d_requests d_num_req d_buflen set_msg_id msg_id].
  repeat split;
    destruct (negb (e =? 0) && negb (d_write_error s)); reflexivity.
Qed.

Lemma download_reach_buflen size handle c0 c :
  download_reach size handle c0 c ->
  MIN_READ_SIZE <= d_buflen (fst c0) ->
  MIN_READ_SIZE <= d_buflen (fst c) <= d_buflen (fst c0).
Proof.
  intros Hr H0. induction Hr as [| s w s' w' Hr IH Hb].
  - lia.
  - generalize (@wp_run _ _ _ _ _ _ _ (download_body_buflen size handle s w)
                  Hb).
    cbn [fst] in *. unfold buflen_step, MIN_READ_SIZE in *.
    intros [He | [len [Hl He]]]; rewrite He; lia.
Qed.

(** C2 (as amended): for every DATA reply carrying [len] bytes with
    [len < req.len], the client sends one READ request for the tail
    [[req.offset + len, req.offset + req.len)] under the next message id
    and overwrites the queue entry where it stands; [buflen] becomes
    [max(512, len)] if [len < buflen] and is unchanged otherwise.  Provided
    the download starts with a [buflen] of at least 512, [buflen] never
    grows and never drops below 512 in any later round. *)
Theorem download_short_read_reissues_tail :
  (forall size handle req data s w,
     find_request (rq_id req) (d_requests s) = Some req ->
     strlen data < rq_len req ->
     let req' :=
       mkReq (msg_id (w_conn w)) (u32 (rq_len req - strlen data))
             (u64 (rq_offset req + strlen data)) in
     let msg :=
       [Fchar SSH2_FXP_READ; Fint (rq_id req'); Fstring handle;
        Fint64 (rq_offset req'); Fint (rq_len req')] in
     buffer_len msg <= SFTP_MAX_MSG_LENGTH ->
     exists s' w' q1 q2,
       download_data size handle req [Fstring data] s w = (Done s', w') /\
       w_out w' = w_out w ++ [msg] /\
       msg_id (w_conn w') = u32 (msg_id (w_conn w) + 1) /\
       d_requests s = q1 ++ req :: q2 /\
       d_requests s' = q1 ++ req' :: q2 /\
       d_num_req s' = d_num_req s /\
       d_buflen s'
       = (if strlen data <? d_buflen s
          then Z.max MIN_READ_SIZE (strlen data) else d_buflen s) /\
       (0 <= rq_len req < 2 ^ 32 ->
        0 <= rq_offset req -> rq_offset req + rq_len req < 2 ^ 64 ->
        rq_offset req' = rq_offset req + strlen data /\
        rq_offset req' + rq_len req' = rq_offset req + rq_len req)) /\
  (forall size handle c0 c,
     download_reach size handle c0 c ->
     MIN_READ_SIZE <= d_buflen (fst c0) ->
     MIN_READ_SIZE <= d_buflen (fst c) <= d_buflen (fst c0)).
Proof.
  split; [ | exact download_reach_buflen ].
  intros size handle req data s w Hfind Hshort req' msg Hlen.
  destruct (@download_data_short size handle req data s w Hshort Hlen)
    as [s' [w' [Hrun [Hout [Hid [Hq [Hn Hb]]]]]]].
  destruct (@update_request_in_place (rq_id req) req req' (d_requests s) Hfind)
    as [q1 [q2 [E1 [E2 _]]]].
  exists s', w', q1, q2.
  split; [ exact Hrun | ]. split; [ exact Hout | ].
  split; [ exact Hid | ]. split; [ exact E1 | ].
  split; [ rewrite Hq; exact E2 | ]. split; [ exact Hn | ].
  split; [ exact Hb | ].
  intros Hl Ho Hsum.
  assert (0 <= strlen data) by (unfold strlen; lia).
  unfold req'. cbn [rq_offset rq_len]. unfold u32, u64.
  rewrite !Z.mod_small by lia. lia.
Qed.

Lemma download_short_read_reissues_tail_witness :
  (exists s' w',
     download_data 0 "h" (mkReq 1 1024 0) [Fstring (block 600)]
       (mkDl 0 false false 0 1024 1024 1 1 [mkReq 1 1024 0])
       (quiet_world (mkConn 0 1 1024 4 3 2 0) [] no_local)
     = (Done s', w') /\
     d_buflen s' = 600 /\
     w_out w' = [[Fchar SSH2_FXP_READ; Fint 2; Fstring "h"; Fint64 600;
                  Fint 424]]) /\
  match fst (download_body 0 "h" (download_start 1024)
               (quiet_world (mkConn 0 1 1024 4 3 1 0)
                            [data_reply 1 (block 600)] no_local)) with
  | Done (Continue s1) => MIN_READ_SIZE <= d_buflen s1 <= 1024
  | _ => False
  end.
Proof.
  destruct download_short_read_reissues_tail as [HA HB]. split.
  - destruct (HA 0 "h" (mkReq 1 1024 0) (block 600)
                (mkDl 0 false false 0 1024 1024 1 1 [mkReq 1 1024 0])
                (quiet_world (mkConn 0 1 1024 4 3 2 0) [] no_local))
      as [s' [w' [q1 [q2 [Hrun [Hout [_ [_ [_ [_ [Hb _]]]]]]]]]]].
    + reflexivity.
    + vm_compute. reflexivity.
    + vm_compute. discriminate.
    + exists s', w'. split; [ exact Hrun | ]. split.
      * rewrite Hb. vm_compute. reflexivity.
      * rewrite Hout. vm_compute. reflexivity.
  - run_as E (download_body 0 "h" (download_start 1024)
                (quiet_world (mkConn 0 1 1024 4 3 1 0)
                             [data_reply 1 (block 600)] no_local)).
    rewrite E. cbn [fst].
    match type of E with
    | _ = (Done (Continue ?s1), ?w1) =>
        exact (HB 0 "h" (download_start 1024, _) (s1, w1)
                  (reach_round (reach_start _ _ _) E)
                  ltac:(vm_compute; discriminate))
    end.
Defined.

(** The claim as first stated fails when the transfer buffer length is
    below 512: a short read of 50 bytes raises [buflen] from 100 to 512. *)
Lemma short_read_raises_small_buflen :
  exists c,
    download_reach 0 "h"
      (download_start 100,
       quiet_world (mkConn 0 1 100 4 3 1 0) [data_reply 1 (block 50)]
                   no_local) c /\
    d_buflen (download_start 100) = 100 /\
    d_buflen (fst c) = 512.
Proof.
  run_as E (download_body 0 "h" (download_start 100)
              (quiet_world (mkConn 0 1 100 4 3 1 0)
                           [data_reply 1 (block 50)] no_local)).
  match type of E with
  | _ = (Done (Continue ?s1), ?w1) => exists (s1, w1)
  end.
  split; [ exact (reach_round (reach_start _ _ _) E) | ].
  split; reflexivity.
Qed.

(** * The window of the download and the numbering of the upload *)

(** C1 (the code departs from the claim): with [num_requests = 1] the
    first DATA reply raises [max_req] from 1 to 2, because the test is
    [max_req <= conn->num_requests], and the next round then has two read
    requests outstanding. *)
Theorem download_window_exceeds_num_requests :
  let w0 := quiet_world (mkConn 0 1 4 1 3 1 0) [data_reply 1 "abcd"]
                        no_local in
  exists s1 w1 s2 w2,
    download_body 0 "h" (download_start 4) w0 = (Done (Continue s1), w1) /\
    send_requests (Z.to_nat (d_max_req s1 - d_num_req s1)) "h" s1 w1
    = (Done s2, w2) /\
    num_requests (w_conn w2) = 1 /\
    d_max_req s1 = 2 /\
    d_num_req s2 = 2 /\
    d_requests s2 = [mkReq 2 4 4; mkReq 3 4 8].
Proof.
  intro w0.
  run_as E1 (download_body 0 "h" (download_start 4) w0).
  match type of E1 with
  | _ = (Done (Continue ?s1), ?w1) =>
      run_as E2 (send_requests (Z.to_nat (d_max_req s1 - d_num_req s1))
                               "h" s1 w1);
      match type of E2 with
      | _ = (Done ?s2, ?w2) => exists s1, w1, s2, w2
      end
  end.
  split; [ exact E1 | ]. split; [ exact E2 | ].
  repeat split; reflexivity.
Qed.

(** C4 (the code departs from the claim): on a fresh connection an upload
    of one block sends OPEN with id 1, WRITE with id 2 and CLOSE with id 2
    again: the WRITE ids come from a local counter that is never stored
    back into [conn->msg_id]. *)
Theorem upload_reuses_message_id :
  let w0 := quiet_world no_conn
              [version_reply 3 []; handle_reply 1 "h"; status_reply 2 0;
               status_reply 2 0]
              (regular_file ["hello"]) in
  let w' := snd ((c <- do_init 0 1 32768 2 ;;
                  do_upload "notes.txt" "/home/me/notes.txt" None false)
                   w0) in
  map msg_type (w_out w')
  = [Some SSH2_FXP_INIT; Some SSH2_FXP_OPEN; Some SSH2_FXP_WRITE;
     Some SSH2_FXP_CLOSE] /\
  map msg_reqid (tl (w_out w')) = [Some 1; Some 2; Some 2] /\
  msg_id (w_conn w') = 3.
Proof. vm_compute. repeat split; reflexivity. Qed.

(** * Numbering of the requests *)

Lemma id_seq_app start n1 n2 :
  id_seq start (n1 + n2) = id_seq start n1 ++ id_seq (id_after start n1) n2.
Proof.
  revert start. induction n1 as [| k IH]; intro start; simpl.
  - reflexivity.
  - now rewrite IH.
Qed.

Lemma id_after_add start n1 n2 :
  id_after start (n1 + n2) = id_after (id_after start n1) n2.
Proof.
  revert start. induction n1 as [| k IH]; intro start; simpl.
  - reflexivity.
  - apply IH.
Qed.

Lemma numbered_refl w : numbered true w w.
Proof.
  exists []. split; [ now rewrite app_nil_r | ]. split; reflexivity.
Qed.

Lemma numbered_cut w w' : numbered true w w' -> numbered false w w'.
Proof.
  intros [new [H1 [H2 _]]]. exists new. split; [ exact H1 | ].
  split; [ exact H2 | discriminate ].
Qed.

Lemma numbered_trans b w1 w2 w3 :
  numbered true w1 w2 -> numbered b w2 w3 -> numbered b w1 w3.
Proof.
  intros [n1 [Ho1 [Hi1 Hm1]]] [n2 [Ho2 [Hi2 Hm2]]].
  specialize (Hm1 eq_refl). exists (n1 ++ n2).
  split; [ now rewrite Ho2, Ho1, app_assoc | ].
  rewrite length_app, id_seq_app, id_after_add, !map_app, Hi1, <- Hm1, Hi2.
  split; [ reflexivity | ]. intro Hb. rewrite (Hm2 Hb). reflexivity.
Qed.

(** A command that leaves the outbound stream and the connection alone. *)
Lemma numbered_silent {A} (m : M A) :
  (forall w, w_out (snd (m w)) = w_out w /\ w_conn (snd (m w)) = w_conn w) ->
  obeys numbered m.
Proof.
  intros H w. destruct (H w) as [Ho Hc]. unfold wp.
  destruct (m w) as [[x | |] w']; simpl in Ho, Hc;
    (exists []; rewrite app_nil_r, Hc;
     split; [ exact Ho | split; [ reflexivity | intros _; reflexivity ] ]).
Qed.

Lemma numbered_request :
  forall A (f : Z -> Buffer) (k : Z -> M A),
    (forall id, msg_reqid (f id) = Some id) ->
    (forall id, obeys numbered (k id)) ->
    obeys numbered (id <- next_msg_id ;; send_msg (f id) ;; k id).
Proof.
  intros A f k Hf Hk w. unfold wp, bind, next_msg_id, send_msg.
  set (id := msg_id (w_conn w)).
  destruct (buffer_len (f id) >? SFTP_MAX_MSG_LENGTH).
  - exists []. simpl. rewrite app_nil_r.
    split; [ reflexivity | split; [ reflexivity | discriminate ] ].
  - set (w2 := set_out _ _).
    assert (H12 : numbered true w w2).
    { exists [f id]. split; [ reflexivity | ]. simpl. rewrite Hf.
      split; reflexivity. }
    generalize (Hk id w2). unfold wp.
    destruct (k id w2) as [[x | |] w3]; intro H23;
      exact (numbered_trans H12 H23).
Qed.

Lemma numbered_get_msg : obeys numbered get_msg.
Proof.
  apply numbered_silent. intro w. unfold get_msg.
  destruct (w_in w); [ split; reflexivity | ].
  destruct (_ >? _); split; reflexivity.
Qed.

Lemma numbered_error t x : obeys numbered (error t x).
Proof. apply numbered_silent. intro w. split; reflexivity. Qed.

Lemma numbered_printf l : obeys numbered (printf l).
Proof. apply numbered_silent. intro w. split; reflexivity. Qed.

Lemma numbered_interrupted : obeys numbered interrupted.
Proof. apply numbered_silent. intro w. split; reflexivity. Qed.

Lemma numbered_local_write o d : obeys numbered (local_write o d).
Proof.
  apply numbered_silent. intro w.
  destruct (local_write_frame o d w) as [e [w1 [E [Hc Ho]]]].
  rewrite E. split; assumption.
Qed.

Lemma numbered_fchmod mode : obeys numbered (fchmod mode).
Proof.
  apply numbered_silent. intro w. unfold fchmod.
  destruct (lf_chmod_ok (w_local w)); split; reflexivity.
Qed.

Lemma numbered_use_local f : obeys numbered (use_local f).
Proof. apply numbered_silent. intro w. split; reflexivity. Qed.

#[local] Hint Resolve numbered_request numbered_get_msg numbered_error
  numbered_printf numbered_interrupted numbered_local_write numbered_fchmod
  : frames.

(** Instantiating a rule of section [Rules] at [numbered]. *)
Ltac numbered_rule L :=
  intros; apply L;
  [ exact numbered_refl | exact numbered_cut | exact numbered_trans | .. ];
  eauto with frames nocore.

Lemma numbered_run_operation o : obeys numbered (run_operation o).
Proof.
  assert (Hret : forall A (x : A), obeys numbered (ret tt))
    by (intros A x w; apply numbered_refl).
  destruct o; cbn [run_operation];
    (apply (obeys_bind numbered_trans); [ | try exact (@Hret _) ]).
  - numbered_rule (@obeys_do_close numbered).
  - numbered_rule (@obeys_do_rm numbered).
  - numbered_rule (@obeys_do_mkdir numbered).
  - numbered_rule (@obeys_do_rmdir numbered).
  - numbered_rule (@obeys_do_stat numbered).
  - numbered_rule (@obeys_do_lstat numbered).
  - numbered_rule (@obeys_do_setstat numbered).
  - numbered_rule (@obeys_do_fsetstat numbered).
  - numbered_rule (@obeys_do_realpath numbered).
  - numbered_rule (@obeys_do_rename numbered).
  - numbered_rule (@obeys_do_symlink numbered).
  - numbered_rule (@obeys_do_statvfs numbered).
  - numbered_rule (@obeys_do_readdir numbered).
  - apply numbered_use_local.
  - intros _. apply (obeys_bind numbered_trans); [ | exact (@Hret _) ].
    numbered_rule (@obeys_do_download numbered).
Qed.

Lemma numbered_run_operations ops : obeys numbered (run_operations ops).
Proof.
  induction ops as [| o rest IH]; simpl.
  - intro w. apply numbered_refl.
  - apply (obeys_bind numbered_trans);
      [ apply numbered_run_operation | intros _; exact IH ].
Qed.

Lemma id_seq_nth n :
  forall start k,
    0 <= start < 2 ^ 32 -> (k < n)%nat ->
    nth_error (id_seq start n) k = Some (u32 (start + Z.of_nat k)).
Proof.
  induction n as [| n IH]; intros start k Hs Hk; [ lia | ].
  destruct k as [| k]; simpl id_seq; cbn [nth_error].
  - unfold u32. rewrite Z.add_0_r, Z.mod_small by exact Hs. reflexivity.
  - rewrite IH; [ | unfold u32; apply Z.mod_pos_bound; lia | lia ].
    f_equal. unfold u32. rewrite Zplus_mod_idemp_l. f_equal. lia.
Qed.

(** What the handshake does in every case. *)
Lemma do_init_result fdi fdo buflen nreq w :
  let r := do_init fdi fdo buflen nreq w in
  w_out (snd r)
  = w_out w ++ [[Fchar SSH2_FXP_INIT; Fint SSH2_FILEXFER_VERSION]] /\
  forall c,
    fst r = Done (Some c) ->
    w_conn (snd r) = c /\
    msg_id c = 1 /\ num_requests c = nreq /\
    fd_in c = fdi /\ fd_out c = fdo /\
    transfer_buflen c
    = (if version c =? 0 then Z.min buflen 20480 else buflen).
Proof.
  unfold do_init, bind, send_msg, get_msg. simpl.
  destruct (w_in w) as [| m rest]; simpl; [ split; [ reflexivity | ];
    intros ? Hc; discriminate Hc | ].
  destruct (buffer_len m >? SFTP_MAX_MSG_LENGTH); simpl;
    [ split; [ reflexivity | ]; intros ? Hc; discriminate Hc | ].
  destruct m as [| [ch | | | | ] m]; simpl;
    try (split; [ reflexivity | ]; intros ? Hc; discriminate Hc).
  destruct (negb (ch mod 256 =? SSH2_FXP_VERSION)); simpl;
    [ split; [ reflexivity | ]; intros ? Hc; discriminate Hc | ].
  destruct m as [| [ | v | | | ] m]; simpl;
    try (split; [ reflexivity | ]; intros ? Hc; discriminate Hc).
  destruct (init_extensions m 0) as [e |]; simpl;
    [ | split; [ reflexivity | ]; intros ? Hc; discriminate Hc ].
  split; [ reflexivity | ]. intros c0 H. injection H as <-. simpl.
  repeat split; reflexivity.
Qed.

(** X1.  Every request of a session that uses any of the operations but
    the upload carries its rank as id: the INIT message comes first, and
    the request number [k + 1] after it carries the id [k + 1] (modulo
    [2^32]), whatever the server answers. *)
Theorem session_requests_numbered
    (fdi fdo buflen nreq : Z) (ops : list operation) (w : world) :
  w_out w = [] ->
  let w' := snd (session fdi fdo buflen nreq ops w) in
  hd_error (w_out w') = Some [Fchar SSH2_FXP_INIT; Fint SSH2_FILEXFER_VERSION]
  /\
  forall k m,
    nth_error (tl (w_out w')) k = Some m ->
    msg_reqid m = Some (u32 (Z.of_nat k + 1)).
Proof.
  intros Hw w'.
  destruct (do_init_result fdi fdo buflen nreq w) as [Hout Hc].
  rewrite Hw in Hout. simpl app in Hout.
  unfold w', session, bind.
  destruct (do_init fdi fdo buflen nreq w) as [[[c |] | |] w2] eqn:E;
    unfold ret; cbn [fst snd] in Hout, Hc |- *;
    try (rewrite Hout; split; [ reflexivity | ];
         intros [| k] m H; discriminate H).
  destruct (Hc c eq_refl) as [Hconn [Hid _]].
  generalize (numbered_run_operations ops w2). unfold wp.
  destruct (run_operations ops w2) as [r w3]. cbn [snd].
  intro H.
  assert (Hn : exists b, numbered b w2 w3).
  { destruct r; [ exists true | exists false | exists false ]; exact H. }
  destruct Hn as [b [new [Ho [Hi _]]]].
  rewrite Ho, Hout. cbn [app hd_error tl]. split; [ reflexivity | ].
  intros k m Hk. rewrite Hconn, Hid in Hi.
  assert (Hlt : (k < List.length new)%nat).
  { apply nth_error_Some. rewrite Hk. discriminate. }
  assert (Hm : nth_error (map msg_reqid new) k = Some (msg_reqid m)).
  { rewrite nth_error_map, Hk. reflexivity. }
  assert (Hr : 0 <= 1 < 2 ^ 32) by (split; [ lia | reflexivity ]).
  rewrite Hi, nth_error_map, id_seq_nth in Hm
    by first [ exact Hlt | exact Hr ].
  rewrite (Z.add_comm (Z.of_nat k) 1).
  change (Some (Some (u32 (1 + Z.of_nat k))) = Some (msg_reqid m)) in Hm.
  congruence.
Qed.

Lemma session_requests_numbered_witness :
  let w0 := quiet_world no_conn
              [version_reply 3 []; attrs_reply 1 attrib_clear;
               status_reply 2 0; handle_reply 3 "d";
               status_reply 4 SSH2_FX_EOF; status_reply 5 0] no_local in
  let ops := [OpStat "/a" false; OpRm "/a"; OpReaddir "/" true] in
  map msg_type (tl (w_out (snd (session 0 1 32768 64 ops w0))))
  = [Some SSH2_FXP_STAT; Some SSH2_FXP_REMOVE; Some SSH2_FXP_OPENDIR;
     Some SSH2_FXP_READDIR; Some SSH2_FXP_CLOSE] /\
  msg_reqid [Fchar SSH2_FXP_CLOSE; Fint 5; Fstring "d"]
  = Some (u32 (Z.of_nat 4 + 1)).
Proof.
  intros w0 ops. split; [ vm_compute; reflexivity | ].
  apply (proj2 (@session_requests_numbered 0 1 32768 64 ops w0 eq_refl)).
  vm_compute. reflexivity.
Defined.

(** * Outcomes of the handshake *)

(** X2.  [do_init] writes the INIT message and nothing else.  It returns
    NULL, without aborting, when the inbound stream is closed or when the
    first message is not a VERSION reply.  On a VERSION reply made of a
    version and (name, value) pairs it returns a connection that records
    the version of the reply, starts with [msg_id = 1], has the
    descriptors and [num_requests] it was given, and has the
    [transfer_buflen] it was given unless the version of the reply is 0,
    which caps it at 20480.  Whenever it returns a connection, that is
    the connection installed, with these same fields. *)
Theorem init_outcomes (fdi fdo buflen nreq : Z) (w : world) :
  let r := do_init fdi fdo buflen nreq w in
  w_out (snd r)
  = w_out w ++ [[Fchar SSH2_FXP_INIT; Fint SSH2_FILEXFER_VERSION]] /\
  (w_in w = [] -> fst r = Done None) /\
  (forall t body rest,
     w_in w = (Fchar t :: body) :: rest ->
     buffer_len (Fchar t :: body) <= SFTP_MAX_MSG_LENGTH ->
     t mod 256 <> SSH2_FXP_VERSION ->
     fst r = Done None) /\
  (forall c,
     fst r = Done (Some c) ->
     w_conn (snd r) = c /\
     msg_id c = 1 /\ num_requests c = nreq /\
     fd_in c = fdi /\ fd_out c = fdo /\
     transfer_buflen c
     = (if version c =? 0 then Z.min buflen 20480 else buflen)) /\
  (forall v pairs rest,
     w_in w = version_reply v pairs :: rest ->
     buffer_len (version_reply v pairs) <= SFTP_MAX_MSG_LENGTH ->
     exists c,
       fst r = Done (Some c) /\
       w_in (snd r) = rest /\
       version c = u32 v /\
       transfer_buflen c
       = (if u32 v =? 0 then Z.min buflen 20480 else buflen)).
Proof.
  intro r. destruct (do_init_result fdi fdo buflen nreq w) as [H1 H4].
  split; [ exact H1 | ].
  split; [ | split; [ | split; [ exact H4 | ] ] ].
  - intro Hin. unfold r, do_init, bind, send_msg, get_msg. simpl.
    rewrite Hin. reflexivity.
  - intros t body rest Hin Hlen Ht.
    unfold r, do_init, bind, send_msg, get_msg. simpl. rewrite Hin.
    destruct (Z.gtb_spec (buffer_len (Fchar t :: body)) SFTP_MAX_MSG_LENGTH)
      as [Hgt | _]; [ lia | ].
    simpl. destruct (Z.eqb_spec (t mod 256) SSH2_FXP_VERSION) as [He | _];
      [ contradiction | reflexivity ].
  - intros v pairs rest Hin Hlen.
    destruct (init_extensions_bits pairs 0) as [e [He _]].
    unfold r, do_init, bind, send_msg, get_msg. simpl. rewrite Hin.
    destruct (Z.gtb_spec (buffer_len (version_reply v pairs))
                SFTP_MAX_MSG_LENGTH) as [Hgt | _]; [ lia | ].
    unfold version_reply. simpl. rewrite He.
    eexists. split; [ reflexivity | ]. repeat split.
Qed.

Lemma init_outcomes_witness :
  (fst (do_init 0 1 32768 64 (quiet_world no_conn [] no_local)) = Done None /\
   fst (do_init 0 1 32768 64
          (quiet_world no_conn [status_reply 0 4] no_local)) = Done None) /\
  exists c,
    fst (do_init 0 1 32768 64
           (quiet_world no_conn
              [version_reply 0 [("statvfs@openssh.com", "2")]] no_local))
    = Done (Some c) /\
    version c = 0 /\ transfer_buflen c = 20480 /\ msg_id c = 1 /\
    num_requests c = 64.
Proof.
  split; [ split | ].
  - exact (proj1 (proj2 (@init_outcomes 0 1 32768 64
                           (quiet_world no_conn [] no_local))) eq_refl).
  - refine (proj1 (proj2 (proj2 (@init_outcomes 0 1 32768 64
              (quiet_world no_conn [status_reply 0 4] no_local))))
              SSH2_FXP_STATUS [Fint 0; Fint 4] [] eq_refl _ _).
    + vm_compute. discriminate.
    + vm_compute. discriminate.
  - destruct (@init_outcomes 0 1 32768 64
                (quiet_world no_conn
                   [version_reply 0 [("statvfs@openssh.com", "2")]]
                   no_local)) as [_ [_ [_ [H4 H5]]]].
    destruct (H5 0 [("statvfs@openssh.com", "2")]%string [] eq_refl
                 ltac:(vm_compute; discriminate))
      as [c [Hc [_ [Hv Hb]]]].
    exists c. split; [ exact Hc | ].
    destruct (H4 c Hc) as [_ [Hid [Hn _]]].
    repeat split; assumption.
Defined.

(** * Gating on version and extensions *)

(** X3.  [do_symlink] on a connection below version 3 returns
    SSH2_FX_OP_UNSUPPORTED with one error line, and neither takes a
    message id nor writes or reads anything; from version 3 on it writes
    one SYMLINK request with the next id (nothing when the request is too
    long for a message). *)
Theorem symlink_needs_version_3 (oldpath newpath : string) (w : world) :
  (version (w_conn w) < 3 ->
   do_symlink oldpath newpath w
   = (Done SSH2_FX_OP_UNSUPPORTED,
      set_log (w_log w ++
               [Error "This server does not support the symlink operation"
                      ""]) w)) /\
  (3 <= version (w_conn w) ->
   let req := [Fchar SSH2_FXP_SYMLINK; Fint (msg_id (w_conn w));
               Fstring oldpath; Fstring newpath] in
   w_out (snd (do_symlink oldpath newpath w))
   = w_out w
     ++ (if buffer_len req >? SFTP_MAX_MSG_LENGTH then [] else [req])).
Proof.
  split; intro Hv; [ | intro req ];
    unfold do_symlink; unfold bind at 1; unfold get_conn.
  - destruct (Z.ltb_spec (version (w_conn w)) 3); [ reflexivity | lia ].
  - destruct (Z.ltb_spec (version (w_conn w)) 3); [ lia | ].
    unfold bind at 1, next_msg_id. unfold bind at 1, send_msg at 1.
    fold req. destruct (buffer_len req >? SFTP_MAX_MSG_LENGTH).
    + simpl. now rewrite app_nil_r.
    + unfold bind at 1.
      match goal with
      | |- context [get_status ?i ?w1] =>
          generalize (frame_result (same_out_get_status i) w1);
          destruct (get_status i w1) as [[st | |] w2]
      end; unfold same_out; cbn [snd]; intro Ho;
        try (rewrite Ho; reflexivity).
      destruct (negb (st =? SSH2_FX_OK)); unfold bind, error, ret;
        cbn [snd set_log w_out]; rewrite Ho; reflexivity.
Qed.

Lemma symlink_needs_version_3_witness :
  fst (do_symlink "a" "b"
         (quiet_world (mkConn 0 1 32768 64 2 5 0) [] no_local))
  = Done SSH2_FX_OP_UNSUPPORTED /\
  w_out (snd (do_symlink "a" "b"
                (quiet_world (mkConn 0 1 32768 64 3 5 0) [] no_local)))
  = [[Fchar SSH2_FXP_SYMLINK; Fint 5; Fstring "a"; Fstring "b"]].
Proof.
  split.
  - rewrite (proj1 (@symlink_needs_version_3 "a" "b"
                      (quiet_world (mkConn 0 1 32768 64 2 5 0) [] no_local))
                   ltac:(vm_compute; reflexivity)).
    reflexivity.
  - rewrite (proj2 (@symlink_needs_version_3 "a" "b"
                      (quiet_world (mkConn 0 1 32768 64 3 5 0) [] no_local))
                   ltac:(vm_compute; discriminate)).
    vm_compute. reflexivity.
Defined.

Lemma land_1_cases x : Z.land x 1 = 0 \/ Z.land x 1 = 1.
Proof.
  change 1 with (2 ^ 0). rewrite land_ext_bit by lia.
  destruct (Z.testbit x 0); [ right | left ]; reflexivity.
Qed.

(** X4.  [do_rename] asks for the POSIX rename of the extension exactly
    when [sftp_has_posix_rename] says the server has it, and for the
    plain RENAME otherwise; either way it writes that one request with the
    next id (nothing when the request is too long for a message). *)
Theorem rename_follows_extension (oldpath newpath : string) (w : world) :
  let id := msg_id (w_conn w) in
  let req (posix : bool) :=
    if posix
    then [Fchar SSH2_FXP_EXTENDED; Fint id;
          Fstring "posix-rename@openssh.com";
          Fstring oldpath; Fstring newpath]
    else [Fchar SSH2_FXP_RENAME; Fint id; Fstring oldpath; Fstring newpath]
  in
  exists posix,
    sftp_has_posix_rename w = (Done posix, w) /\
    w_out (snd (do_rename oldpath newpath w))
    = w_out w
      ++ (if buffer_len (req posix) >? SFTP_MAX_MSG_LENGTH then []
          else [req posix]).
Proof.
  intros id req.
  exists (Z.land (exts (w_conn w)) SFTP_EXT_POSIX_RENAME
          =? SFTP_EXT_POSIX_RENAME).
  split; [ reflexivity | ].
  assert (E : has_flag (exts (w_conn w)) SFTP_EXT_POSIX_RENAME
              = (Z.land (exts (w_conn w)) SFTP_EXT_POSIX_RENAME
                 =? SFTP_EXT_POSIX_RENAME)).
  { unfold has_flag, SFTP_EXT_POSIX_RENAME.
    destruct (land_1_cases (exts (w_conn w))) as [H | H]; rewrite H;
      reflexivity. }
  unfold do_rename. unfold bind at 1, next_msg_id. unfold bind at 1, get_conn.
  cbn [w_conn set_conn exts set_msg_id]. rewrite E. fold id.
  destruct (Z.land (exts (w_conn w)) SFTP_EXT_POSIX_RENAME
            =? SFTP_EXT_POSIX_RENAME);
    unfold req; unfold bind at 1, send_msg at 1;
    match goal with
    | |- context [buffer_len ?m >? SFTP_MAX_MSG_LENGTH] =>
        destruct (buffer_len m >? SFTP_MAX_MSG_LENGTH)
    end;
    try (cbn [snd w_out set_conn]; rewrite app_nil_r; reflexivity);
    unfold bind at 1;
    match goal with
    | |- context [get_status ?i ?w1] =>
        generalize (frame_result (same_out_get_status i) w1);
        destruct (get_status i w1) as [[st | |] w2]
    end; unfold same_out; cbn [snd]; intro Ho;
    try (rewrite Ho; reflexivity);
    destruct (negb (st =? SSH2_FX_OK)); unfold bind, error, ret;
    cbn [snd set_log w_out]; rewrite Ho; reflexivity.
Qed.

(** * The parameters of the connection *)

Lemma same_settings_refl w : same_settings w w.
Proof. repeat split. Qed.

Lemma same_settings_trans w1 w2 w3 :
  same_settings w1 w2 -> same_settings w2 w3 -> same_settings w1 w3.
Proof.
  unfold same_settings.
  intros (? & ? & ? & ? & ? & ?) (? & ? & ? & ? & ? & ?).
  repeat split; congruence.
Qed.

Lemma same_settings_next_msg_id : obeys (frame same_settings) next_msg_id.
Proof. intro w. repeat split. Qed.

Lemma same_settings_send_msg m : obeys (frame same_settings) (send_msg m).
Proof. prim_frame; repeat split. Qed.

Lemma same_settings_get_msg : obeys (frame same_settings) get_msg.
Proof. prim_frame; repeat split. Qed.

Lemma same_settings_error t x : obeys (frame same_settings) (error t x).
Proof. intro w. repeat split. Qed.

Lemma same_settings_printf l : obeys (frame same_settings) (printf l).
Proof. intro w. repeat split. Qed.

Lemma same_settings_interrupted : obeys (frame same_settings) interrupted.
Proof. intro w. repeat split. Qed.

Lemma same_settings_local_write o d :
  obeys (frame same_settings) (local_write o d).
Proof. prim_frame; repeat split. Qed.

Lemma same_settings_fchmod mode : obeys (frame same_settings) (fchmod mode).
Proof. prim_frame; repeat split. Qed.

Lemma same_settings_local_read : obeys (frame same_settings) local_read.
Proof. prim_frame; repeat split. Qed.

Lemma same_settings_close_local : obeys (frame same_settings) close_local.
Proof. prim_frame; repeat split. Qed.

Lemma same_settings_use_local f : obeys (frame same_settings) (use_local f).
Proof. intro w. repeat split. Qed.

Lemma same_settings_request :
  forall A (f : Z -> Buffer) (k : Z -> M A),
    (forall id, msg_reqid (f id) = Some id) ->
    (forall id, obeys (frame same_settings) (k id)) ->
    obeys (frame same_settings)
          (id <- next_msg_id ;; send_msg (f id) ;; k id).
Proof.
  apply (frame_request same_settings_trans same_settings_next_msg_id
                       same_settings_send_msg).
Qed.

#[local] Hint Resolve same_settings_get_msg same_settings_error
  same_settings_printf same_settings_interrupted same_settings_local_write
  same_settings_fchmod same_settings_local_read same_settings_close_local
  same_settings_request same_settings_send_msg : frames.

Ltac settings_rule L :=
  frame_rule L same_settings_refl same_settings_trans.

Lemma same_settings_run_operation o :
  obeys (frame same_settings) (run_operation o).
Proof.
  assert (Ht := @frame_trans _ same_settings_trans).
  assert (Hret : forall A (x : A), obeys (frame same_settings) (ret tt))
    by (intros A x w; apply same_settings_refl).
  destruct o; cbn [run_operation];
    (apply (obeys_bind Ht); [ | try exact (@Hret _) ]).
  - settings_rule (@obeys_do_close (frame same_settings)).
  - settings_rule (@obeys_do_rm (frame same_settings)).
  - settings_rule (@obeys_do_mkdir (frame same_settings)).
  - settings_rule (@obeys_do_rmdir (frame same_settings)).
  - settings_rule (@obeys_do_stat (frame same_settings)).
  - settings_rule (@obeys_do_lstat (frame same_settings)).
  - settings_rule (@obeys_do_setstat (frame same_settings)).
  - settings_rule (@obeys_do_fsetstat (frame same_settings)).
  - settings_rule (@obeys_do_realpath (frame same_settings)).
  - settings_rule (@obeys_do_rename (frame same_settings)).
  - settings_rule (@obeys_do_symlink (frame same_settings)).
  - settings_rule (@obeys_do_statvfs (frame same_settings)).
  - settings_rule (@obeys_do_readdir (frame same_settings)).
  - apply same_settings_use_local.
  - intros _. apply (obeys_bind Ht); [ | exact (@Hret _) ].
    settings_rule (@obeys_do_download (frame same_settings)).
Qed.

Lemma same_settings_do_upload local_path remote_path a pflag :
  obeys (frame same_settings) (do_upload local_path remote_path a pflag).
Proof. settings_rule (@obeys_do_upload (frame same_settings)). Qed.

(** X5.  After the handshake nothing touches the parameters of the
    connection: whatever the operations of the client do, and however they
    end (a result, [fatal], an interrupt), the descriptors, the transfer
    buffer length, the request limit, the protocol version and the
    extension flags are what they were; only the message counter moves. *)
Theorem operations_keep_settings :
  (forall ops w, same_settings w (snd (run_operations ops w))) /\
  (forall local_path remote_path a pflag w,
     same_settings w (snd (do_upload local_path remote_path a pflag w))).
Proof.
  split.
  - intros ops. apply frame_result.
    induction ops as [| o rest IH]; cbn [run_operations].
    + intro w. apply same_settings_refl.
    + apply (obeys_bind (@frame_trans _ same_settings_trans));
        [ apply same_settings_run_operation | intros _; exact IH ].
  - intros. apply frame_result. apply same_settings_do_upload.
Qed.

(** * The window of the download *)

Lemma find_request_id id q req :
  find_request id q = Some req -> rq_id req = id /\ In req q.
Proof.
  unfold find_request. intro H. apply find_some in H.
  destruct H as [Hin He]. apply Z.eqb_eq in He. split; assumption.
Qed.

Lemma remove_request_length id q req :
  find_request id q = Some req ->
  S (List.length (remove_request id q)) = List.length q.
Proof.
  unfold find_request. induction q as [| r q IH]; simpl; [ discriminate | ].
  destruct (rq_id r =? id); intro H; [ reflexivity | ].
  simpl. now rewrite IH.
Qed.

Lemma update_request_length id r' q :
  List.length (update_request id r' q) = List.length q.
Proof.
  induction q as [| r q IH]; simpl; [ reflexivity | ].
  destruct (rq_id r =? id); simpl; [ reflexivity | now rewrite IH ].
Qed.

Lemma u32_range x : 0 <= u32 x < 2 ^ 32.
Proof. unfold u32. apply Z.mod_pos_bound. reflexivity. Qed.

Lemma u32_small x : 0 <= x < 2 ^ 32 -> u32 x = x.
Proof. unfold u32. apply Z.mod_small. Qed.

Lemma u32_le x : 0 <= x -> u32 x <= x.
Proof. unfold u32. intro H. apply Z.mod_le; [ exact H | reflexivity ]. Qed.

Lemma pow32_pos : 0 < 2 ^ 32.
Proof. reflexivity. Qed.

Lemma download_window_ok N n size s :
  0 <= N < 2 ^ 32 ->
  n <= N \/ N = 2 ^ 32 - 1 ->
  window_ok N s -> window_ok N (download_window n size s).
Proof.
  intros HN Hlim [Hq [[Hr1 Hr2] [Hm Hn]]]. unfold download_window.
  destruct (d_max_req s >? 0); [ | repeat split; assumption ].
  destruct ((size >? 0) && (d_offset s >? size)).
  - unfold window_ok. cbn [dl_set_max_req d_num_req d_requests d_max_req].
    generalize pow32_pos. repeat split; try assumption; lia.
  - destruct (Z.leb_spec (d_max_req s) n); [ | repeat split; assumption ].
    unfold window_ok. cbn [dl_set_max_req d_num_req d_requests d_max_req].
    generalize (u32_range (d_max_req s + 1)).
    generalize (@u32_le (d_max_req s + 1)).
    repeat split; try assumption; lia.
Qed.

Lemma send_requests_window N handle :
  forall fuel s w,
    window_ok N s ->
    wp (send_requests fuel handle s) (fun s' _ => window_ok N s')
       (fun _ => True) w.
Proof.
  induction fuel as [| f IH]; intros s w Hok; simpl.
  - destruct (d_num_req s <? d_max_req s); [ exact I | exact Hok ].
  - destruct (Z.ltb_spec (d_num_req s) (d_max_req s)) as [Hlt | _];
      [ | exact Hok ].
    apply wp_any; [ intros id w1 | auto ].
    apply wp_any; [ intros _ w2 | auto ].
    apply IH.
    destruct Hok as [Hq [[Hr1 Hr2] [Hm Hn]]]. unfold window_ok.
    cbn [d_num_req d_requests d_max_req].
    rewrite length_app. cbn [List.length].
    assert (0 <= d_num_req s) by lia.
    rewrite u32_small by lia.
    repeat split; try assumption; lia.
Qed.

Lemma same_settings_send_requests handle fuel s :
  obeys (frame same_settings) (send_requests fuel handle s).
Proof.
  apply (@obeys_send_requests (frame same_settings));
    [ apply frame_refl; exact same_settings_refl
    | apply frame_cut
    | apply same_settings_request ].
Qed.

Lemma wp_with_frame P {A} (m : M A) Q F w0 w :
  (forall w1 w2 w3, P w1 w2 -> P w2 w3 -> P w1 w3) ->
  obeys (frame P) m -> P w0 w -> wp m Q F w ->
  wp m (fun a w' => Q a w' /\ P w0 w') F w.
Proof.
  intros Ht Hm H0 H. specialize (Hm w). unfold wp, frame in *.
  destruct (m w) as [[x | |] w1]; try exact H.
  split; [ exact H | eapply Ht; eassumption ].
Qed.

Ltac settings_step_as x w1 H :=
  eapply (@wp_frame_step same_settings);
  [ exact same_settings_trans
  | first [ apply same_settings_next_msg_id | apply same_settings_send_msg
          | apply same_settings_get_msg | apply same_settings_error
          | apply same_settings_interrupted
          | apply same_settings_local_write
          | apply frame_pure;
            [ exact same_settings_refl
            | first [ apply unchecked_pure | apply buffer_get_char_pure
                    | apply buffer_get_int_pure
                    | apply buffer_get_string_pure
                    | intro; reflexivity ] ] ]
  | eassumption
  | intros x w1 H
  | intros; exact I ].

Lemma window_ok_dequeue N s req q :
  0 <= N < 2 ^ 32 ->
  window_ok N s ->
  find_request (rq_id req) (d_requests s) = Some req ->
  forall st we re wn off bl mx,
    mx = d_max_req s \/ mx = 0 ->
    q = remove_request (rq_id req) (d_requests s) ->
    window_ok N (mkDl st we re wn off bl (u32 (d_num_req s - 1)) mx q).
Proof.
  intros HN [Hq [[Hr1 Hr2] [Hm Hn]]] Hf st we re wn off bl mx Hmx ->.
  generalize (remove_request_length _ _ Hf). intro Hl.
  unfold window_ok. cbn [d_num_req d_requests d_max_req].
  rewrite u32_small by lia.
  generalize pow32_pos.
  destruct Hmx as [-> | ->]; repeat split; try assumption; lia.
Qed.

Lemma download_data_window N size handle req msg s w0 w :
  0 <= N < 2 ^ 32 ->
  num_requests (w_conn w0) <= N \/ N = 2 ^ 32 - 1 ->
  same_settings w0 w ->
  window_ok N s ->
  find_request (rq_id req) (d_requests s) = Some req ->
  wp (download_data size handle req msg s)
     (fun s' w' => window_ok N s' /\ same_settings w0 w')
     (fun _ => True) w.
Proof.
  intros HN H0 Hw Hok Hf. unfold download_data.
  apply wp_bind. destruct msg as [| [ | | | data | ] rest]; try exact I.
  apply wp_ret. cbv beta iota.
  destruct (strlen data >? rq_len req); [ exact I | ].
  settings_step_as e w1 H1.
  set (s1 := if negb (e =? 0) && negb (d_write_error s) then _ else s).
  assert (Hok1 : window_ok N s1 /\ d_requests s1 = d_requests s).
  { unfold s1. destruct (negb (e =? 0) && negb (d_write_error s));
      [ | split; [ exact Hok | reflexivity ] ].
    split; [ | reflexivity ].
    destruct Hok as [Hq [[Hr1 Hr2] [Hm Hn]]]. unfold window_ok.
    cbn [d_num_req d_requests d_max_req]. generalize pow32_pos.
    repeat split; try assumption; lia. }
  destruct Hok1 as [Hok1 Hq1]. clearbody s1.
  assert (Hend : forall s2 w2,
            window_ok N s2 -> same_settings w0 w2 ->
            wp (c <- get_conn ;; ret (download_window (num_requests c) size s2))
               (fun s' w' => window_ok N s' /\ same_settings w0 w')
               (fun _ => True) w2).
  { intros s2 w2 Hs2 Hw2. unfold wp, bind, get_conn, ret.
    split; [ | exact Hw2 ].
    destruct Hw2 as (_ & _ & _ & Hn & _).
    apply download_window_ok; [ exact HN | | exact Hs2 ].
    rewrite Hn. exact H0. }
  apply wp_bind.
  destruct (strlen data =? rq_len req).
  - apply wp_ret. apply Hend; [ | exact H1 ].
    apply window_ok_dequeue with (req := req) (s := s1);
      [ exact HN | exact Hok1 | rewrite Hq1; exact Hf | left; reflexivity
      | reflexivity ].
  - settings_step_as nid w2 H2.
    unfold send_read_request.
    settings_step_as u1 w3 H3.
    apply wp_ret. apply Hend; [ | exact H3 ].
    destruct Hok1 as [Hq [[Hr1 Hr2] [Hm Hn]]]. unfold window_ok.
    cbn [d_num_req d_requests d_max_req].
    rewrite update_request_length.
    repeat split; assumption.
Qed.

Lemma download_body_window N size handle s w0 w :
  0 <= N < 2 ^ 32 ->
  num_requests (w_conn w0) <= N \/ N = 2 ^ 32 - 1 ->
  same_settings w0 w ->
  window_ok N s ->
  wp (download_body size handle s)
     (fun x w' =>
        same_settings w0 w' /\
        match x with
        | Continue s' => window_ok N s'
        | Break s' => window_ok N s'
        end)
     (fun _ => True) w.
Proof.
  intros HN H0 Hw Hok. unfold download_body.
  destruct ((d_num_req s >? 0) || (d_max_req s >? 0));
    [ | apply wp_ret; split; assumption ].
  settings_step_as intr w1 H1.
  destruct (intr && (d_num_req s =? 0)); [ apply wp_ret; split; assumption | ].
  set (s1 := if intr then dl_set_max_req 0 s else s).
  assert (Hok1 : window_ok N s1).
  { unfold s1. destruct intr; [ | exact Hok ].
    destruct Hok as [Hq [[Hr1 Hr2] [Hm Hn]]]. unfold window_ok.
    cbn [dl_set_max_req d_num_req d_requests d_max_req].
    generalize pow32_pos. repeat split; try assumption; lia. }
  clearbody s1.
  apply wp_bind.
  eapply wp_mono;
    [ | | apply (@wp_with_frame same_settings _ _ _ _ w0 w1
                   same_settings_trans
                   (same_settings_send_requests handle _ s1) H1
                   (send_requests_window handle _ w1 Hok1)) ];
    [ | trivial ].
  intros s2 w2 [Hok2 H2]. cbv beta.
  settings_step_as r w3 H3.
  settings_step_as msg w4 H4.
  settings_step_as tm w5 H5. destruct tm as [type msg1].
  settings_step_as im w6 H6. destruct im as [rid msg2].
  destruct (find_request rid (d_requests s2)) as [req |] eqn:Hf; [ | exact I ].
  destruct (find_request_id _ _ Hf) as [Hid _]. rewrite <- Hid in Hf.
  destruct (type =? SSH2_FXP_STATUS).
  - apply wp_bind. unfold download_status.
    settings_step_as sm w7 H7. destruct sm as [status msg3].
    apply wp_ret. apply wp_ret. split; [ exact H7 | ].
    apply window_ok_dequeue with (req := req) (s := s2);
      [ exact HN | exact Hok2 | exact Hf | right; reflexivity | reflexivity ].
  - destruct (type =? SSH2_FXP_DATA); [ | exact I ].
    apply wp_bind.
    eapply wp_mono;
      [ | | apply (@download_data_window N size handle req msg2 s2 w0 w6
                     HN H0 H6 Hok2 Hf) ];
      [ | trivial ].
    intros s3 w7 [Hok3 H7]. apply wp_ret. split; assumption.
Qed.

Lemma download_reach_window size handle buflen w c :
  0 <= num_requests (w_conn w) < 2 ^ 32 ->
  download_reach size handle (download_start buflen, w) c ->
  window_ok (num_requests (w_conn w)) (fst c).
Proof.
  intros HN Hr. set (N := num_requests (w_conn w)) in *.
  assert (H : window_ok N (fst c) /\ same_settings w (snd c)).
  { induction Hr as [| s1 w1 s' w' Hr IH Hb].
    - split; [ | apply same_settings_refl ].
      unfold window_ok, download_start.
      cbn [fst d_num_req d_requests d_max_req List.length].
      generalize pow32_pos. repeat split; lia.
    - destruct IH as [Hok Hw]. cbn [fst snd] in *.
      generalize (@wp_run _ _ _ _ _ _ _
                    (@download_body_window N size handle s1 w w1 HN
                       (or_introl (Z.le_refl N)) Hw Hok) Hb).
      intros [H1 H2]. split; assumption. }
  exact (proj1 H).
Qed.

(** X6.  The window of a download stays within bounds.  Let [N] be the
    request limit of the connection, below 2^32.  In every state the loop
    of [do_download] reaches from its start, [num_req] is the length of the
    request queue, and neither [num_req] nor [max_req] exceeds
    [max 1 (N + 1)]; the same holds after the sends with which the next
    round begins, when the queue is longest. *)
Theorem download_window_bounded size handle buflen w c :
  0 <= num_requests (w_conn w) < 2 ^ 32 ->
  download_reach size handle (download_start buflen, w) c ->
  let N := num_requests (w_conn w) in
  window_ok N (fst c) /\
  forall fuel s2 w2,
    send_requests fuel handle (fst c) (snd c) = (Done s2, w2) ->
    window_ok N s2.
Proof.
  intros HN Hr N.
  assert (Hok := @download_reach_window size handle buflen w c HN Hr).
  split; [ exact Hok | ].
  intros fuel s2 w2 E.
  exact (@wp_run _ _ _ _ _ _ _
           (@send_requests_window N handle fuel (fst c) (snd c) Hok) E).
Qed.

Lemma download_window_bounded_witness :
  let w :=
    mkWorld (mkConn 0 1 4 2 3 7 0) []
            [data_reply 7 (block 4)] 1000 0 [] no_local in
  exists c,
    download_reach 100000 "h" (download_start 4, w) c /\
    d_max_req (fst c) = 2 /\
    window_ok 2 (fst c).
Proof.
  intro w.
  run_as E (download_body 100000 "h" (download_start 4) w).
  eexists (_, _). split; [ | split ].
  - eapply reach_round; [ apply reach_start | exact E ].
  - reflexivity.
  - refine (proj1 (@download_window_bounded 100000 "h" 4 w _ _ _)).
    + cbn [w w_conn num_requests]. split; [ discriminate | reflexivity ].
    + eapply reach_round; [ apply reach_start | exact E ].
Defined.

(** * Termination *)

Lemma total_ret {A} (x : A) : total (ret x).
Proof. intro w. discriminate. Qed.

Lemma total_fatal {A} : total (@fatal A).
Proof. intro w. discriminate. Qed.

Lemma total_bind {A B} (m : M A) (k : A -> M B) :
  total m -> (forall x, total (k x)) -> total (bind m k).
Proof.
  intros Hm Hk w. specialize (Hm w). unfold bind.
  destruct (m w) as [[x | |] w1]; cbn [fst] in *;
    [ apply Hk | discriminate | congruence ].
Qed.

Ltac prim_total :=
  intros; intro;
  unfold next_msg_id, send_msg, get_msg, error, printf, interrupted,
    get_conn, inbound_left, fstat, upload_fuel, local_write, fchmod,
    local_read, close_local, unchecked, buffer_get_char, buffer_get_int,
    buffer_get_int64, buffer_get_string, decode_attrib, ret, fatal;
  repeat match goal with
         | |- context [match ?x with _ => _ end] =>
             lazymatch x with
             | context [match _ with _ => _ end] => fail
             | _ => destruct x
             end
         end;
  discriminate.

Lemma total_next_msg_id : total next_msg_id.
Proof. prim_total. Qed.
Lemma total_send_msg m : total (send_msg m).
Proof. prim_total. Qed.
Lemma total_get_msg : total get_msg.
Proof. prim_total. Qed.
Lemma total_error t x : total (error t x).
Proof. prim_total. Qed.
Lemma total_printf l : total (printf l).
Proof. prim_total. Qed.
Lemma total_interrupted : total interrupted.
Proof. prim_total. Qed.
Lemma total_get_conn : total get_conn.
Proof. prim_total. Qed.
Lemma total_fstat : total fstat.
Proof. prim_total. Qed.
Lemma total_local_write o d : total (local_write o d).
Proof. prim_total. Qed.
Lemma total_fchmod mode : total (fchmod mode).
Proof. prim_total. Qed.
Lemma total_local_read : total local_read.
Proof. prim_total. Qed.
Lemma total_close_local : total close_local.
Proof. prim_total. Qed.
Lemma total_unchecked r : total (unchecked r).
Proof. prim_total. Qed.
Lemma total_buffer_get_char m : total (buffer_get_char m).
Proof. prim_total. Qed.
Lemma total_buffer_get_int m : total (buffer_get_int m).
Proof. prim_total. Qed.
Lemma total_buffer_get_int64 m : total (buffer_get_int64 m).
Proof. prim_total. Qed.
Lemma total_buffer_get_string m : total (buffer_get_string m).
Proof. prim_total. Qed.
Lemma total_decode_attrib m : total (decode_attrib m).
Proof. prim_total. Qed.

Create HintDb totals discriminated.

#[local] Hint Resolve total_next_msg_id total_send_msg total_get_msg
  total_error total_printf total_interrupted total_get_conn total_fstat
  total_local_write total_fchmod total_local_read total_close_local
  total_unchecked total_buffer_get_char total_buffer_get_int
  total_buffer_get_int64 total_buffer_get_string total_decode_attrib
  : totals.

Ltac total_auto :=
  repeat first
    [ apply total_ret | apply total_fatal
    | solve [ auto with totals nocore ]
    | lazymatch goal with
      | |- total (bind _ _) => apply total_bind; [ | intro ]
      | |- total (if ?b then _ else _) => destruct b
      | |- total (match ?x with _ => _ end) => destruct x
      end ].

Lemma total_get_status id : total (get_status id).
Proof. unfold get_status. total_auto. Qed.

Lemma total_get_handle id : total (get_handle id).
Proof. unfold get_handle. total_auto. Qed.

Lemma total_get_decode_stat id quiet : total (get_decode_stat id quiet).
Proof. unfold get_decode_stat. total_auto. Qed.

#[local] Hint Resolve total_get_status total_get_handle
  total_get_decode_stat : totals.

Lemma total_do_close handle : total (do_close handle).
Proof. unfold do_close. total_auto. Qed.

Lemma total_do_stat path quiet : total (do_stat path quiet).
Proof. unfold do_stat, send_string_request. total_auto. Qed.

Lemma total_do_fsetstat handle a : total (do_fsetstat handle a).
Proof. unfold do_fsetstat, send_string_attrs_request. total_auto. Qed.

#[local] Hint Resolve total_do_close total_do_stat total_do_fsetstat
  : totals.

Lemma total_readdir_names path printflag count msg :
  forall i dir, total (readdir_names path printflag i count msg dir).
Proof.
  induction msg as [msg IH] using (well_founded_induction
    (Wf_nat.well_founded_ltof _ (@List.length field))).
  intros i dir. destruct msg as [| f1 [| f2 [| f3 rest]]]; simpl;
    try solve [ total_auto ].
  assert (Hrest : forall i dir,
             total (readdir_names path printflag i count rest dir)).
  { apply IH. unfold Wf_nat.ltof. simpl. lia. }
  destruct (i <? count); [ | total_auto ].
  destruct f1 as [ | | | fname | ]; try apply total_fatal.
  destruct f2; try apply total_fatal.
  destruct f3; try apply total_fatal.
  apply total_bind; [ destruct printflag; total_auto | intros _ ].
  destruct (strchr fname "/").
  - apply total_bind; [ apply total_error | intros _; apply Hrest ].
  - apply Hrest.
Qed.

#[local] Hint Resolve total_readdir_names : totals.

Lemma total_readdir_body path printflag handle dir :
  total (readdir_body path printflag handle dir).
Proof. unfold readdir_body. total_auto. Qed.

Section Measure.

Variable mu : world -> nat.

Lemma shrink_refl w : shrink mu w w.
Proof. unfold shrink. lia. Qed.

Lemma shrink_trans w1 w2 w3 :
  shrink mu w1 w2 -> shrink mu w2 w3 -> shrink mu w1 w3.
Proof. unfold shrink. lia. Qed.

(** A step that does not raise the measure, under a bound on it. *)
Lemma wp_below_step {A B} (m : M A) (k : A -> M B) Q n w :
  obeys (frame (shrink mu)) m ->
  (mu w < n)%nat ->
  (forall x w', (mu w' < n)%nat -> wp (k x) Q (fun _ => True) w') ->
  wp (bind m k) Q (fun _ => True) w.
Proof.
  intros Hm Hn Hk. apply wp_bind. specialize (Hm w).
  unfold wp, frame, shrink in *.
  destruct (m w) as [[x | |] w1]; [ apply Hk; lia | exact I | exact I ].
Qed.

(** A loop whose rounds lower the measure ends within [mu w] rounds. *)
Lemma loop_ends {S R} (I : S -> Prop) (body : S -> M (step S R)) :
  (forall s, I s -> total (body s)) ->
  (forall s w, I s ->
     wp (body s)
        (fun x w' =>
           match x with
           | Continue s' => I s' /\ (mu w' < mu w)%nat
           | Break _ => True
           end)
        (fun _ => True) w) ->
  forall fuel s w,
    I s -> (mu w <= fuel)%nat -> fst (loop fuel body s w) <> OutOfFuel.
Proof.
  intros Ht Hb. induction fuel as [| f IH]; intros s w Hs Hf;
    generalize (Ht s Hs w) (Hb s w Hs); cbn [loop]; unfold wp, bind;
    destruct (body s w) as [[[s' | r] | |] w1]; cbn [fst];
    try discriminate; try congruence.
  - intros _ [_ Hlt]. lia.
  - intros _ [Hs' Hlt]. apply IH; [ exact Hs' | lia ].
Qed.

Lemma total_loop {S R B} (I : S -> Prop) (body : S -> M (step S R))
    (fuel_of : M nat) (s : S) (k : R -> M B) :
  (forall w, fuel_of w = (Done (mu w), w)) ->
  (forall s, I s -> total (body s)) ->
  (forall s w, I s ->
     wp (body s)
        (fun x w' =>
           match x with
           | Continue s' => I s' /\ (mu w' < mu w)%nat
           | Break _ => True
           end)
        (fun _ => True) w) ->
  I s ->
  (forall r, total (k r)) ->
  total (fuel <- fuel_of ;; x <- loop fuel body s ;; k x).
Proof.
  intros Hfuel Ht Hb Hs Hk w. unfold bind at 1. rewrite Hfuel.
  generalize (@loop_ends S R I body Ht Hb (mu w) s w Hs (le_n _)).
  unfold bind. destruct (loop (mu w) body s w) as [[r | |] w1]; cbn [fst];
    [ intros _; apply Hk | discriminate | congruence ].
Qed.

End Measure.

(** The replies still to be read never become more, and reading one makes
    them fewer. *)
Lemma read_retry_length reads :
  (List.length (snd (read_retry reads)) <= List.length reads)%nat.
Proof.
  induction reads as [| [ | | d] rest IH]; simpl; lia.
Qed.

Lemma read_retry_data reads d rest :
  read_retry reads = (Some d, rest) -> d <> ""%string ->
  (List.length rest < List.length reads)%nat.
Proof.
  induction reads as [| [ | | d'] tl IH]; simpl; intros E Hd.
  - injection E as E1 E2. congruence.
  - specialize (IH E Hd). lia.
  - discriminate.
  - injection E as E1 E2. subst. lia.
Qed.

Section Shrinking.

Variable mu : world -> nat.
Hypothesis mu_conn : forall c w, mu (set_conn c w) = mu w.
Hypothesis mu_out : forall o w, mu (set_out o w) = mu w.
Hypothesis mu_polls : forall p w, mu (set_polls p w) = mu w.
Hypothesis mu_log : forall l w, mu (set_log l w) = mu w.
Hypothesis mu_in :
  forall m rest w, w_in w = m :: rest -> (mu (set_in rest w) < mu w)%nat.
Hypothesis mu_local :
  forall f w,
    (List.length (lf_reads f) <= List.length (lf_reads (w_local w)))%nat ->
    (mu (set_local f w) <= mu w)%nat.

Lemma shrink_next_msg_id : obeys (frame (shrink mu)) next_msg_id.
Proof.
  intro w. unfold wp, frame, shrink, next_msg_id. rewrite mu_conn. lia.
Qed.

Lemma shrink_send_msg m : obeys (frame (shrink mu)) (send_msg m).
Proof.
  intro w. unfold wp, frame, shrink, send_msg.
  destruct (buffer_len m >? SFTP_MAX_MSG_LENGTH); rewrite ?mu_out; lia.
Qed.

Lemma shrink_get_msg : obeys (frame (shrink mu)) get_msg.
Proof.
  intro w. unfold wp, frame, shrink, get_msg.
  destruct (w_in w) as [| m rest] eqn:E; [ lia | ].
  generalize (mu_in w E).
  destruct (buffer_len m >? SFTP_MAX_MSG_LENGTH); lia.
Qed.

Lemma shrink_error t x : obeys (frame (shrink mu)) (error t x).
Proof. intro w. unfold wp, frame, shrink, error. rewrite mu_log. lia. Qed.

Lemma shrink_printf l : obeys (frame (shrink mu)) (printf l).
Proof. intro w. unfold wp, frame, shrink, printf. rewrite mu_log. lia. Qed.

Lemma shrink_interrupted : obeys (frame (shrink mu)) interrupted.
Proof.
  intro w. unfold wp, frame, shrink, interrupted. rewrite mu_polls. lia.
Qed.

Lemma shrink_local_write o d : obeys (frame (shrink mu)) (local_write o d).
Proof.
  intro w. unfold wp, frame, shrink, local_write.
  destruct (lf_wres (w_local w)) as [| e rest];
    [ | destruct (e =? 0) ]; apply mu_local; cbn [lf_reads]; lia.
Qed.

Lemma shrink_fchmod mode : obeys (frame (shrink mu)) (fchmod mode).
Proof.
  intro w. unfold wp, frame, shrink, fchmod.
  destruct (lf_chmod_ok (w_local w)); [ | lia ].
  apply mu_local; cbn [lf_reads]; lia.
Qed.

Lemma shrink_local_read : obeys (frame (shrink mu)) local_read.
Proof.
  intro w. unfold wp, frame, shrink, local_read.
  generalize (read_retry_length (lf_reads (w_local w))).
  destruct (read_retry (lf_reads (w_local w))) as [r rest]. cbn [snd].
  intro H. apply mu_local; cbn [lf_reads]; exact H.
Qed.

Lemma shrink_close_local : obeys (frame (shrink mu)) close_local.
Proof.
  intro w. unfold wp, frame, shrink, close_local.
  apply mu_local; cbn [lf_reads]; lia.
Qed.

Lemma shrink_request :
  forall A (f : Z -> Buffer) (k : Z -> M A),
    (forall id, msg_reqid (f id) = Some id) ->
    (forall id, obeys (frame (shrink mu)) (k id)) ->
    obeys (frame (shrink mu)) (id <- next_msg_id ;; send_msg (f id) ;; k id).
Proof.
  apply (frame_request (@shrink_trans mu) shrink_next_msg_id
                       shrink_send_msg).
Qed.

Ltac shrink_rule L :=
  intros; apply L;
  [ apply frame_refl; exact (@shrink_refl mu)
  | apply frame_cut
  | apply frame_trans; exact (@shrink_trans mu)
  | .. ];
  auto using shrink_get_msg, shrink_error, shrink_printf,
    shrink_interrupted, shrink_local_write, shrink_fchmod,
    shrink_local_read, shrink_close_local, shrink_request,
    shrink_send_msg with nocore.

Lemma shrink_do_close handle : obeys (frame (shrink mu)) (do_close handle).
Proof. shrink_rule (@obeys_do_close (frame (shrink mu))). Qed.

Lemma shrink_readdir_names path printflag count msg i dir :
  obeys (frame (shrink mu)) (readdir_names path printflag i count msg dir).
Proof. shrink_rule (@obeys_readdir_names (frame (shrink mu))). Qed.

Lemma shrink_download_data size handle req msg s :
  obeys (frame (shrink mu)) (download_data size handle req msg s).
Proof. shrink_rule (@obeys_download_data (frame (shrink mu))). Qed.

Lemma shrink_send_requests handle fuel s :
  obeys (frame (shrink mu)) (send_requests fuel handle s).
Proof.
  apply (@obeys_send_requests (frame (shrink mu)));
    [ apply frame_refl; exact (@shrink_refl mu)
    | apply frame_cut
    | apply shrink_request ].
Qed.

(** Reading a reply under a bound on the measure. *)
Lemma wp_below_get_msg {B} (k : option Buffer -> M B) Q n w :
  (mu w < S n)%nat ->
  (forall m w', (mu w' < n)%nat -> wp (k (Some m)) Q (fun _ => True) w') ->
  (forall w', wp (k None) Q (fun _ => True) w') ->
  wp (bind get_msg k) Q (fun _ => True) w.
Proof.
  intros Hn Hs Hnone. apply wp_bind. unfold wp at 1, get_msg.
  destruct (w_in w) as [| m rest] eqn:E; [ apply Hnone | ].
  generalize (mu_in w E). intro Hlt.
  destruct (buffer_len m >? SFTP_MAX_MSG_LENGTH); [ exact I | ].
  apply Hs. lia.
Qed.

Ltac below_step_as x w1 H :=
  eapply (@wp_below_step mu);
  [ first [ apply shrink_next_msg_id | apply shrink_send_msg
          | apply shrink_error | apply shrink_interrupted
          | apply shrink_do_close | apply shrink_readdir_names
          | apply shrink_send_requests | apply shrink_download_data
          | apply shrink_local_read
          | apply frame_pure;
            [ exact (@shrink_refl mu)
            | first [ apply unchecked_pure | apply buffer_get_char_pure
                    | apply buffer_get_int_pure
                    | apply buffer_get_string_pure
                    | intro; reflexivity ] ] ]
  | first [ eassumption | apply Nat.lt_succ_diag_r ]
  | intros x w1 H ].

(** A round of the READDIR loop that is followed by another has read a
    reply. *)
Lemma readdir_body_consumes path printflag handle dir w :
  wp (readdir_body path printflag handle dir)
     (fun x w' =>
        match x with
        | Continue _ => True /\ (mu w' < mu w)%nat
        | Break _ => True
        end)
     (fun _ => True) w.
Proof.
  unfold readdir_body.
  below_step_as intr w1 H1.
  destruct intr; [ exact I | ].
  below_step_as nid w2 H2.
  below_step_as u1 w3 H3.
  apply (@wp_below_get_msg _ _ _ (mu w) w3 H3); [ intros m w4 H4 | ].
  2: { intros w4. apply wp_bind. exact I. }
  below_step_as msg w5 H5.
  below_step_as tm w6 H6. destruct tm as [type msg1].
  below_step_as im w7 H7. destruct im as [rid msg2].
  destruct (negb (rid =? nid)); [ exact I | ].
  destruct (type =? SSH2_FXP_STATUS).
  - below_step_as sm w8 H8. destruct sm as [status msg3].
    destruct (status =? SSH2_FX_EOF); [ exact I | ].
    below_step_as u2 w9 H9.
    below_step_as u3 w10 H10. exact I.
  - destruct (negb (type =? SSH2_FXP_NAME)); [ exact I | ].
    below_step_as cm w8 H8. destruct cm as [count msg3].
    destruct (count =? 0); [ exact I | ].
    below_step_as dir' w9 H9.
    split; [ exact I | exact H9 ].
Qed.

(** A round of the download loop that is followed by another has read a
    reply. *)
Lemma download_body_consumes size handle s w :
  wp (download_body size handle s)
     (fun x w' =>
        match x with
        | Continue _ => (mu w' < mu w)%nat
        | Break _ => True
        end)
     (fun _ => True) w.
Proof.
  unfold download_body.
  destruct ((d_num_req s >? 0) || (d_max_req s >? 0)); [ | exact I ].
  below_step_as intr w1 H1.
  destruct (intr && (d_num_req s =? 0)); [ exact I | ].
  below_step_as s1 w2 H2.
  apply (@wp_below_get_msg _ _ _ (mu w) w2 H2); [ intros m w3 H3 | ].
  2: { intros w3. apply wp_bind. exact I. }
  below_step_as msg w4 H4.
  below_step_as tm w5 H5. destruct tm as [type msg1].
  below_step_as im w6 H6. destruct im as [rid msg2].
  destruct (find_request rid (d_requests s1)) as [req |]; [ | exact I ].
  destruct (type =? SSH2_FXP_STATUS).
  - apply wp_bind. unfold download_status.
    below_step_as sm w7 H7. destruct sm as [status msg3]. exact H7.
  - destruct (type =? SSH2_FXP_DATA); [ | exact I ].
    below_step_as s2 w7 H7. exact H7.
Qed.

Lemma shrink_upload_ack s : obeys (frame (shrink mu)) (upload_ack s).
Proof. shrink_rule (@obeys_upload_ack (frame (shrink mu))). Qed.

(** Waiting for an acknowledgement reads a reply. *)
Lemma upload_ack_consumes s n w :
  (mu w < S n)%nat ->
  wp (upload_ack s) (fun _ w' => (mu w' < n)%nat) (fun _ => True) w.
Proof.
  intro Hn. unfold upload_ack.
  apply (@wp_below_get_msg _ _ _ n w Hn); [ intros m w1 H1 | ].
  2: { intros w1. apply wp_bind. exact I. }
  below_step_as msg w2 H2.
  below_step_as tm w3 H3. destruct tm as [type msg1].
  below_step_as im w4 H4. destruct im as [rid msg2].
  destruct (negb (type =? SSH2_FXP_STATUS)); [ exact I | ].
  below_step_as sm w5 H5. destruct sm as [status msg3].
  destruct (find_ack rid (u_acks s)); [ exact H5 | exact I ].
Qed.

Hypothesis mu_read :
  forall f w,
    (List.length (lf_reads f) < List.length (lf_reads (w_local w)))%nat ->
    (mu (set_local f w) < mu w)%nat.

(** The end of a round of the upload loop, lines 1262-1298, under a bound
    on the measure: the bound holds after it, and one lower if it waited
    for an acknowledgement. *)
Lemma upload_round_end (startid len : Z) (s : upload) n w :
  (mu w < S n)%nat ->
  ((mu w < n)%nat \/ len = 0) ->
  wp (if u_ack_null s then fatal
      else
        c <- get_conn ;;
        s <- (if (u_id s =? startid) || (len =? 0)
                 || (u32 (u_id s - u_ackid s) >=? num_requests c)
              then upload_ack s else ret s) ;;
        let offset := u_offset s + len in
        if offset >=? 2 ^ 63 then fatal
        else
          ret (Continue (R := upload)
                 (mkUl (u_status s) (u_id s) (u_ackid s) offset
                       (u_ack_null s) (u_acks s))))
     (fun x w' =>
        match x with
        | Continue _ => True /\ (mu w' < n)%nat
        | Break _ => True
        end)
     (fun _ => True) w.
Proof.
  intros Hn Hor.
  destruct (u_ack_null s); [ exact I | ].
  apply wp_bind. unfold wp at 1, get_conn.
  set (cond := (u_id s =? startid) || (len =? 0)
               || (u32 (u_id s - u_ackid s) >=? num_requests (w_conn w))).
  assert (Hc : cond = true \/ (mu w < n)%nat).
  { destruct Hor as [Hlt | ->]; [ right; exact Hlt | left ].
    unfold cond. cbn [Z.eqb]. rewrite Bool.orb_true_r. reflexivity. }
  clearbody cond. apply wp_bind.
  assert (Hfin : forall s1 w1,
            (mu w1 < n)%nat ->
            wp (let offset := u_offset s1 + len in
                if offset >=? 2 ^ 63 then fatal
                else
                  ret (Continue (R := upload)
                         (mkUl (u_status s1) (u_id s1) (u_ackid s1) offset
                               (u_ack_null s1) (u_acks s1))))
               (fun x w' =>
                  match x with
                  | Continue _ => True /\ (mu w' < n)%nat
                  | Break _ => True
                  end)
               (fun _ => True) w1).
  { intros s1 w1 H1. cbv zeta.
    destruct (u_offset s1 + len >=? 2 ^ 63); [ exact I | ].
    split; [ exact I | exact H1 ]. }
  destruct cond.
  - eapply wp_mono; [ | | apply (@upload_ack_consumes s n w Hn) ];
      [ | trivial ].
    intros s1 w1 H1. apply Hfin. exact H1.
  - destruct Hc as [Hc | Hlt]; [ discriminate | ].
    apply wp_ret. apply Hfin. exact Hlt.
Qed.

(** A round of the upload loop that is followed by another has read a
    block of the local file or a reply. *)
Lemma upload_body_consumes handle startid s w :
  wp (upload_body handle startid s)
     (fun x w' =>
        match x with
        | Continue _ => True /\ (mu w' < mu w)%nat
        | Break _ => True
        end)
     (fun _ => True) w.
Proof.
  unfold upload_body.
  below_step_as intr w1 H1.
  apply wp_bind.
  assert (Hrd : wp (if intr || negb (u_status s =? SSH2_FX_OK)
                    then ret (Some ""%string) else local_read)
                   (fun rd w2 =>
                      (mu w2 < S (mu w))%nat /\
                      match rd with
                      | Some data => (mu w2 < mu w)%nat \/ strlen data = 0
                      | None => True
                      end)
                   (fun _ => True) w1).
  { destruct (intr || negb (u_status s =? SSH2_FX_OK)).
    - apply wp_ret. split; [ exact H1 | right; reflexivity ].
    - unfold wp, local_read.
      generalize (read_retry_length (lf_reads (w_local w1))).
      generalize (@read_retry_data (lf_reads (w_local w1))).
      destruct (read_retry (lf_reads (w_local w1))) as [r rest].
      cbn [snd]. intros Hd Hl.
      split.
      + eapply Nat.le_lt_trans; [ apply mu_local; exact Hl | exact H1 ].
      + destruct r as [d |]; [ | exact I ].
        destruct d as [| ch d']; [ right; reflexivity | left ].
        eapply Nat.lt_le_trans;
          [ apply mu_read; cbn [lf_reads]; apply (Hd _ _ eq_refl);
            discriminate
          | apply Nat.lt_succ_r; exact H1 ]. }
  eapply wp_mono; [ | | exact Hrd ]; [ | trivial ].
  intros rd w2 [H2 Hdata]. cbv beta.
  destruct rd as [data |]; [ | exact I ].
  apply wp_bind.
  destruct (negb (strlen data =? 0)) eqn:Hlen.
  - assert (Hlt : (mu w2 < mu w)%nat).
    { destruct Hdata as [Hlt | H0]; [ exact Hlt | ].
      rewrite H0 in Hlen. discriminate. }
    below_step_as u1 w3 H3.
    apply wp_ret.
    apply upload_round_end; [ lia | left; exact H3 ].
  - destruct (u_acks s); [ exact I | ].
    apply wp_ret.
    apply upload_round_end; [ exact H2 | right ].
    apply Bool.negb_false_iff in Hlen. apply Z.eqb_eq. exact Hlen.
Qed.

End Shrinking.

Lemma total_upload_ack s : total (upload_ack s).
Proof. unfold upload_ack. total_auto. Qed.

#[local] Hint Resolve total_upload_ack : totals.

Lemma total_upload_body handle startid s :
  total (upload_body handle startid s).
Proof. unfold upload_body. total_auto. Qed.

Lemma total_send_requests handle :
  forall fuel s,
    0 <= d_num_req s -> d_max_req s < 2 ^ 32 ->
    d_max_req s - d_num_req s <= Z.of_nat fuel ->
    total (send_requests fuel handle s).
Proof.
  induction fuel as [| f IH]; intros s Hn Hm Hf; simpl;
    destruct (Z.ltb_spec (d_num_req s) (d_max_req s)) as [Hlt | _];
    try apply total_ret.
  - lia.
  - apply total_bind; [ apply total_next_msg_id | intro nid ].
    apply total_bind; [ apply total_send_msg | intros _ ].
    apply IH; cbn [d_num_req d_max_req];
      try rewrite u32_small by lia; lia.
Qed.

Lemma total_download_data size handle req msg s :
  total (download_data size handle req msg s).
Proof. unfold download_data, send_read_request. total_auto. Qed.

Lemma total_download_body N size handle s :
  0 <= N < 2 ^ 32 -> window_ok N s ->
  total (download_body size handle s).
Proof.
  intros HN [Hq [[Hr1 Hr2] [Hm Hn]]]. unfold download_body.
  destruct ((d_num_req s >? 0) || (d_max_req s >? 0));
    [ | apply total_ret ].
  apply total_bind; [ apply total_interrupted | intro intr ].
  destruct (intr && (d_num_req s =? 0)); [ apply total_ret | ].
  apply total_bind.
  - generalize pow32_pos. intro.
    apply total_send_requests; destruct intr;
      cbn [dl_set_max_req d_num_req d_max_req]; lia.
  - intro s1. unfold download_status.
    generalize (total_download_data size handle). intro Hd.
    total_auto.
Qed.

Lemma inbound_in m rest w :
  w_in w = m :: rest -> (inbound (set_in rest w) < inbound w)%nat.
Proof. unfold inbound. intros ->. cbn [set_in w_in List.length]. lia. Qed.

Lemma inbound_local f w :
  (List.length (lf_reads f) <= List.length (lf_reads (w_local w)))%nat ->
  (inbound (set_local f w) <= inbound w)%nat.
Proof. intros _. apply le_n. Qed.

Lemma upload_left_in m rest w :
  w_in w = m :: rest -> (upload_left (set_in rest w) < upload_left w)%nat.
Proof.
  unfold upload_left. intros ->. cbn [set_in w_in w_local List.length]. lia.
Qed.

Lemma upload_left_local f w :
  (List.length (lf_reads f) <= List.length (lf_reads (w_local w)))%nat ->
  (upload_left (set_local f w) <= upload_left w)%nat.
Proof. unfold upload_left. cbn [set_local w_in w_local]. lia. Qed.

Lemma upload_left_read f w :
  (List.length (lf_reads f) < List.length (lf_reads (w_local w)))%nat ->
  (upload_left (set_local f w) < upload_left w)%nat.
Proof. unfold upload_left. cbn [set_local w_in w_local]. lia. Qed.

(** X7.  A directory listing comes to an end: every round of the READDIR
    loop that is followed by another has taken a reply off the stream, so
    [do_readdir] returns or dies in [fatal] after at most as many rounds
    as there are replies, whatever the server sends. *)
Theorem do_readdir_total path want_dir : total (do_readdir path want_dir).
Proof.
  unfold do_readdir, do_lsreaddir.
  apply total_bind; [ apply total_next_msg_id | intro nid ].
  apply total_bind; [ apply total_send_msg | intros _ ].
  apply total_bind; [ apply total_get_handle | intros [handle |] ];
    [ | apply total_ret ].
  apply total_loop with (mu := inbound) (I := fun _ => True).
  - intro w. reflexivity.
  - intros dir _. apply total_readdir_body.
  - intros dir w _.
    apply readdir_body_consumes;
      first [ exact inbound_in | exact inbound_local | reflexivity ].
  - exact I.
  - intro x. total_auto.
Qed.

(** X8.  A download comes to an end: with the counters of the window in
    range, the sends of a round stop when the window is full, and every
    round that is followed by another has taken a reply off the stream.
    So [do_download] returns or dies in [fatal], whatever the server
    sends. *)
Theorem do_download_total remote_path pflag :
  total (do_download remote_path pflag).
Proof.
  assert (HN : 0 <= 2 ^ 32 - 1 < 2 ^ 32)
    by (split; [ discriminate | reflexivity ]).
  unfold do_download.
  apply total_bind; [ apply total_do_stat | intros [a |] ];
    [ | apply total_ret ].
  destruct (has_flag (a_flags a) SSH2_FILEXFER_ATTR_PERMISSIONS
            && negb (S_ISREG (a_perm a))); [ total_auto | ].
  apply total_bind; [ apply total_get_conn | intro c ].
  apply total_bind; [ apply total_next_msg_id | intro nid ].
  apply total_bind; [ apply total_send_msg | intros _ ].
  apply total_bind; [ apply total_get_handle | intros [handle |] ];
    [ | apply total_ret ].
  apply total_loop with (mu := inbound) (I := window_ok (2 ^ 32 - 1)).
  - intro w. reflexivity.
  - intros s Hs. apply (@total_download_body _ _ _ _ HN Hs).
  - intros s w Hs.
    generalize (@download_body_window _
                  (if has_flag (a_flags a) SSH2_FILEXFER_ATTR_SIZE
                   then a_size a else 0) handle s w w HN
                  (or_intror eq_refl) (same_settings_refl w) Hs).
    assert (Hc : wp (download_body
                       (if has_flag (a_flags a) SSH2_FILEXFER_ATTR_SIZE
                        then a_size a else 0) handle s)
                    (fun x w' =>
                       match x with
                       | Continue _ => (inbound w' < inbound w)%nat
                       | Break _ => True
                       end)
                    (fun _ => True) w)
      by (apply download_body_consumes;
          first [ exact inbound_in | exact inbound_local | reflexivity ]).
    revert Hc. unfold wp.
    destruct (download_body _ handle s w) as [[[s' | r] | |] w1]; auto.
    intros Hlt [_ Hok]. split; assumption.
  - unfold window_ok. cbn [d_num_req d_requests d_max_req List.length].
    repeat split; try discriminate; reflexivity.
  - intro s. total_auto.
Qed.

(** X9.  An upload comes to an end: every round of its loop that is
    followed by another has read a block of the local file or taken a
    reply off the stream, so [do_upload] returns or dies in [fatal],
    whatever the file holds and the server sends. *)
Theorem do_upload_total local_path remote_path remote_attribs pflag :
  total (do_upload local_path remote_path remote_attribs pflag).
Proof.
  unfold do_upload.
  apply total_bind; [ apply total_fstat | intros [[st_mode from_stat] |] ];
    [ | total_auto ].
  destruct (negb (S_ISREG st_mode)); [ total_auto | ].
  apply total_bind; [ apply total_next_msg_id | intro nid ].
  apply total_bind; [ apply total_send_msg | intros _ ].
  apply total_bind; [ apply total_get_handle | intros [handle |] ];
    [ | apply total_ret ].
  apply total_loop with (mu := upload_left) (I := fun _ => True).
  - intro w. reflexivity.
  - intros s _. apply total_upload_body.
  - intros s w _.
    apply upload_body_consumes;
      first [ exact upload_left_in | exact upload_left_local
            | exact upload_left_read | reflexivity ].
  - exact I.
  - intro s. total_auto.
Qed.

(** * The window of the upload *)

Lemma u32_add_l a b : u32 (u32 a + b) = u32 (a + b).
Proof. unfold u32. apply Z.add_mod_idemp_l. discriminate. Qed.

Lemma u32_sub_r a b : u32 (a - u32 b) = u32 (a - b).
Proof. unfold u32. apply Zminus_mod_idemp_r. Qed.

Lemma find_ack_id id q k :
  find_ack id q = Some k -> ack_id k = id /\ In k q.
Proof.
  unfold find_ack. intro H. apply find_some in H.
  destruct H as [Hin He]. apply Z.eqb_eq in He. split; assumption.
Qed.

Lemma remove_ack_length id q k :
  find_ack id q = Some k ->
  S (List.length (remove_ack id q)) = List.length q.
Proof.
  unfold find_ack. induction q as [| r q IH]; simpl; [ discriminate | ].
  destruct (ack_id r =? id); intro H; [ reflexivity | ].
  simpl. now rewrite IH.
Qed.

(** The end of a round, lines 1262-1298: with at most [N + 1] writes
    unacknowledged, at most [N] are left. *)
Lemma upload_round_window N (startid len : Z) (s : upload) w0 w :
  0 <= N < 2 ^ 32 - 1 ->
  num_requests (w_conn w0) = N -> same_settings w0 w ->
  Z.of_nat (List.length (u_acks s)) = u32 (u_id s - u_ackid s + 1) ->
  Z.of_nat (List.length (u_acks s)) <= N + 1 ->
  (1 <= Z.of_nat (List.length (u_acks s)) \/
   len = 0 /\ Z.of_nat (List.length (u_acks s)) <= N) ->
  wp (if u_ack_null s then fatal
      else
        c <- get_conn ;;
        s <- (if (u_id s =? startid) || (len =? 0)
                 || (u32 (u_id s - u_ackid s) >=? num_requests c)
              then upload_ack s else ret s) ;;
        let offset := u_offset s + len in
        if offset >=? 2 ^ 63 then fatal
        else
          ret (Continue (R := upload)
                 (mkUl (u_status s) (u_id s) (u_ackid s) offset
                       (u_ack_null s) (u_acks s))))
     (fun x w' =>
        same_settings w0 w' /\
        match x with
        | Continue s' => upload_ok N s'
        | Break _ => True
        end)
     (fun _ => True) w.
Proof.
  intros HN H0 Hw Hq Hle Hor.
  destruct (u_ack_null s); [ exact I | ].
  apply wp_bind. unfold wp at 1, get_conn.
  assert (Hn : num_requests (w_conn w) = N).
  { destruct Hw as (_ & _ & _ & Hn & _). congruence. }
  rewrite Hn.
  set (cond := (u_id s =? startid) || (len =? 0)
               || (u32 (u_id s - u_ackid s) >=? N)).
  assert (Hc : cond = false -> Z.of_nat (List.length (u_acks s)) <= N).
  { unfold cond. intro Hc.
    apply Bool.orb_false_iff in Hc. destruct Hc as [Hc Hge].
    apply Bool.orb_false_iff in Hc. destruct Hc as [_ Hlen].
    destruct Hor as [H1 | [-> _]]; [ | discriminate Hlen ].
    assert (Hu : u32 (u_id s - u_ackid s)
                 = Z.of_nat (List.length (u_acks s)) - 1).
    { replace (u_id s - u_ackid s) with (u_id s - u_ackid s + 1 + -1)
        by lia.
      rewrite <- u32_add_l, <- Hq. apply u32_small. lia. }
    rewrite Hu in Hge. lia. }
  clearbody cond.
  assert (Hfin : forall s1 w1,
            upload_ok N s1 -> same_settings w0 w1 ->
            wp (let offset := u_offset s1 + len in
                if offset >=? 2 ^ 63 then fatal
                else
                  ret (Continue (R := upload)
                         (mkUl (u_status s1) (u_id s1) (u_ackid s1) offset
                               (u_ack_null s1) (u_acks s1))))
               (fun x w' =>
                  same_settings w0 w' /\
                  match x with
                  | Continue s' => upload_ok N s'
                  | Break _ => True
                  end)
               (fun _ => True) w1).
  { intros s1 w1 H1 Hw1. cbv zeta.
    destruct (u_offset s1 + len >=? 2 ^ 63); [ exact I | ].
    apply wp_ret. split; [ exact Hw1 | exact H1 ]. }
  apply wp_bind.
  destruct cond.
  - unfold upload_ack.
    settings_step_as r w1 H1.
    settings_step_as msg w2 H2.
    settings_step_as tm w3 H3. destruct tm as [type msg1].
    settings_step_as im w4 H4. destruct im as [rid msg2].
    destruct (negb (type =? SSH2_FXP_STATUS)); [ exact I | ].
    settings_step_as sm w5 H5. destruct sm as [status msg3].
    destruct (find_ack rid (u_acks s)) as [k |] eqn:Hf; [ | exact I ].
    apply wp_ret. apply Hfin; [ | exact H5 ].
    destruct (find_ack_id _ _ Hf) as [Hid _].
    generalize (remove_ack_length _ _ Hf). intro Hl.
    unfold upload_ok. cbn [u_acks u_id u_ackid]. rewrite Hid.
    assert (Hu : u32 (u_id s - u32 (u_ackid s + 1) + 1)
                 = Z.of_nat (List.length (u_acks s)) - 1).
    { replace (u_id s - u32 (u_ackid s + 1) + 1)
        with (u_id s + 1 - u32 (u_ackid s + 1)) by lia.
      rewrite u32_sub_r.
      replace (u_id s + 1 - (u_ackid s + 1))
        with (u_id s - u_ackid s + 1 + -1) by lia.
      rewrite <- u32_add_l, <- Hq. apply u32_small. lia. }
    rewrite Hu. split; lia.
  - apply wp_ret. apply Hfin; [ | exact Hw ].
    split; [ exact Hq | apply Hc; reflexivity ].
Qed.

Lemma upload_body_window N handle startid s w0 w :
  0 <= N < 2 ^ 32 - 1 ->
  num_requests (w_conn w0) = N -> same_settings w0 w ->
  upload_ok N s ->
  wp (upload_body handle startid s)
     (fun x w' =>
        same_settings w0 w' /\
        match x with
        | Continue s' => upload_ok N s'
        | Break _ => True
        end)
     (fun _ => True) w.
Proof.
  intros HN H0 Hw [Hq Hle]. unfold upload_body.
  settings_step_as intr w1 H1.
  eapply (@wp_frame_step same_settings);
    [ exact same_settings_trans
    | destruct (intr || negb (u_status s =? SSH2_FX_OK));
      [ apply frame_pure; [ exact same_settings_refl | intro; reflexivity ]
      | apply same_settings_local_read ]
    | exact H1
    | intros rd w2 H2
    | intros; exact I ].
  destruct rd as [data |]; [ | exact I ].
  apply wp_bind.
  destruct (negb (strlen data =? 0)) eqn:Hlen.
  - settings_step_as u1 w3 H3.
    apply wp_ret.
    apply upload_round_window with (N := N);
      try assumption; cbn [u_acks u_id u_ackid];
      rewrite ?length_app; cbn [List.length].
    + replace (u32 (u_id s + 1) - u_ackid s + 1)
        with (u32 (u_id s + 1) + (- u_ackid s + 1)) by lia.
      rewrite u32_add_l.
      replace (u_id s + 1 + (- u_ackid s + 1))
        with (u_id s - u_ackid s + 1 + 1) by lia.
      rewrite <- u32_add_l, <- Hq. rewrite u32_small; lia.
    + lia.
    + left. lia.
  - destruct (u_acks s) as [| k q] eqn:Hacks;
      [ apply wp_ret; split; [ exact H2 | exact I ] | ].
    apply wp_ret.
    apply upload_round_window with (N := N); try assumption;
      rewrite ?Hacks; try assumption; [ lia | ].
    right. split; [ | exact Hle ].
    apply Bool.negb_false_iff in Hlen. apply Z.eqb_eq. exact Hlen.
Qed.

(** X10.  The window of an upload.  Let [N], the request limit of the
    connection, be below 2^32 - 1.  In every state the loop of [do_upload]
    reaches from its start, the writes not yet acknowledged are as many
    as the ids from [ackid] to [id], and at most [N]. *)
Theorem upload_window_bounded handle id w c :
  0 <= num_requests (w_conn w) < 2 ^ 32 - 1 ->
  upload_reach handle (u32 (id + 1)) (upload_start id, w) c ->
  upload_ok (num_requests (w_conn w)) (fst c).
Proof.
  intros HN Hr.
  assert (H : upload_ok (num_requests (w_conn w)) (fst c) /\
              same_settings w (snd c)).
  { induction Hr as [| s1 w1 s' w' Hr IH Hb].
    - split; [ | apply same_settings_refl ].
      unfold upload_ok, upload_start.
      cbn [fst u_acks u_id u_ackid List.length].
      replace (id - u32 (id + 1) + 1) with (id + 1 - u32 (id + 1)) by lia.
      rewrite u32_sub_r.
      replace (id + 1 - (id + 1)) with 0 by lia.
      split; [ reflexivity | lia ].
    - destruct IH as [Hok Hw]. cbn [fst snd] in *.
      generalize (@wp_run _ _ _ _ _ _ _
                    (@upload_body_window _ handle (u32 (id + 1)) s1 w w1 HN
                       eq_refl Hw Hok) Hb).
      intros [H1 H2]. split; assumption. }
  exact (proj1 H).
Qed.

Lemma upload_window_bounded_witness :
  let w :=
    mkWorld (mkConn 0 1 4 2 3 8 0) [] [status_reply 8 SSH2_FX_OK] 1000 0 []
            (regular_file ["abcd"%string]) in
  exists c,
    upload_reach "h" (u32 (7 + 1)) (upload_start 7, w) c /\
    u_id (fst c) = 8 /\
    upload_ok 2 (fst c).
Proof.
  intro w.
  run_as E (upload_body "h" (u32 (7 + 1)) (upload_start 7) w).
  eexists (_, _). split; [ | split ].
  - eapply up_round; [ apply up_start | exact E ].
  - reflexivity.
  - refine (@upload_window_bounded "h" 7 w _ _ _).
    + cbn [w w_conn num_requests]. split; [ discriminate | reflexivity ].
    + eapply up_round; [ apply up_start | exact E ].
Defined.

(** * The end of a download *)

Lemma remove_request_shorter id q :
  (List.length (remove_request id q) <= List.length q)%nat.
Proof.
  induction q as [| r q IH]; simpl; [ lia | ].
  destruct (rq_id r =? id); simpl; lia.
Qed.

Lemma send_requests_closed fuel handle s :
  0 <= d_num_req s -> d_max_req s = 0 ->
  send_requests fuel handle s = ret s.
Proof.
  intros Hn Hm.
  assert (E : (d_num_req s <? d_max_req s) = false)
    by (apply Z.ltb_ge; lia).
  destruct fuel; simpl; rewrite E; reflexivity.
Qed.

Lemma download_window_closed n size s :
  d_max_req s = 0 -> download_window n size s = s.
Proof. unfold download_window. intros ->. reflexivity. Qed.

(** With the window closed, a round sends no request for a new range. *)
Lemma download_body_closed size handle s w :
  0 <= d_num_req s -> d_max_req s = 0 ->
  wp (download_body size handle s)
     (fun x _ =>
        match x with
        | Continue s' =>
            0 <= d_num_req s' /\ d_max_req s' = 0 /\
            d_offset s' = d_offset s /\
            (List.length (d_requests s') <= List.length (d_requests s))%nat
        | Break _ => True
        end)
     (fun _ => True) w.
Proof.
  intros Hn Hm. unfold download_body.
  destruct ((d_num_req s >? 0) || (d_max_req s >? 0)); [ | exact I ].
  apply wp_any; [ intros intr w1 | auto ].
  destruct (intr && (d_num_req s =? 0)); [ exact I | ].
  assert (E : (if intr then dl_set_max_req 0 s else s) = s).
  { destruct intr; [ | reflexivity ].
    unfold dl_set_max_req. rewrite <- Hm. destruct s; reflexivity. }
  rewrite E. rewrite send_requests_closed by assumption.
  apply wp_bind. apply wp_ret.
  apply wp_any; [ intros r w3 | auto ].
  apply wp_any; [ intros msg w4 | auto ].
  apply wp_any; [ intros [type msg1] w5 | auto ].
  apply wp_any; [ intros [rid msg2] w6 | auto ].
  destruct (find_request rid (d_requests s)) as [req |]; [ | exact I ].
  destruct (type =? SSH2_FXP_STATUS).
  - apply wp_bind. unfold download_status. apply wp_any; [ | auto ].
    intros [status ?] w7. apply wp_ret. apply wp_ret.
    cbn [d_num_req d_max_req d_offset d_requests].
    generalize (u32_range (d_num_req s - 1)).
    generalize (remove_request_shorter (rq_id req) (d_requests s)).
    intros; repeat split; try reflexivity; lia.
  - destruct (type =? SSH2_FXP_DATA); [ | exact I ].
    apply wp_bind. unfold download_data.
    apply wp_bind. destruct msg2 as [| [ | | | data | ] rest]; try exact I.
    apply wp_ret. cbv beta iota.
    destruct (strlen data >? rq_len req); [ exact I | ].
    apply wp_any; [ intros e w7 | auto ].
    set (s1 := if negb (e =? 0) && negb (d_write_error s) then _ else s).
    assert (H1 : d_num_req s1 = d_num_req s /\ d_max_req s1 = 0 /\
                 d_offset s1 = d_offset s /\ d_requests s1 = d_requests s).
    { unfold s1. destruct (negb (e =? 0) && negb (d_write_error s));
        repeat split; assumption || reflexivity. }
    destruct H1 as (H1n & H1m & H1o & H1q). clearbody s1.
    apply wp_bind.
    destruct (strlen data =? rq_len req).
    + apply wp_ret. apply wp_any; [ intros c w8 | auto ].
      apply wp_ret. apply wp_ret.
      rewrite download_window_closed by exact H1m.
      cbn [d_num_req d_max_req d_offset d_requests]. rewrite H1q.
      generalize (u32_range (d_num_req s1 - 1)).
      generalize (remove_request_shorter (rq_id req) (d_requests s)).
      intros; repeat split; try assumption; lia.
    + apply wp_any; [ intros nid w8 | auto ].
      apply wp_any; [ intros _ w9 | auto ].
      apply wp_ret. apply wp_any; [ intros c w10 | auto ].
      apply wp_ret. apply wp_ret.
      rewrite download_window_closed by exact H1m.
      cbn [d_num_req d_max_req d_offset d_requests].
      rewrite update_request_length, H1q.
      repeat split; try assumption; lia.
Qed.

(** X11.  Once the window of a download is closed ([max_req = 0], which a
    STATUS reply, a failed write and an interrupt bring about) it stays
    closed: in every later round [max_req] is 0, the offset of the next
    range does not move, and the queue of requests gets no longer. *)
Theorem download_window_stays_closed size handle s w c :
  0 <= d_num_req s -> d_max_req s = 0 ->
  download_reach size handle (s, w) c ->
  d_max_req (fst c) = 0 /\
  d_offset (fst c) = d_offset s /\
  (List.length (d_requests (fst c)) <= List.length (d_requests s))%nat.
Proof.
  intros Hn Hm Hr.
  assert (H : 0 <= d_num_req (fst c) /\ d_max_req (fst c) = 0 /\
              d_offset (fst c) = d_offset s /\
              (List.length (d_requests (fst c))
               <= List.length (d_requests s))%nat).
  { induction Hr as [| s1 w1 s' w' Hr IH Hb]; cbn [fst] in *.
    - repeat split; try assumption; lia.
    - destruct IH as (I1 & I2 & I3 & I4).
      generalize (@wp_run _ _ _ _ _ _ _
                    (@download_body_closed size handle s1 w1 I1 I2) Hb).
      intros (J1 & J2 & J3 & J4). repeat split; try assumption.
      + congruence.
      + lia. }
  destruct H as (_ & H2 & H3 & H4). repeat split; assumption.
Qed.

Lemma download_window_stays_closed_witness :
  let s := mkDl 0 false false 0 8 4 2 0 [mkReq 7 4 0; mkReq 8 4 4] in
  let w :=
    mkWorld (mkConn 0 1 4 2 3 9 0) [] [data_reply 8 (block 4)] 1000 0 []
            no_local in
  exists c,
    download_reach 100 "h" (s, w) c /\
    d_requests (fst c) = [mkReq 7 4 0] /\
    d_max_req (fst c) = 0 /\ d_offset (fst c) = 8.
Proof.
  intros s w.
  run_as E (download_body 100 "h" s w).
  eexists (_, _). split; [ | split ].
  - eapply reach_round; [ apply reach_start | exact E ].
  - reflexivity.
  - refine (let H := @download_window_stays_closed 100 "h" s w _ _ _ _ in
            conj (proj1 H) (proj1 (proj2 H))).
    + cbn [s d_num_req]. discriminate.
    + reflexivity.
    + eapply reach_round; [ apply reach_start | exact E ].
Defined.

(** * The length limit of the messages *)

Lemma within_limit_refl w : within_limit true w w.
Proof.
  split; exists []; [ rewrite app_nil_r | ]; split; try reflexivity;
    constructor.
Qed.

Lemma within_limit_cut w w' :
  within_limit true w w' -> within_limit false w w'.
Proof.
  intros [Ho [used [Hu _]]]. split; [ exact Ho | ].
  exists used. split; [ exact Hu | discriminate ].
Qed.

Lemma within_limit_trans b w1 w2 w3 :
  within_limit true w1 w2 -> within_limit b w2 w3 -> within_limit b w1 w3.
Proof.
  intros [[n1 [Ho1 Hs1]] [u1 [Hi1 Hu1]]] [[n2 [Ho2 Hs2]] [u2 [Hi2 Hu2]]].
  split.
  - exists (n1 ++ n2). rewrite Ho2, Ho1, app_assoc.
    split; [ reflexivity | apply Forall_app; split; assumption ].
  - exists (u1 ++ u2). rewrite Hi1, Hi2, app_assoc.
    split; [ reflexivity | ]. intro Hb.
    apply Forall_app; split; [ apply Hu1; reflexivity | apply Hu2, Hb ].
Qed.

Lemma within_limit_silent {A} (m : M A) :
  (forall w, w_out (snd (m w)) = w_out w /\ w_in (snd (m w)) = w_in w) ->
  obeys within_limit m.
Proof.
  intros H w. specialize (H w). unfold wp.
  destruct (m w) as [[x | |] w1]; cbn [snd] in H; destruct H as [Ho Hi];
    (split; exists []; [ rewrite app_nil_r | ]; split;
     try (symmetry; assumption); try constructor; try discriminate;
     simpl; congruence).
Qed.

Lemma within_limit_next_msg_id : obeys within_limit next_msg_id.
Proof. apply within_limit_silent. intro w. split; reflexivity. Qed.

Lemma within_limit_send_msg m : obeys within_limit (send_msg m).
Proof.
  intro w. unfold wp, send_msg.
  destruct (Z.gtb_spec (buffer_len m) SFTP_MAX_MSG_LENGTH) as [Hgt | Hle].
  - apply within_limit_cut, within_limit_refl.
  - split.
    + exists [m]. split; [ reflexivity | ].
      constructor; [ exact Hle | constructor ].
    + exists []. split; [ reflexivity | constructor ].
Qed.

Lemma within_limit_get_msg : obeys within_limit get_msg.
Proof.
  intro w. unfold wp, get_msg.
  destruct (w_in w) as [| m rest] eqn:E.
  - split; exists []; [ rewrite app_nil_r | rewrite E ]; split;
      try reflexivity; constructor.
  - destruct (Z.gtb_spec (buffer_len m) SFTP_MAX_MSG_LENGTH) as [Hgt | Hle].
    + split; [ exists []; rewrite app_nil_r; split;
               [ reflexivity | constructor ] | ].
      exists [m]. split; [ exact E | discriminate ].
    + split; [ exists []; rewrite app_nil_r; split;
               [ reflexivity | constructor ] | ].
      exists [m]. split; [ exact E | ].
      intros _. constructor; [ exact Hle | constructor ].
Qed.

Lemma within_limit_error t x : obeys within_limit (error t x).
Proof. apply within_limit_silent. intro w. split; reflexivity. Qed.

Lemma within_limit_printf l : obeys within_limit (printf l).
Proof. apply within_limit_silent. intro w. split; reflexivity. Qed.

Lemma within_limit_interrupted : obeys within_limit interrupted.
Proof. apply within_limit_silent. intro w. split; reflexivity. Qed.

Lemma within_limit_local_write o d : obeys within_limit (local_write o d).
Proof.
  apply within_limit_silent. intro w. unfold local_write.
  destruct (lf_wres (w_local w)) as [| e rest];
    [ | destruct (e =? 0) ]; split; reflexivity.
Qed.

Lemma within_limit_fchmod mode : obeys within_limit (fchmod mode).
Proof.
  apply within_limit_silent. intro w. unfold fchmod.
  destruct (lf_chmod_ok (w_local w)); split; reflexivity.
Qed.

Lemma within_limit_local_read : obeys within_limit local_read.
Proof.
  apply within_limit_silent. intro w. unfold local_read.
  destruct (read_retry (lf_reads (w_local w))). split; reflexivity.
Qed.

Lemma within_limit_close_local : obeys within_limit close_local.
Proof. apply within_limit_silent. intro w. split; reflexivity. Qed.

Lemma within_limit_use_local f : obeys within_limit (use_local f).
Proof. apply within_limit_silent. intro w. split; reflexivity. Qed.

Lemma within_limit_request :
  forall A (f : Z -> Buffer) (k : Z -> M A),
    (forall id, msg_reqid (f id) = Some id) ->
    (forall id, obeys within_limit (k id)) ->
    obeys within_limit (id <- next_msg_id ;; send_msg (f id) ;; k id).
Proof.
  intros A f k _ Hk.
  apply (obeys_bind within_limit_trans);
    [ exact within_limit_next_msg_id | intro id ].
  apply (obeys_bind within_limit_trans);
    [ apply within_limit_send_msg | intros _ ].
  apply Hk.
Qed.

#[local] Hint Resolve within_limit_request within_limit_get_msg
  within_limit_error within_limit_printf within_limit_interrupted
  within_limit_local_write within_limit_fchmod within_limit_send_msg
  within_limit_local_read within_limit_close_local : frames.

Ltac limit_rule L :=
  intros; apply L;
  [ exact within_limit_refl | exact within_limit_cut
  | exact within_limit_trans | .. ];
  eauto with frames nocore.

Lemma within_limit_run_operation o : obeys within_limit (run_operation o).
Proof.
  assert (Hret : forall A (x : A), obeys within_limit (ret tt))
    by (intros A x w; apply within_limit_refl).
  destruct o; cbn [run_operation];
    (apply (obeys_bind within_limit_trans); [ | try exact (@Hret _) ]).
  - limit_rule (@obeys_do_close within_limit).
  - limit_rule (@obeys_do_rm within_limit).
  - limit_rule (@obeys_do_mkdir within_limit).
  - limit_rule (@obeys_do_rmdir within_limit).
  - limit_rule (@obeys_do_stat within_limit).
  - limit_rule (@obeys_do_lstat within_limit).
  - limit_rule (@obeys_do_setstat within_limit).
  - limit_rule (@obeys_do_fsetstat within_limit).
  - limit_rule (@obeys_do_realpath within_limit).
  - limit_rule (@obeys_do_rename within_limit).
  - limit_rule (@obeys_do_symlink within_limit).
  - limit_rule (@obeys_do_statvfs within_limit).
  - limit_rule (@obeys_do_readdir within_limit).
  - apply within_limit_use_local.
  - intros _. apply (obeys_bind within_limit_trans); [ | exact (@Hret _) ].
    limit_rule (@obeys_do_download within_limit).
Qed.

(** X12.  No operation of the client writes a message longer than
    SFTP_MAX_MSG_LENGTH, and none completes after reading one: whatever
    the operations add to the outbound stream is within the limit, and
    when they have all returned, so is every message they took off the
    inbound stream (the attempt to send or to accept a longer one is
    [fatal]). *)
Theorem messages_within_limit :
  (forall ops w,
     let '(r, w') := run_operations ops w in
     (exists new, w_out w' = w_out w ++ new /\ Forall small new) /\
     (r = Done tt ->
      exists used, w_in w = used ++ w_in w' /\ Forall small used)) /\
  (forall local_path remote_path a pflag w,
     let '(r, w') := do_upload local_path remote_path a pflag w in
     (exists new, w_out w' = w_out w ++ new /\ Forall small new) /\
     ((exists x, r = Done x) ->
      exists used, w_in w = used ++ w_in w' /\ Forall small used)).
Proof.
  split.
  - intros ops w.
    assert (H : obeys within_limit (run_operations ops)).
    { induction ops as [| o rest IH]; cbn [run_operations].
      - intro w0. apply within_limit_refl.
      - apply (obeys_bind within_limit_trans);
          [ apply within_limit_run_operation | intros _; exact IH ]. }
    specialize (H w). unfold wp in H.
    destruct (run_operations ops w) as [[x | |] w'];
      destruct H as [Ho [used [Hu Hs]]]; (split; [ exact Ho | ]);
      try discriminate.
    intros _. exists used. split; [ exact Hu | apply Hs; reflexivity ].
  - intros local_path remote_path a0 pflag w.
    assert (H : obeys within_limit
                  (do_upload local_path remote_path a0 pflag))
      by (limit_rule (@obeys_do_upload within_limit)).
    specialize (H w). unfold wp in H.
    destruct (do_upload local_path remote_path a0 pflag w)
      as [[x | |] w'];
      destruct H as [Ho [used [Hu Hs]]]; (split; [ exact Ho | ]).
    + intros _. exists used. split; [ exact Hu | apply Hs; reflexivity ].
    + intros [x Hx]. discriminate Hx.
    + intros [x Hx]. discriminate Hx.
Qed.

(** * The mode of a downloaded file *)

Lemma download_mode_range a : 0 <= download_mode a <= 511.
Proof.
  unfold download_mode.
  destruct (has_flag (a_flags a) SSH2_FILEXFER_ATTR_PERMISSIONS);
    [ | split; discriminate ].
  assert (E : Z.land (a_perm a) 511 = a_perm a mod 2 ^ 9)
    by (apply (Z.land_ones (a_perm a) 9); discriminate).
  rewrite E.
  generalize (Z.mod_pos_bound (a_perm a) (2 ^ 9) eq_refl).
  change (2 ^ 9) with 512. lia.
Qed.

Lemma download_mode_result path pflag w :
  wp (do_download path pflag)
     (fun _ w' =>
        same_mode w w' \/
        pflag = true /\
        exists a, lf_mode (w_local w') = Some (download_mode a))
     (fun w' => same_mode w w') w.
Proof.
  assert (H0 : same_mode w w) by apply same_mode_refl.
  unfold do_download.
  eapply (@wp_frame_step same_mode);
    [ exact same_mode_trans | apply same_mode_do_stat | exact H0
    | intros oa ws Hs | intros ? Hf; exact Hf ].
  destruct oa as [a |]; [ | apply wp_ret; left; exact Hs ].
  destruct (has_flag (a_flags a) SSH2_FILEXFER_ATTR_PERMISSIONS
            && negb (S_ISREG (a_perm a))).
  all: repeat first
         [ mode_step; auto
         | apply wp_ret; solve [ auto ]
         | match goal with
           | |- wp (match ?x with _ => _ end) _ _ _ => destruct x
           | |- wp fatal _ _ _ => unfold wp, fatal; solve [ auto ]
           end ].
  match goal with H : same_mode w ?w1 |- wp _ _ _ ?w1 => rename H into Hw end.
  destruct pflag; [ | apply wp_bind; apply wp_ret; apply wp_ret; auto ].
  apply wp_bind. apply wp_bind. unfold wp at 1, fchmod.
  match goal with |- context [lf_chmod_ok ?f] => destruct (lf_chmod_ok f) end.
  - apply wp_ret. apply wp_ret. right.
    split; [ reflexivity | ]. exists a. reflexivity.
  - left. exact Hw.
Qed.

(** X13.  A download changes the mode of the local file only when asked to
    preserve modes ([pflag]), and then to a mode within 0777: no set-uid,
    set-gid or sticky bit of the remote file reaches the local one.  This
    holds however the download ends. *)
Theorem download_sets_mode_only_when_asked path pflag w :
  let w' := snd (do_download path pflag w) in
  lf_mode (w_local w') = lf_mode (w_local w) \/
  pflag = true /\
  exists m, lf_mode (w_local w') = Some m /\ 0 <= m <= 511.
Proof.
  generalize (download_mode_result path pflag w). unfold wp, same_mode.
  destruct (do_download path pflag w) as [[x | |] w']; cbn [snd];
    try (intro H; left; exact H).
  intros [H | [Hp [a H]]]; [ left; exact H | right ].
  split; [ exact Hp | ].
  exists (download_mode a). split; [ exact H | apply download_mode_range ].
Qed.

(** * The ranges an upload writes *)

Lemma writes_from_app handle l1 l2 :
  forall a b,
    writes_from handle a l1 = Some b ->
    writes_from handle a (l1 ++ l2) = writes_from handle b l2.
Proof.
  induction l1 as [| m l1 IH]; intros a b H; simpl in *.
  - injection H as <-. reflexivity.
  - destruct (write_range handle m) as [[off len] |]; [ | discriminate ].
    destruct (off =? a); [ | discriminate ].
    apply IH. exact H.
Qed.

Lemma same_out_interrupted : obeys (frame same_out) interrupted.
Proof. intro w. reflexivity. Qed.

Lemma same_out_local_read : obeys (frame same_out) local_read.
Proof.
  intro w. unfold wp, frame, same_out, local_read.
  destruct (read_retry (lf_reads (w_local w))). reflexivity.
Qed.

Ltac same_out_step_as x w1 H :=
  eapply (@wp_frame_step same_out);
  [ exact same_out_trans
  | first [ apply same_out_get_msg | apply same_out_error
          | apply same_out_interrupted | apply same_out_local_read
          | apply frame_pure;
            [ exact same_out_refl
            | first [ apply unchecked_pure | apply buffer_get_char_pure
                    | apply buffer_get_int_pure
                    | apply buffer_get_string_pure
                    | intro; reflexivity ] ] ]
  | eassumption
  | intros x w1 H
  | intros; exact I ].

(** The end of a round, lines 1262-1298: nothing is written, and the
    offset moves on by the length of the block. *)
Lemma upload_round_offset (startid len : Z) (s : upload) w0 w :
  same_out w0 w ->
  wp (if u_ack_null s then fatal
      else
        c <- get_conn ;;
        s <- (if (u_id s =? startid) || (len =? 0)
                 || (u32 (u_id s - u_ackid s) >=? num_requests c)
              then upload_ack s else ret s) ;;
        let offset := u_offset s + len in
        if offset >=? 2 ^ 63 then fatal
        else
          ret (Continue (R := upload)
                 (mkUl (u_status s) (u_id s) (u_ackid s) offset
                       (u_ack_null s) (u_acks s))))
     (fun x w' =>
        same_out w0 w' /\
        match x with
        | Continue s' => u_offset s' = u_offset s + len
        | Break _ => True
        end)
     (fun _ => True) w.
Proof.
  intro Hw.
  destruct (u_ack_null s); [ exact I | ].
  same_out_step_as c w1 H1.
  assert (Hfin : forall s1 w2,
            u_offset s1 = u_offset s -> same_out w0 w2 ->
            wp (let offset := u_offset s1 + len in
                if offset >=? 2 ^ 63 then fatal
                else
                  ret (Continue (R := upload)
                         (mkUl (u_status s1) (u_id s1) (u_ackid s1) offset
                               (u_ack_null s1) (u_acks s1))))
               (fun x w' =>
                  same_out w0 w' /\
                  match x with
                  | Continue s' => u_offset s' = u_offset s + len
                  | Break _ => True
                  end)
               (fun _ => True) w2).
  { intros s1 w2 Ho Hw2. cbv zeta.
    destruct (u_offset s1 + len >=? 2 ^ 63); [ exact I | ].
    apply wp_ret. split; [ exact Hw2 | ].
    cbn [u_offset]. rewrite Ho. reflexivity. }
  apply wp_bind.
  destruct ((u_id s =? startid) || (len =? 0)
            || (u32 (u_id s - u_ackid s) >=? num_requests c)).
  - unfold upload_ack.
    same_out_step_as r w2 H2.
    same_out_step_as msg w3 H3.
    same_out_step_as tm w4 H4. destruct tm as [type msg1].
    same_out_step_as im w5 H5. destruct im as [rid msg2].
    destruct (negb (type =? SSH2_FXP_STATUS)); [ exact I | ].
    same_out_step_as sm w6 H6. destruct sm as [status msg3].
    destruct (find_ack rid (u_acks s)) as [k |]; [ | exact I ].
    apply wp_ret. apply Hfin; [ reflexivity | exact H6 ].
  - apply wp_ret. apply Hfin; [ reflexivity | exact H1 ].
Qed.

(** One round of the upload loop writes nothing, or one WRITE request for
    the block that starts at the offset. *)
Lemma upload_body_writes handle startid s w :
  wp (upload_body handle startid s)
     (fun x w' =>
        match x with
        | Continue s' =>
            exists new,
              w_out w' = w_out w ++ new /\
              writes_from handle (u_offset s) new = Some (u_offset s')
        | Break _ => True
        end)
     (fun _ => True) w.
Proof.
  assert (H0 : same_out w w) by apply same_out_refl.
  unfold upload_body.
  same_out_step_as intr w1 H1.
  eapply (@wp_frame_step same_out);
    [ exact same_out_trans
    | destruct (intr || negb (u_status s =? SSH2_FX_OK));
      [ apply frame_pure; [ exact same_out_refl | intro; reflexivity ]
      | apply same_out_local_read ]
    | exact H1
    | intros rd w2 H2
    | intros; exact I ].
  destruct rd as [data |]; [ | exact I ].
  apply wp_bind.
  destruct (negb (strlen data =? 0)) eqn:Hlen.
  - apply wp_bind. unfold wp at 1, send_msg.
    destruct (buffer_len _ >? SFTP_MAX_MSG_LENGTH); [ exact I | ].
    cbv beta iota. apply wp_ret. cbv beta iota.
    set (w3 := set_out _ w2).
    eapply wp_mono;
      [ | | apply (@upload_round_offset startid (strlen data) _ w3 w3
                     (same_out_refl w3)) ];
      [ | trivial ].
    intros [s' | r] w4 [Hw4 Hs']; [ | exact I ].
    unfold same_out in *. cbn [u_offset] in Hs'.
    eexists. split.
    + rewrite Hw4. unfold w3. cbn [set_out w_out]. rewrite H2. reflexivity.
    + cbn [writes_from write_range].
      rewrite Z.eqb_refl, String.eqb_refl. cbn [andb].
      rewrite Z.eqb_refl, Hs'. reflexivity.
  - destruct (u_acks s); [ exact I | ].
    apply wp_ret.
    eapply wp_mono;
      [ | | apply (@upload_round_offset startid (strlen data) s w w2 H2) ];
      [ | trivial ].
    intros [s' | r] w4 [Hw4 Hs']; [ | exact I ].
    exists []. rewrite app_nil_r. split; [ exact Hw4 | ].
    cbn [writes_from]. rewrite Hs'.
    assert (E : strlen data = 0)
      by (apply Bool.negb_false_iff in Hlen; apply Z.eqb_eq; exact Hlen).
    rewrite E, Z.add_0_r. reflexivity.
Qed.

(** X14.  An upload writes the file in consecutive blocks: the requests
    the loop of [do_upload] has sent at any moment are WRITE requests on
    the handle, each for the range that starts where the one before it
    ended, and the offset of the loop is the end of the last. *)
Theorem upload_writes_consecutive handle startid s0 w0 c :
  upload_reach handle startid (s0, w0) c ->
  exists new,
    w_out (snd c) = w_out w0 ++ new /\
    writes_from handle (u_offset s0) new = Some (u_offset (fst c)).
Proof.
  intro Hr. induction Hr as [| s1 w1 s' w' Hr IH Hb]; cbn [fst snd] in *.
  - exists []. rewrite app_nil_r. split; reflexivity.
  - destruct IH as [new [Ho Hw]].
    generalize (@wp_run _ _ _ _ _ _ _
                  (upload_body_writes handle startid s1 w1) Hb).
    intros [new' [Ho' Hw']].
    exists (new ++ new'). split.
    + rewrite Ho', Ho, app_assoc. reflexivity.
    + rewrite (@writes_from_app handle new new' _ _ Hw). exact Hw'.
Qed.

Lemma upload_writes_consecutive_witness :
  let w :=
    mkWorld (mkConn 0 1 4 2 3 8 0) []
            [status_reply 8 SSH2_FX_OK] 1000 0 []
            (regular_file ["abcd"%string; "ef"%string]) in
  exists c,
    upload_reach "h" 8 (upload_start 7, w) c /\
    u_offset (fst c) = 6 /\
    exists new,
      w_out (snd c) = new /\ writes_from "h" 0 new = Some 6.
Proof.
  intro w.
  run_as E1 (upload_body "h" 8 (upload_start 7) w).
  match type of E1 with _ = (Done (Continue ?s1), ?w1) =>
    run_as E2 (upload_body "h" 8 s1 w1)
  end.
  assert (Hr : upload_reach "h" 8 (upload_start 7, w) _)
    by (eapply up_round; [ eapply up_round; [ apply up_start | exact E1 ]
                         | exact E2 ]).
  eexists (_, _). split; [ exact Hr | split; [ reflexivity | ] ].
  exact (@upload_writes_consecutive _ _ _ _ _ Hr).
Defined.

(** * What a stat reports *)

Lemma same_log_refl w : same_log w w.
Proof. reflexivity. Qed.

Lemma same_log_trans w1 w2 w3 :
  same_log w1 w2 -> same_log w2 w3 -> same_log w1 w3.
Proof. unfold same_log. congruence. Qed.

Lemma same_log_next_msg_id : obeys (frame same_log) next_msg_id.
Proof. intro w. reflexivity. Qed.

Lemma same_log_send_msg m : obeys (frame same_log) (send_msg m).
Proof.
  intro w. unfold wp, frame, same_log, send_msg.
  destruct (buffer_len m >? SFTP_MAX_MSG_LENGTH); reflexivity.
Qed.

Lemma same_log_get_msg : obeys (frame same_log) get_msg.
Proof.
  intro w. unfold wp, frame, same_log, get_msg.
  destruct (w_in w) as [| m rest]; [ reflexivity | ].
  destruct (buffer_len m >? SFTP_MAX_MSG_LENGTH); reflexivity.
Qed.

Ltac same_log_step_as x w1 H :=
  eapply (@wp_frame_step same_log);
  [ exact same_log_trans
  | first [ apply same_log_next_msg_id | apply same_log_send_msg
          | apply same_log_get_msg
          | apply frame_pure;
            [ exact same_log_refl
            | first [ apply unchecked_pure | apply buffer_get_char_pure
                    | apply buffer_get_int_pure
                    | apply buffer_get_string_pure
                    | intro; reflexivity ] ] ]
  | eassumption
  | intros x w1 H
  | intros ? Hf; left; exact Hf ].

Lemma get_decode_stat_log id quiet w0 w :
  same_log w0 w ->
  wp (get_decode_stat id quiet) (fun _ w' => stat_log quiet w0 w')
     (fun w' => stat_log quiet w0 w') w.
Proof.
  intro Hw. unfold get_decode_stat.
  same_log_step_as r w1 H1.
  same_log_step_as msg w2 H2.
  same_log_step_as tm w3 H3. destruct tm as [type msg1].
  same_log_step_as im w4 H4. destruct im as [rid msg2].
  destruct (negb (rid =? id)); [ left; exact H4 | ].
  destruct (type =? SSH2_FXP_STATUS).
  - same_log_step_as sm w5 H5. destruct sm as [status msg3].
    destruct quiet.
    + apply wp_bind. apply wp_ret. apply wp_ret. left. exact H5.
    + apply wp_bind. unfold wp at 1, error. apply wp_ret.
      right. split; [ reflexivity | ].
      cbn [set_log w_log]. rewrite H5. reflexivity.
  - destruct (negb (type =? SSH2_FXP_ATTRS)); [ left; exact H4 | ].
    apply wp_bind.
    destruct msg2 as [| [ | | | | at1 ] rest]; left; exact H4.
Qed.

Lemma do_stat_log path quiet w0 w :
  same_log w0 w ->
  wp (do_stat path quiet) (fun _ w' => stat_log quiet w0 w')
     (fun w' => stat_log quiet w0 w') w.
Proof.
  intro Hw. unfold do_stat, send_string_request.
  same_log_step_as nid w1 H1.
  same_log_step_as c w2 H2.
  same_log_step_as u1 w3 H3.
  apply get_decode_stat_log. exact H3.
Qed.

(** X15.  A stat reports a failure on the error log only if it was not
    asked to be quiet: [do_stat] and [do_lstat] with [quiet] set leave the
    log as it is, and without it they add at most the one line
    "Couldn't stat remote file", however they end. *)
Theorem stat_quiet_logs_nothing path quiet w :
  stat_log quiet w (snd (do_stat path quiet w)) /\
  stat_log quiet w (snd (do_lstat path quiet w)).
Proof.
  split.
  - generalize (@do_stat_log path quiet w w (same_log_refl w)).
    unfold wp. destruct (do_stat path quiet w) as [[x | |] w'];
      intro H; exact H.
  - assert (H : wp (do_lstat path quiet) (fun _ w' => stat_log quiet w w')
                   (fun w' => stat_log quiet w w') w).
    { assert (Hw : same_log w w) by apply same_log_refl.
      unfold do_lstat, send_string_request.
      same_log_step_as c w1 H1.
      destruct (version c =? 0); [ apply do_stat_log; exact H1 | ].
      same_log_step_as nid w2 H2.
      same_log_step_as u1 w3 H3.
      apply get_decode_stat_log. exact H3. }
    revert H. unfold wp.
    destruct (do_lstat path quiet w) as [[x | |] w']; intro H; exact H.
Qed.

(** * The queue at the end of a download *)

(** The loop of the download is left only with [num_req = 0]. *)
Lemma download_body_break size handle s w :
  wp (download_body size handle s)
     (fun x _ =>
        match x with
        | Continue _ => True
        | Break s' => s' = s /\ d_num_req s <= 0
        end)
     (fun _ => True) w.
Proof.
  unfold download_body.
  destruct ((d_num_req s >? 0) || (d_max_req s >? 0)) eqn:Hc.
  - apply wp_any; [ intros intr w1 | auto ].
    destruct (intr && (d_num_req s =? 0)) eqn:Hi.
    + apply wp_ret. split; [ reflexivity | ].
      apply Bool.andb_true_iff in Hi. destruct Hi as [_ Hi].
      apply Z.eqb_eq in Hi. lia.
    + apply wp_any; [ intros s1 w2 | auto ].
      apply wp_any; [ intros r w3 | auto ].
      apply wp_any; [ intros msg w4 | auto ].
      apply wp_any; [ intros [type msg1] w5 | auto ].
      apply wp_any; [ intros [rid msg2] w6 | auto ].
      destruct (find_request rid (d_requests s1)) as [req |]; [ | exact I ].
      destruct (type =? SSH2_FXP_STATUS).
      * apply wp_any; [ intros s2 w7 | auto ]. exact I.
      * destruct (type =? SSH2_FXP_DATA); [ | exact I ].
        apply wp_any; [ intros s2 w7 | auto ]. exact I.
  - apply wp_ret. split; [ reflexivity | ].
    apply Bool.orb_false_iff in Hc. destruct Hc as [Hc _].
    destruct (Z.gtb_spec (d_num_req s) 0); [ discriminate | lia ].
Qed.

(** X16.  The sanity check after the loop of [do_download] ("Transfer
    complete, but requests still in queue") cannot fire: with a request
    limit below 2^32, whenever the loop is left the queue of requests is
    empty. *)
Theorem download_ends_with_empty_queue size handle buflen w c s' w' :
  0 <= num_requests (w_conn w) < 2 ^ 32 ->
  download_reach size handle (download_start buflen, w) c ->
  download_body size handle (fst c) (snd c) = (Done (Break s'), w') ->
  d_requests s' = [].
Proof.
  intros HN Hr Hb.
  destruct (@download_reach_window size handle buflen w c HN Hr)
    as [Hq _].
  generalize (@wp_run _ _ _ _ _ _ _
                (download_body_break size handle (fst c) (snd c)) Hb).
  intros [-> Hn]. rewrite Hq in Hn.
  destruct (d_requests (fst c)); [ reflexivity | ].
  cbn [List.length] in Hn. lia.
Qed.

Lemma download_ends_with_empty_queue_witness :
  let w :=
    mkWorld (mkConn 0 1 4 2 3 7 0) [] [status_reply 7 SSH2_FX_EOF] 1000 0 []
            no_local in
  exists c s' w',
    download_reach 100 "h" (download_start 4, w) c /\
    download_body 100 "h" (fst c) (snd c) = (Done (Break s'), w') /\
    d_requests s' = [].
Proof.
  intro w.
  run_as E1 (download_body 100 "h" (download_start 4) w).
  match type of E1 with _ = (Done (Continue ?s1), ?w1) =>
    run_as E2 (download_body 100 "h" s1 w1)
  end.
  assert (Hr : download_reach 100 "h" (download_start 4, w) _)
    by (eapply reach_round; [ apply reach_start | exact E1 ]).
  assert (HN : 0 <= num_requests (w_conn w) < 2 ^ 32)
    by (cbn [w w_conn num_requests]; split; [ discriminate | reflexivity ]).
  eexists (_, _), _, _. split; [ exact Hr | split; [ exact E2 | ] ].
  exact (@download_ends_with_empty_queue _ _ _ _ _ _ _ HN Hr E2).
Defined.

(** * The operations answered by a status *)

Lemma get_status_reply id id' st rest w :
  w_in w = status_reply id' st :: rest ->
  get_status id w
  = (Done (if u32 id' =? id then u32 st else 255), set_in rest w).
Proof.
  intro Hin. unfold get_status, bind, get_msg. rewrite Hin.
  change (buffer_len (status_reply id' st) >? SFTP_MAX_MSG_LENGTH)
    with false.
  cbv beta iota.
  change (buffer_get_char (status_reply id' st) (set_in rest w))
    with (Done (SSH2_FXP_STATUS, [Fint id'; Fint st]), set_in rest w).
  cbv beta iota.
  change (buffer_get_int [Fint id'; Fint st] (set_in rest w))
    with (Done (u32 id', [Fint st]), set_in rest w).
  cbv beta iota.
  destruct (u32 id' =? id); reflexivity.
Qed.

Lemma status_call_answer (req : Z -> Buffer) (text arg : string)
    id' st rest w :
  small (req (msg_id (w_conn w))) ->
  w_in w = status_reply id' st :: rest ->
  let id := msg_id (w_conn w) in
  let status := if u32 id' =? id then u32 st else 255 in
  let m := (id <- next_msg_id ;;
            send_msg (req id) ;;
            status <- get_status id ;;
            (if negb (status =? SSH2_FX_OK) then error text arg
             else ret tt) ;;
            ret (to_int status)) in
  fst (m w) = Done (to_int status) /\
  w_out (snd (m w)) = w_out w ++ [req id] /\
  w_in (snd (m w)) = rest /\
  w_log (snd (m w))
  = w_log w ++ (if status =? SSH2_FX_OK then [] else [Error text arg]) /\
  msg_id (w_conn (snd (m w))) = u32 (id + 1).
Proof.
  intros Hs Hin id r m.
  set (w1 := set_conn (set_msg_id (w_conn w) (u32 (id + 1))) w).
  set (w2 := set_out (w_out w1 ++ [req id]) w1).
  set (w3 := set_in rest w2).
  assert (E : m w
              = (Done (to_int r),
                 if r =? SSH2_FX_OK then w3
                 else set_log (w_log w3 ++ [Error text arg]) w3)).
  { unfold m, bind at 1, next_msg_id. fold id. fold w1.
    unfold bind at 1, send_msg. unfold small in Hs. fold id in Hs.
    destruct (Z.gtb_spec (buffer_len (req id)) SFTP_MAX_MSG_LENGTH)
      as [Hgt | _]; [ lia | ].
    fold w2.
    assert (Hin2 : w_in w2 = status_reply id' st :: rest) by exact Hin.
    unfold bind at 1. rewrite (@get_status_reply id id' st rest w2 Hin2).
    fold r. fold w3.
    destruct (r =? SSH2_FX_OK); reflexivity. }
  rewrite E. cbn [fst snd].
  destruct (r =? SSH2_FX_OK);
    cbn [w_out w_in w_log w_conn set_log set_in set_out set_conn msg_id
         set_msg_id w1 w2 w3];
    rewrite ?app_nil_r; repeat split; reflexivity.
Qed.

(** X17.  The operations answered by a status (close, rm, mkdir, rmdir,
    setstat, fsetstat) take the next message id, write their one request
    and read one reply.  If that reply is a STATUS under the id of the
    request they take its status, and 255 if it is a STATUS under another
    id; they log their error line unless that status is OK, and return it
    as an [int], so that a status from [2^31] on comes back negative.
    They do not abort. *)
Theorem status_operations_answer (o : status_operation) id' st rest w :
  small (status_request o (msg_id (w_conn w))) ->
  w_in w = status_reply id' st :: rest ->
  let id := msg_id (w_conn w) in
  let status := if u32 id' =? id then u32 st else 255 in
  let w' := snd (run_status o w) in
  fst (run_status o w) = Done (to_int status) /\
  w_out w' = w_out w ++ [status_request o id] /\
  w_in w' = rest /\
  w_log w'
  = w_log w ++ (if status =? SSH2_FX_OK then [] else [status_error o]) /\
  msg_id (w_conn w') = u32 (id + 1).
Proof.
  intros Hs Hin.
  destruct o as [handle | path | path at1 | path | path at1 | handle at1];
    cbn [run_status status_request status_error] in *.
  - exact (@status_call_answer
             (fun id => [Fchar SSH2_FXP_CLOSE; Fint id; Fstring handle])
             _ _ id' st rest w Hs Hin).
  - exact (@status_call_answer
             (fun id => [Fchar SSH2_FXP_REMOVE; Fint id; Fstring path])
             _ _ id' st rest w Hs Hin).
  - exact (@status_call_answer
             (fun id => [Fchar SSH2_FXP_MKDIR; Fint id; Fstring path;
                         Fattrib at1])
             _ _ id' st rest w Hs Hin).
  - exact (@status_call_answer
             (fun id => [Fchar SSH2_FXP_RMDIR; Fint id; Fstring path])
             _ _ id' st rest w Hs Hin).
  - exact (@status_call_answer
             (fun id => [Fchar SSH2_FXP_SETSTAT; Fint id; Fstring path;
                         Fattrib at1])
             _ _ id' st rest w Hs Hin).
  - exact (@status_call_answer
             (fun id => [Fchar SSH2_FXP_FSETSTAT; Fint id; Fstring handle;
                         Fattrib at1])
             _ _ id' st rest w Hs Hin).
Qed.

Lemma status_operations_answer_witness :
  let w1 :=
    mkWorld (mkConn 0 1 4 2 3 5 0) [] [status_reply 6 SSH2_FX_OK] 1000 0 []
            no_local in
  let w2 :=
    mkWorld (mkConn 0 1 4 2 3 5 0) [] [status_reply 5 4294967295] 1000 0 []
            no_local in
  (fst (run_status (SoRm "f") w1) = Done 255 /\
   w_log (snd (run_status (SoRm "f") w1))
   = [Error "Couldn't delete file: %s" ""]) /\
  fst (run_status (SoRm "f") w2) = Done (-1).
Proof.
  intros w1 w2.
  assert (Hs : small (status_request (SoRm "f") 5))
    by (vm_compute; discriminate).
  split.
  - generalize (@status_operations_answer (SoRm "f") 6 SSH2_FX_OK [] w1 Hs
                  eq_refl).
    intros (H1 & _ & _ & H4 & _). split; [ exact H1 | exact H4 ].
  - exact (proj1 (@status_operations_answer (SoRm "f") 5 4294967295 [] w2
                    Hs eq_refl)).
Defined.

(** * The canonical path *)

Lemma realpath_reply path id' entries rest w :
  small [Fchar SSH2_FXP_REALPATH; Fint (msg_id (w_conn w)); Fstring path] ->
  small (name_reply id' entries) ->
  w_in w = name_reply id' entries :: rest ->
  let id := msg_id (w_conn w) in
  exists w',
    do_realpath path w
    = (if negb (u32 id' =? id) then Done None
       else if negb (u32 (Z.of_nat (List.length entries)) =? 1)
            then Done None
            else match entries with
                 | e :: _ => Done (Some (cstr (filename e)))
                 | [] => Fatal
                 end,
       w') /\
    w_out w' = w_out w ++ [[Fchar SSH2_FXP_REALPATH; Fint id; Fstring path]] /\
    w_in w' = rest.
Proof.
  intros Hs Hr Hin id.
  unfold do_realpath, send_string_request.
  unfold bind at 1, next_msg_id. fold id.
  set (w1 := set_conn (set_msg_id (w_conn w) (u32 (id + 1))) w).
  unfold bind at 1, send_msg. unfold small in Hs, Hr. fold id in Hs.
  destruct (Z.gtb_spec
              (buffer_len [Fchar SSH2_FXP_REALPATH; Fint id; Fstring path])
              SFTP_MAX_MSG_LENGTH) as [Hgt | _]; [ lia | ].
  set (w2 := set_out _ w1).
  exists (set_in rest w2).
  split; [ | split; reflexivity ].
  unfold bind at 1, get_msg.
  assert (Hin2 : w_in w2 = name_reply id' entries :: rest) by exact Hin.
  rewrite Hin2.
  destruct (Z.gtb_spec (buffer_len (name_reply id' entries))
              SFTP_MAX_MSG_LENGTH) as [Hgt | _]; [ lia | ].
  unfold name_reply.
  unfold bind at 1. cbn [buffer_get_char ret].
  change (SSH2_FXP_NAME mod 256) with SSH2_FXP_NAME.
  unfold bind at 1. cbn [buffer_get_int ret].
  destruct (negb (u32 id' =? id)); [ reflexivity | ].
  change (SSH2_FXP_NAME =? SSH2_FXP_STATUS) with false.
  change (negb (SSH2_FXP_NAME =? SSH2_FXP_NAME)) with false.
  cbv iota.
  unfold bind at 1. cbn [buffer_get_int ret].
  destruct (negb (u32 (Z.of_nat (List.length entries)) =? 1));
    [ reflexivity | ].
  destruct entries as [| e more]; reflexivity.
Qed.

(** X18.  [do_realpath] writes one REALPATH request and reads one reply.
    From a NAME reply under the id of the request that counts exactly one
    name it returns the file name of the entry, as a C string (up to its
    first NUL byte); a NAME reply under another id, or one that counts
    another number of names, makes it return NULL without aborting. *)
Theorem realpath_returns_single_name path id' entries rest w :
  small [Fchar SSH2_FXP_REALPATH; Fint (msg_id (w_conn w)); Fstring path] ->
  small (name_reply id' entries) ->
  w_in w = name_reply id' entries :: rest ->
  let id := msg_id (w_conn w) in
  let r := fst (do_realpath path w) in
  let w' := snd (do_realpath path w) in
  (forall e, entries = [e] ->
     r = Done (if u32 id' =? id then Some (cstr (filename e)) else None)) /\
  (u32 (Z.of_nat (List.length entries)) <> 1 -> r = Done None) /\
  w_out w' = w_out w ++ [[Fchar SSH2_FXP_REALPATH; Fint id; Fstring path]] /\
  w_in w' = rest.
Proof.
  intros Hs Hr Hin id r w'.
  destruct (@realpath_reply path id' entries rest w Hs Hr Hin)
    as [w1 [E [Ho Hi]]].
  unfold r, w'. rewrite E. cbn [fst snd]. fold id.
  split; [ | split; [ | split; assumption ] ].
  - intros e ->. cbn [List.length].
    destruct (u32 id' =? id); reflexivity.
  - intro Hc. apply Z.eqb_neq in Hc. rewrite Hc.
    destruct (u32 id' =? id); reflexivity.
Qed.

Lemma realpath_returns_single_name_witness :
  let name := ("/home/u" ++ String Ascii.zero "/x")%string in
  let w :=
    mkWorld (mkConn 0 1 4 2 3 5 0) []
            [name_reply 5 [mkDirent name "l" attrib_clear]] 1000 0 []
            no_local in
  fst (do_realpath "." w) = Done (Some "/home/u"%string).
Proof.
  intros name w.
  assert (Hs : small [Fchar SSH2_FXP_REALPATH; Fint (msg_id (w_conn w));
                      Fstring "."])
    by (vm_compute; discriminate).
  assert (Hr : small (name_reply 5 [mkDirent name "l" attrib_clear]))
    by (vm_compute; discriminate).
  exact (proj1 (@realpath_returns_single_name "." 5 _ [] w Hs Hr eq_refl)
               _ eq_refl).
Defined.
